(** * SpiBeam command path: wire protocol, memory writer, command engine

    A shallow embedding of the C++ sources under [src/Runner]:
    - [SpiwriteProtocol.h], [SpiwriteProtocol.cpp]: [Header], [Frame],
      [DecodeFrame];
    - [SpiwriteFrameHandler.h]: [FrameHandler];
    - [SpiwriteCommand.cpp]: [MemoryWriter], [parse_binary_commands],
      [parse_text_commands], [Execute], and the free functions
      [writeMemoryDirect], [readMemoryValue], [busyWaitUsingValue];
    - [SpitermRunner.cpp]: [OnMessage] and the reply it assembles;
    - [ConsoleRunner.cpp]: [normalize_degrees], [phase], and the steering
      pass of [Run] (grid, sort, write loop, [change_bus_process]).

    Bytes are [Byte.byte]; fixed-width integers are [Z] with the wrap-around
    written where the source can reach it.  What the sources leave to the
    platform (byte order, width of [size_t] and [uintptr_t], page size) is
    gathered in the record [platform].  [float] and [double] are the
    binary32 and binary64 formats of [SpecFloat], rounding to nearest even. *)

From Stdlib Require Import ZArith List String Ascii Bool Lia DecimalString.
From Stdlib Require Import Strings.Byte.
From Stdlib Require Import Floats.SpecFloat.
From stdpp Require Import base option list gmap strings.

Import ListNotations.
Local Open Scope Z_scope.

(** ** Platform *)

Inductive endianness := LittleEndian | BigEndian.

Record platform := {
  byte_order : endianness;   (* layout of a uint32_t in memory *)
  size_bits : Z;             (* width of size_t and uintptr_t *)
  page_size : Z              (* sysconf(_SC_PAGESIZE) *)
}.

(** Two hosts, for examples: 64-bit little-endian and big-endian Linux with
    pages of 4096 bytes. *)
Definition lp64_le : platform :=
  {| byte_order := LittleEndian; size_bits := 64; page_size := 4096 |}.
Definition lp64_be : platform :=
  {| byte_order := BigEndian; size_bits := 64; page_size := 4096 |}.

(** A 32-bit little-endian host. *)
Definition ilp32_le : platform :=
  {| byte_order := LittleEndian; size_bits := 32; page_size := 4096 |}.

(** Conversion of a mathematical value to [size_t] / [uintptr_t]. *)
Definition to_size_t (p : platform) (z : Z) : Z := z mod 2 ^ size_bits p.

Definition INT_MAX : Z := 2147483647.

(** Conversion to [int] (two's complement, 32 bits). *)
Definition to_int (z : Z) : Z := (z + 2 ^ 31) mod 2 ^ 32 - 2 ^ 31.

Definition to_uint32 (z : Z) : Z := z mod 2 ^ 32.
Definition to_uint16 (z : Z) : Z := z mod 2 ^ 16.
Definition to_uint8 (z : Z) : Z := z mod 2 ^ 8.

(** ** Bytes *)

Definition byte_val (b : byte) : Z := Z.of_N (Byte.to_N b).

Definition byte_of (z : Z) : byte :=
  match Byte.of_N (Z.to_N (z mod 256)) with
  | Some b => b
  | None => x00
  end.

(** ** Wire protocol ([SpiwriteProtocol.h], [SpiwriteProtocol.cpp]) *)

Module Protocol.

Definition MSG_STRAT_CODE : Z := 0x1077E110.
Definition MSG_ACK : Z := 0x00000001.
Definition MSG_LINES : Z := 0x00000002.

(** [struct Header]: four packed [uint32_t] fields. *)
Record Header := {
  start : Z;
  sequence : Z;
  message_type : Z;
  message_length : Z
}.

Definition sizeof_Header : Z := 16.

(** The four bytes a [uint32_t] occupies in memory, lowest address first. *)
Definition store32 (e : endianness) (w : Z) : list byte :=
  match e with
  | LittleEndian =>
      [byte_of w; byte_of (w / 2 ^ 8); byte_of (w / 2 ^ 16); byte_of (w / 2 ^ 24)]
  | BigEndian =>
      [byte_of (w / 2 ^ 24); byte_of (w / 2 ^ 16); byte_of (w / 2 ^ 8); byte_of w]
  end.

(** The [uint32_t] read from four bytes in memory, lowest address first. *)
Definition load32 (e : endianness) (b0 b1 b2 b3 : byte) : Z :=
  match e with
  | LittleEndian =>
      byte_val b0 + byte_val b1 * 2 ^ 8 + byte_val b2 * 2 ^ 16 + byte_val b3 * 2 ^ 24
  | BigEndian =>
      byte_val b3 + byte_val b2 * 2 ^ 8 + byte_val b1 * 2 ^ 16 + byte_val b0 * 2 ^ 24
  end.

(** Byte reversal of a 32-bit word. *)
Definition bswap32 (w : Z) : Z :=
  (w mod 2 ^ 8) * 2 ^ 24 + (w / 2 ^ 8 mod 2 ^ 8) * 2 ^ 16
  + (w / 2 ^ 16 mod 2 ^ 8) * 2 ^ 8 + (w / 2 ^ 24 mod 2 ^ 8).

(** [ntohl] and [htonl] of <netinet/in.h>: the identity on a big-endian
    host, a byte swap on a little-endian one. *)
Definition ntohl (e : endianness) (w : Z) : Z :=
  match e with
  | LittleEndian => bswap32 w
  | BigEndian => to_uint32 w
  end.

Definition htonl (e : endianness) (w : Z) : Z := ntohl e w.

(** The byte at index [i] of a buffer the caller has checked to be long
    enough. *)
Definition at_ (raw : list byte) (i : nat) : byte := nth i raw x00.

(** [*(const Header* )raw]: the four fields as they lie in memory. *)
Definition reinterpret_Header (e : endianness) (raw : list byte) : Header :=
  {| start := load32 e (at_ raw 0) (at_ raw 1) (at_ raw 2) (at_ raw 3);
     sequence := load32 e (at_ raw 4) (at_ raw 5) (at_ raw 6) (at_ raw 7);
     message_type := load32 e (at_ raw 8) (at_ raw 9) (at_ raw 10) (at_ raw 11);
     message_length := load32 e (at_ raw 12) (at_ raw 13) (at_ raw 14) (at_ raw 15) |}.

(** [Header::FromNetwork]. *)
Definition FromNetwork (e : endianness) (raw : list byte) : Header :=
  let nh := reinterpret_Header e raw in
  {| start := ntohl e (start nh);
     sequence := ntohl e (sequence nh);
     message_type := ntohl e (message_type nh);
     message_length := ntohl e (message_length nh) |}.

(** [Header::ToNetwork]. *)
Definition ToNetwork (e : endianness) (h : Header) : Header :=
  {| start := htonl e (start h);
     sequence := htonl e (sequence h);
     message_type := htonl e (message_type h);
     message_length := htonl e (message_length h) |}.

(** The 16 bytes of a [Header] object, as [memcpy] sees them. *)
Definition Header_bytes (e : endianness) (h : Header) : list byte :=
  store32 e (start h) ++ store32 e (sequence h)
  ++ store32 e (message_type h) ++ store32 e (message_length h).

(** [struct Frame]; [message] is [MessageRaw::data]. *)
Record Frame := {
  head : Header;
  message : list byte
}.

(** [Frame::Length]. *)
Definition Length (f : Frame) : Z :=
  to_int (sizeof_Header + Z.of_nat (length (message f))).

(** [Frame::DeepCopy]: the header object copied as it is, then the payload. *)
Definition DeepCopy (e : endianness) (f : Frame) : list byte :=
  Header_bytes e (head f) ++ message f.

(** The two [std::logic_error]s [DecodeFrame] throws. *)
Inductive decode_error :=
| FrameNotReady                              (* "Frame is not ready yet!" *)
| FrameShort (received needed : Z).          (* "%d recevied but %d needed" *)

Inductive decode_result :=
| Decoded (f : Frame)
| Threw (err : decode_error)
| OutOfBounds.      (* the payload copy runs past the [len] bytes given *)

(** [DecodeFrame( frame, len )], with [len] the number of bytes the pointer
    [frame] denotes, so that the implicit conversions of [len] to [size_t]
    leave it unchanged.  [sizeof(head) + head.message_length] is computed in
    [size_t]. *)
Definition DecodeFrame (p : platform) (frame : list byte) : decode_result :=
  let len := Z.of_nat (length frame) in
  if len <? sizeof_Header then Threw FrameNotReady
  else
    let head := FromNetwork (byte_order p) frame in
    let msg := drop (Z.to_nat sizeof_Header) frame in
    let needed := to_size_t p (sizeof_Header + message_length head) in
    if needed >? len then Threw (FrameShort len needed)
    else if Z.of_nat (length msg) <? message_length head then OutOfBounds
    else Decoded {| head := head;
                    message := take (Z.to_nat (message_length head)) msg |}.

(** *** [FrameHandler] ([SpiwriteFrameHandler.h]) *)

(** What a [FrameHandler] does that its owner can observe: the hook and
    handler it invokes, and the buffers it hands to [on_send_]. *)
Inductive event :=
| PreMessage (f : Frame)                       (* OnPreMessage( decoded ) *)
| Sent (data : list byte)                      (* on_send_( &data[0], size ) *)
| Message (h : Header) (lines : list byte).    (* OnMessage( head, lines ) *)

(** [FrameHandler::Send]. *)
Definition Send (e : endianness) (f : Frame) : list event :=
  [Sent (DeepCopy e f)].

(** The frame [FrameHandler::Ack] builds: the header in network order and an
    empty [MessageRaw]. *)
Definition ack_frame (e : endianness) (seq msg_type : Z) : Frame :=
  {| head := ToNetwork e {| start := MSG_STRAT_CODE;
                            sequence := seq;
                            message_type := msg_type;
                            message_length := 0 |};
     message := [] |}.

(** [FrameHandler::Ack]. *)
Definition Ack (e : endianness) (seq msg_type : Z) : list event :=
  Send e (ack_frame e seq msg_type).

(** [FrameHandler::OnPreMessage], the default hook. *)
Definition OnPreMessage (e : endianness) (f : Frame) : list event :=
  if message_type (head f) =? MSG_ACK then []
  else Ack e (sequence (head f)) MSG_ACK.

(** The body of the loop of [OnReceive] once a frame is decoded. *)
Definition dispatch (e : endianness) (decoded : Frame) : list event :=
  if negb (start (head decoded) =? MSG_STRAT_CODE) then []
  else
    PreMessage decoded :: OnPreMessage e decoded
    ++ (if message_type (head decoded) =? MSG_LINES
        then [Message (head decoded) (message decoded)]
        else []).

(** How a call of [OnReceive] ends: the loop runs to [len], or [DecodeFrame]
    throws (or leaves the buffer) with [processed] bytes consumed. *)
Inductive receive_end :=
| Finished (processed : Z)
| Raised (err : decode_error) (processed : Z)
| Overrun (processed : Z)
| Unfinished (processed : Z).   (* loop cut by the fuel of the model *)

(** The loop of [FrameHandler::OnReceive]; every turn consumes at least a
    header, so [length packet] turns are more than enough. *)
Fixpoint OnReceive_from (fuel : nat) (p : platform) (packet : list byte)
    (processed : Z) : list event * receive_end :=
  let len := Z.of_nat (length packet) in
  if processed <? len then
    match fuel with
    | O => ([], Unfinished processed)
    | S fuel' =>
        match DecodeFrame p (drop (Z.to_nat processed) packet) with
        | Decoded decoded =>
            let processed' := processed + Length decoded in
            let (evs, fin) := OnReceive_from fuel' p packet processed' in
            (dispatch (byte_order p) decoded ++ evs, fin)
        | Threw err => ([], Raised err processed)
        | OutOfBounds => ([], Overrun processed)
        end
    end
  else ([], Finished processed).

Definition OnReceive (p : platform) (packet : list byte) : list event * receive_end :=
  OnReceive_from (length packet) p packet 0.

(** The value of [processed] when the call ends. *)
Definition consumed (fin : receive_end) : Z :=
  match fin with
  | Finished n | Raised _ n | Overrun n | Unfinished n => n
  end.

(** Example buffers: five bytes, and the header of a LINES frame with
    sequence 1 and no payload. *)
Definition short_buffer : list byte := [x10; x77; xe1; x10; x00].

Definition lines_header : list byte :=
  [x10; x77; xe1; x10;  x00; x00; x00; x01;  x00; x00; x00; x02;  x00; x00; x00; x00].

(** A header that declares [0xFFFFFFF0] bytes of payload, and nothing
    behind it. *)
Definition huge_header : list byte :=
  [x10; x77; xe1; x10;  x00; x00; x00; x01;  x00; x00; x00; x02;  xff; xff; xff; xf0].

End Protocol.

(** ** [MemoryWriter] ([SpiwriteCommand.h], [SpiwriteCommand.cpp]) *)

Module MemWriter.

(** The value of the pointer [mapped_base]: null, [MAP_FAILED], or the start
    of a live mapping of [len] bytes of physical memory from [phys] on. *)
Inductive pointer :=
| nullptr
| MAP_FAILED
| mapping (phys len : Z).

Record MemoryWriter := {
  mem_fd : Z;
  mapped_base : pointer;
  mapped_address : Z;
  mapped_size : Z
}.

(** The member initialisers of the class. *)
Definition fresh : MemoryWriter :=
  {| mem_fd := -1; mapped_base := nullptr; mapped_address := 0; mapped_size := 0 |}.

(** What the kernel answers: the descriptor [open("/dev/mem")] returns
    ([-1] on failure) and whether [mmap] succeeds. *)
Record kernel := {
  open_dev_mem : Z;
  mmap_succeeds : bool
}.

(** An access to physical memory through a mapping of [/dev/mem]. *)
Inductive access :=
| Store (phys value : Z)
| Load (phys : Z).

(** A call either returns or leaves defined behaviour (an access through a
    pointer outside any mapping). *)
Inductive outcome (A : Type) :=
| Ret (a : A)
| Fault.
Arguments Ret {A} a.
Arguments Fault {A}.

(** [target_address & ~(page_size - 1)] in [uintptr_t]. *)
Definition page_base_of (p : platform) (target_address : Z) : Z :=
  Z.land target_address (to_size_t p (Z.lnot (page_size p - 1))).

(** [writeMemoryDirect]: maps the page that holds the address, writes,
    unmaps.  Returns the result and the accesses performed.  The source
    stores through a [volatile uint32_t*] without testing the alignment of
    the address; the store is recorded here at the address whatever its
    alignment, and what a platform does with a misaligned store is not
    modelled. *)
Definition writeMemoryDirect (p : platform) (k : kernel)
    (target_address value : Z) : bool * list access :=
  let page_base := page_base_of p target_address in
  let page_offset := to_size_t p (target_address - page_base) in
  if to_size_t p (page_offset + 4) >? page_size p then (false, [])
  else if open_dev_mem k =? -1 then (false, [])
  else if negb (mmap_succeeds k) then (false, [])
  else (true, [Store (page_base + page_offset) value]).

(** [MemoryWriter::initialize]. *)
Definition initialize (p : platform) (k : kernel) (wr : MemoryWriter)
    (base_addr size : Z) : bool * MemoryWriter :=
  let page_base := page_base_of p base_addr in
  let size' :=
    to_size_t p (to_size_t p (to_size_t p (size + page_size p) - 1)
                 / page_size p * page_size p) in
  if open_dev_mem k =? -1 then
    (false, {| mem_fd := -1; mapped_base := mapped_base wr;
               mapped_address := mapped_address wr; mapped_size := size' |})
  else if negb (mmap_succeeds k) then
    (false, {| mem_fd := -1; mapped_base := MAP_FAILED;
               mapped_address := mapped_address wr; mapped_size := size' |})
  else
    (true, {| mem_fd := open_dev_mem k; mapped_base := mapping page_base size';
              mapped_address := page_base; mapped_size := size' |}).

(** The alignment and range checks shared by [readMemory] and
    [writeMemory]; the sums are computed in [uintptr_t]. *)
Definition aligned (target_address : Z) : bool :=
  target_address mod 4 =? 0.

Definition in_mapped_range (p : platform) (wr : MemoryWriter)
    (target_address : Z) : bool :=
  negb ((target_address <? mapped_address wr)
        || (to_size_t p (target_address + 4)
            >? to_size_t p (mapped_address wr + mapped_size wr))).

(** The physical address behind
    [static_cast<uint8_t*>(mapped_base) + (target_address - mapped_address)],
    when those four bytes lie inside the mapping. *)
Definition deref (p : platform) (wr : MemoryWriter) (target_address : Z)
    : option Z :=
  let off := to_size_t p (target_address - mapped_address wr) in
  match mapped_base wr with
  | mapping phys len => if off + 4 <=? len then Some (phys + off) else None
  | _ => None
  end.

(** [MemoryWriter::writeMemory]. *)
Definition writeMemory (p : platform) (k : kernel) (wr : MemoryWriter)
    (target_address value : Z) : outcome bool * list access :=
  if (mem_fd wr =? -1)
     || match mapped_base wr with nullptr => true | _ => false end
  then
    let (ok, acc) := writeMemoryDirect p k target_address value in (Ret ok, acc)
  else if negb (aligned target_address) then (Ret false, [])
  else if negb (in_mapped_range p wr target_address) then (Ret false, [])
  else
    match deref p wr target_address with
    | Some phys => (Ret true, [Store phys value])
    | None => (Fault, [])
    end.

(** [MemoryWriter::readMemory]; [device] is the word the hardware presents at
    a physical address. *)
Definition readMemory (p : platform) (wr : MemoryWriter) (device : Z -> Z)
    (target_address : Z) : outcome (option Z) * list access :=
  if negb (aligned target_address) then (Ret None, [])
  else if negb (in_mapped_range p wr target_address) then (Ret None, [])
  else
    match deref p wr target_address with
    | Some phys => (Ret (Some (device phys)), [Load phys])
    | None => (Fault, [])
    end.

(** A kernel that grants every request, and the writer of [SpiwriteCommand]
    after its constructor ran [wr.initialize(BASE_ADDR, 0xC0000)] on it. *)
Definition kernel_ok : kernel := {| open_dev_mem := 3; mmap_succeeds := true |}.

Definition wr_ok : MemoryWriter :=
  snd (initialize lp64_le kernel_ok fresh 0x43C00000 0xC0000).

End MemWriter.

(** ** Command engine ([SpiwriteCommand.cpp]) *)

Module Engine.

(** [struct Result]. *)
Record Result := {
  message : string;
  responses : list Z
}.

(** A call the engine makes on its [MemoryWriter wr]. *)
Inductive call :=
| WriteCall (addr value : Z)     (* wr.writeMemory( addr, value ) *)
| ReadCall (addr : Z).           (* wr.readMemory( addr, out ) *)

(** What [wr.readMemory] answers after the calls made so far: [None] when it
    returns [false], the word read otherwise. *)
Definition memory := list call -> Z -> option Z.

(** The state the engine keeps between commands: the globals [byte_queues]
    and [count], and the calls made on [wr] so far, oldest first.  The
    [printf] transcript, its counter [count__] and the sleeps are left out. *)
Record engine := {
  byte_queues : gmap Z (list byte);
  count : Z;
  calls : list call
}.

(** [byte_queues[bus_id]]: an absent key reads as the empty queue. *)
Definition queue (st : engine) (bus : Z) : list byte :=
  default [] (byte_queues st !! bus).

Definition set_queue (bus : Z) (q : list byte) (st : engine) : engine :=
  {| byte_queues := <[bus := q]> (byte_queues st);
     count := count st;
     calls := calls st |}.

Definition issue (cs : list call) (st : engine) : engine :=
  {| byte_queues := byte_queues st;
     count := count st;
     calls := calls st ++ cs |}.

(** How a command ends in the model. *)
Inductive run_result (A : Type) :=
| Returns (a : A)
| Undefined       (* tokens[0] of an empty vector *)
| Spinning.       (* a wait loop still turning when the fuel is spent *)
Arguments Returns {A} a.
Arguments Undefined {A}.
Arguments Spinning {A}.

(** *** [parse_binary_commands] *)

Definition register_addrs : list Z := [0x27; 0x3F; 0x47; 0x5F].

(** The locals [bus_id], [ucIcAddr] ([uint8_t]) and [reg_idx]. *)
Record cursor := {
  bus_id : Z;
  ucIcAddr : Z;
  reg_idx : Z
}.

Definition cursor0 : cursor := {| bus_id := 0; ucIcAddr := 0; reg_idx := 0 |}.

(** [0x43c40000 + (bus_id * 0x10000)]. *)
Definition base_address_of (bus_id : Z) : Z := 0x43c40000 + bus_id * 0x10000.

(** [data <<= 8; data |= q.front()], four times from [data = 0]. *)
Definition pack4 (b0 b1 b2 b3 : byte) : Z :=
  fold_left (fun data b => Z.lor (to_uint32 (Z.shiftl data 8)) (byte_val b))
            [b0; b1; b2; b3] 0.

(** [while (q.size() >= 4)]: the words written to [addr] and what stays in
    the queue. *)
Fixpoint drain (addr : Z) (q : list byte) : list call * list byte :=
  match q with
  | b0 :: b1 :: b2 :: b3 :: q' =>
      let (ws, rest) := drain addr q' in
      (WriteCall addr (pack4 b0 b1 b2 b3) :: ws, rest)
  | _ => ([], q)
  end.

(** The five bytes pushed for one value. *)
Definition command_bytes (c : cursor) (hi lo : byte) : list byte :=
  let ucRegisterAddr := nth (Z.to_nat (reg_idx c)) register_addrs 0 in
  let value := to_uint16 (Z.lor (Z.shiftl (byte_val hi) 8) (byte_val lo)) in
  [ byte_of 0x28;
    byte_of (ucIcAddr c);
    byte_of ucRegisterAddr;
    byte_of (Z.land (Z.shiftr value 8) 0xFF);
    byte_of (Z.land value 0xFF) ].

(** First half of the loop body: push the command on the queue of the
    current bus and write every full word to the FIFO data register. *)
Definition push_and_flush (hi lo : byte) (c : cursor) (st : engine) : engine :=
  let base_address := base_address_of (bus_id c) in
  let q := queue st (bus_id c) ++ command_bytes c hi lo in
  let (ws, rest) := drain (base_address + 0x0010) q in
  issue ws (set_queue (bus_id c) rest st).

(** The bus-close sequence on the bus at [base_address]. *)
Definition bus_close (base_address : Z) : list call :=
  [ WriteCall (base_address + 0x0014) 0x280;
    ReadCall base_address;
    WriteCall base_address 0xffffffff;
    ReadCall (base_address + 0xC) ].

(** The bus-open write on the bus at [base_address]. *)
Definition bus_open (base_address : Z) : list call :=
  [ WriteCall (base_address + 0x2C) 0x2 ].

(** Second half of the loop body: the next register, chip and bus, the
    calls made on the way, and whether the loop is left by [break]. *)
Definition next_cursor (c : cursor) : cursor * list call * bool :=
  let reg_idx' := reg_idx c + 1 in
  if reg_idx' >=? 4 then
    let ucIcAddr' := to_uint8 (ucIcAddr c + 1) in
    if ucIcAddr' >? 0x1F then
      let close_calls := bus_close (base_address_of (bus_id c)) in
      let bus_id' := to_uint8 (bus_id c + 1) in
      let c' := {| bus_id := bus_id'; ucIcAddr := 0; reg_idx := 0 |} in
      if bus_id' >? 0x07 then (c', close_calls, true)
      else (c', close_calls ++ bus_open (base_address_of bus_id'), false)
    else ({| bus_id := bus_id c; ucIcAddr := ucIcAddr'; reg_idx := 0 |}, [], false)
  else ({| bus_id := bus_id c; ucIcAddr := ucIcAddr c; reg_idx := reg_idx' |}, [], false).

(** One turn of the loop. *)
Definition turn (hi lo : byte) (c : cursor) (st : engine) : cursor * engine * bool :=
  let st1 := push_and_flush hi lo c st in
  let '(c', cs, stop) := next_cursor c in
  (c', issue cs st1, stop).

(** [while (offset + 1 <= binary_data.size())] over [rest], the bytes from
    [offset] on.  When a single byte is left, [binary_data[offset + 1]] reads
    the byte behind the buffer, [past_end]. *)
Fixpoint values_loop (past_end : byte) (rest : list byte) (c : cursor)
    (st : engine) : cursor * engine :=
  match rest with
  | [] => (c, st)
  | [hi] => let '(c', st', _) := turn hi past_end c st in (c', st')
  | hi :: lo :: rest' =>
      let '(c', st', stop) := turn hi lo c st in
      if stop then (c', st') else values_loop past_end rest' c' st'
  end.

(** [SpiwriteCommand::parse_binary_commands]: [offset] starts at 3. *)
Definition parse_binary_commands (past_end : byte) (binary_data : list byte)
    (st : engine) : Result * engine :=
  let '(_, st') := values_loop past_end (drop 3 binary_data) cursor0 st in
  ({| message := "001"; responses := [] |}, st').

(** The turns the loop takes, each with the cursor and the engine at the top
    of the loop body and the two bytes read for [value]. *)
Fixpoint turns (past_end : byte) (rest : list byte) (c : cursor) (st : engine)
    : list (cursor * engine * byte * byte) :=
  match rest with
  | [] => []
  | [hi] => [(c, st, hi, past_end)]
  | hi :: lo :: rest' =>
      (c, st, hi, lo)
      :: (let '(c', st', stop) := turn hi lo c st in
          if stop then [] else turns past_end rest' c' st')
  end.

(** Whether the turn taken at cursor [c] issues the bus-close sequence. *)
Definition closing (c : cursor) : bool :=
  (reg_idx c + 1 >=? 4) && (to_uint8 (ucIcAddr c + 1) >? 0x1F).

(** The cursor moves without looking at the data: [n] turns from [c], with
    the calls of [next_cursor] on the way. *)
Fixpoint walk (n : nat) (c : cursor) : list call * cursor * bool :=
  match n with
  | O => ([], c, false)
  | S n' =>
      let '(c', cs, stop) := next_cursor c in
      if stop then (cs, c', true)
      else let '(cs', c'', stop') := walk n' c' in (cs ++ cs', c'', stop')
  end.

Definition addr_of (c : call) : Z :=
  match c with
  | WriteCall addr _ => addr
  | ReadCall addr => addr
  end.

(** A write to a FIFO data register, offset [0x10] of a bus block. *)
Definition is_fifo_data (c : call) : bool :=
  match c with
  | WriteCall addr _ => addr mod 0x10000 =? 0x10
  | ReadCall _ => false
  end.

(** The calls other than FIFO data writes. *)
Definition control (cs : list call) : list call :=
  List.filter (fun c => negb (is_fifo_data c)) cs.

(** The number of turns the loop takes over [rest] when no [break] cuts it
    short. *)
Fixpoint turn_count (rest : list byte) : nat :=
  match rest with
  | [] => O
  | [_] => 1%nat
  | _ :: _ :: rest' => S (turn_count rest')
  end.

(** The cursor at turn [k] of a run: four registers a chip, 32 chips a
    bus. *)
Definition cursor_at (k : Z) : cursor :=
  {| bus_id := k / 128; ucIcAddr := (k / 4) mod 32; reg_idx := k mod 4 |}.

Definition cursor_eqb (c1 c2 : cursor) : bool :=
  (bus_id c1 =? bus_id c2) && (ucIcAddr c1 =? ucIcAddr c2)
  && (reg_idx c1 =? reg_idx c2).

(** The control calls of a full pass over the eight buses: each bus is
    closed, and each bus but the last is followed by the opening of the
    next. *)
Definition eight_buses : list call :=
  concat (map (fun b => bus_close (base_address_of b)
                        ++ (if b <? 7 then bus_open (base_address_of (b + 1)) else []))
              [0; 1; 2; 3; 4; 5; 6; 7]).

(** Whether a call addresses one of the buses 0 to 7. *)
Definition on_bus_0_to_7 (c : call) : Prop :=
  base_address_of 0 <= addr_of c < base_address_of 8.

(** Four bytes as one big-endian word, and a byte run as such words. *)
Definition word_be (b0 b1 b2 b3 : byte) : Z :=
  byte_val b0 * 2 ^ 24 + byte_val b1 * 2 ^ 16 + byte_val b2 * 2 ^ 8 + byte_val b3.

Fixpoint words_be (bs : list byte) : list Z :=
  match bs with
  | b0 :: b1 :: b2 :: b3 :: bs' => word_be b0 b1 b2 b3 :: words_be bs'
  | _ => []
  end.

Definition engine0 : engine :=
  {| byte_queues := ∅; count := 0; calls := [] |}.

(** *** [parse_text_commands] *)

(** The wait loop of [done] on the send register. *)
Fixpoint send_wait (fuel : nat) (mem : memory) (st : engine) : run_result engine :=
  match fuel with
  | O => Spinning
  | S fuel' =>
      let fifo_send_check_address := 0x43c00014 in
      let st' := issue [ReadCall fifo_send_check_address] st in
      match mem (calls st) fifo_send_check_address with
      | None => Returns st'
      | Some fifo_send_check_value =>
          if fifo_send_check_value =? 0x0 then Returns st'
          else send_wait fuel' mem st'
      end
  end.

(** [SpiwriteCommand::parse_text_commands].  The words the eight status
    reads of [done] return are only printed, and so are those of the two
    reads of the close sequence: a read that fails, after which the source
    prints a variable never set, is not told apart here from one that
    succeeds. *)
Definition parse_text_commands (fuel : nat) (mem : memory)
    (tokens : list string) (st : engine) : run_result (Result * engine) :=
  match tokens with
  | [] => Undefined
  | cmd :: _ =>
      if String.eqb cmd "start" then
        let st1 := {| byte_queues := byte_queues st; count := 0; calls := calls st |} in
        Returns ({| message := "stat init completed !!!"; responses := [] |},
                 issue [WriteCall 0x43c4002c 0x2] st1)
      else if String.eqb cmd "done" then
        let st1 := issue [ WriteCall 0x43c00018 0x5;
                           WriteCall 0x43c0001c 0x1;
                           WriteCall 0x43c00014 0xff ] st in
        match send_wait fuel mem st1 with
        | Returns st2 =>
            Returns ({| message := "done complete"; responses := [] |},
                     issue [ ReadCall 0x43c4000c; ReadCall 0x43c5000c;
                             ReadCall 0x43c6000c; ReadCall 0x43c7000c;
                             ReadCall 0x43c8000c; ReadCall 0x43c9000c;
                             ReadCall 0x43ca000c; ReadCall 0x43cb000c ] st2)
        | Undefined => Undefined
        | Spinning => Spinning
        end
      else Returns ({| message := "what?"; responses := [] |}, st)
  end.

(** *** Decompression helper *)

(** [std::to_string] of an [int]. *)
Definition to_string (z : Z) : string := NilZero.string_of_int (Z.to_int z).

(** Return codes of <zlib.h>. *)
Definition Z_OK : Z := 0.
Definition Z_STREAM_END : Z := 1.
Definition Z_STREAM_ERROR : Z := -2.
Definition Z_DATA_ERROR : Z := -3.
Definition Z_MEM_ERROR : Z := -4.

(** The part of zlib the helper calls: [inflateInit2] (its return code), a
    stream set on the input, [inflate] on a chunk of 32768 bytes (return
    code, bytes written, stream afterwards) and the field [avail_in]. *)
Record zlib := {
  z_stream : Type;
  inflateInit2 : Z;
  stream_on : list byte -> z_stream;
  inflate : z_stream -> Z * list byte * z_stream;
  avail_in : z_stream -> Z
}.

(** [validate_zlib_header]. *)
Definition validate_zlib_header (data : list byte) : bool :=
  if Z.of_nat (length data) <? 2 then false
  else
    let cmf := byte_val (nth 0 data x00) in
    let flg := byte_val (nth 1 data x00) in
    let cm := Z.land cmf 0x0F in
    if negb (cm =? 8) then false
    else
      let header_checksum := to_uint16 (Z.shiftl cmf 8 + flg) in
      if header_checksum mod 31 =? 0 then true else false.

(** The [do ... while] of [decompress_zlib_verbose]; [inl] is the message of
    the [std::runtime_error] thrown. *)
Fixpoint inflate_chunks (z : zlib) (fuel : nat) (chunk_count : Z)
    (strm : z_stream z) (decompressed : list byte)
    : run_result (string + list byte) :=
  match fuel with
  | O => Spinning
  | S fuel' =>
      let '(ret, written, strm') := inflate z strm in
      let chunk_count := chunk_count + 1 in
      if (ret =? Z_STREAM_ERROR) || (ret =? Z_DATA_ERROR) || (ret =? Z_MEM_ERROR) then
        Returns (inl ("Decompression failed at chunk " +:+ to_string chunk_count +:+ ": "
                      +:+ (if ret =? Z_STREAM_ERROR then "stream error"
                           else if ret =? Z_DATA_ERROR then "data error (corrupt data)"
                           else "memory error")))
      else
        let decompressed := decompressed ++ written in
        if negb (ret =? Z_STREAM_END) && (avail_in z strm' >? 0) then
          inflate_chunks z fuel' chunk_count strm' decompressed
        else if ret =? Z_STREAM_END then Returns (inr decompressed)
        else Returns (inl ("Decompression incomplete: " +:+ to_string ret))
  end.

(** [decompress_zlib_verbose]. *)
Definition decompress_zlib_verbose (z : zlib) (fuel : nat)
    (compressed_data : list byte) : run_result (string + list byte) :=
  if negb (validate_zlib_header compressed_data) then
    Returns (inl "Invalid zlib header")
  else if negb (inflateInit2 z =? Z_OK) then
    Returns (inl ("zlib initialization failed: " +:+ to_string (inflateInit2 z)))
  else inflate_chunks z fuel 0 (stream_on z compressed_data) [].

(** *** [Execute] *)

Definition is_delimiter (ch : ascii) : bool :=
  Ascii.eqb ch " " || Ascii.eqb ch "&".

(** The tokenizer of [Execute]; [token] holds the characters of
    [raw_command] from [start] to [pos]. *)
Fixpoint tokenize_from (raw_command : string) (token : string) : list string :=
  match raw_command with
  | EmptyString => if String.eqb token "" then [] else [token]
  | String ch rest =>
      if is_delimiter ch then
        if String.eqb token "" then tokenize_from rest ""
        else token :: tokenize_from rest ""
      else tokenize_from rest (token +:+ String ch "")
  end.

Definition tokenize (raw_command : string) : list string :=
  tokenize_from raw_command "".

(** [static_cast<uint8_t>(raw_command[i])]; the terminator, and what lies
    behind it, read as 0.  [Execute] reads index 8 also of the command of
    seven characters, one place behind the terminator, where [operator[]]
    promises nothing. *)
Definition char_at (raw_command : string) (i : nat) : Z :=
  match String.get i raw_command with
  | Some ch => byte_val (byte_of_ascii ch)
  | None => 0
  end.

Definition is_binary (raw_command : string) : bool :=
  String.eqb (String.substring 0 7 raw_command) "BINARY:".

Definition say (msg : string) (st : engine) : run_result (Result * engine) :=
  Returns ({| message := msg; responses := [] |}, st).

(** [SpiwriteCommand::Execute]. *)
Definition Execute (z : zlib) (mem : memory) (past_end : byte) (fuel : nat)
    (raw_command : string) (st : engine) : run_result (Result * engine) :=
  if is_binary raw_command then
    let first_byte := char_at raw_command 7 in
    let second_byte := char_at raw_command 8 in
    let compressed := (first_byte =? 0x78) && (Z.land second_byte 0x20 =? 0) in
    let binary_data := drop 7 (list_byte_of_string raw_command) in
    if Z.of_nat (length binary_data) =? 0 then say "No binary data found" st
    else if compressed then
      if Z.of_nat (length binary_data) <? 2 then say "Invalid zlib data: too short" st
      else
        let cmf := byte_val (nth 0 binary_data x00) in
        let flg := byte_val (nth 1 binary_data x00) in
        if negb (Z.land cmf 0x0F =? 8) then say "Invalid zlib compression method" st
        else if negb ((Z.shiftl cmf 8 + flg) mod 31 =? 0) then
          say "Invalid zlib header checksum" st
        else
          match decompress_zlib_verbose z fuel binary_data with
          | Returns (inr decompressed_data) =>
              Returns (parse_binary_commands past_end decompressed_data st)
          | Returns (inl what) => say ("Decompression error: " +:+ what) st
          | Undefined => Undefined
          | Spinning => Spinning
          end
    else Returns (parse_binary_commands past_end binary_data st)
  else parse_text_commands fuel mem (tokenize raw_command) st.

(** *** The reply of [SpitermRunner::Impl::OnMessage] *)

Section Reply.
(** [string_format( "%04x[%d]\r\n", rb.Value(), rb.Length() )] for the
    [Controller::SpiReadback] of a response word; [Instruction.h] is not
    part of the sources at hand. *)
Variable readback_line : Z -> string.

Definition CRLF : string := String "013" (String "010" "").

(** The lines one executed command adds to [rep]. *)
Definition reply_lines (r : Result) : string :=
  fold_left (fun rep v => rep +:+ readback_line v) (responses r) ""
  +:+ (if String.eqb (message r) "" then "" else message r +:+ CRLF).
End Reply.

(** *** Example inputs *)

(** Three leading bytes and five values. *)
Definition sample_values : list byte :=
  [x01; x00; x02;  x12; x34;  x56; x78;  x9a; xbc;  xde; xf0;  x11; x22].

(** Three leading bytes and 4 x 32 x 8 values; the values alone; three
    leading bytes and one value; three leading bytes and the 4 x 32 values of
    one bus. *)
Definition full_pass : list byte := repeat x00 (3 + 2 * (4 * 32 * 8)).
Definition one_value : list byte := [x01; x00; x01; x12; x34].
Definition one_bus : list byte := [x01; x00; x80] ++ repeat x00 (2 * (4 * 32)).

(** A zlib that reports a data error on the first chunk, and a device whose
    registers all read 0. *)
Definition zlib_refusing : zlib :=
  {| z_stream := unit;
     inflateInit2 := Z_OK;
     stream_on := fun _ => tt;
     inflate := fun _ => (Z_DATA_ERROR, [], tt);
     avail_in := fun _ => 0 |}.

Definition memory_idle : memory := fun _ _ => Some 0.

End Engine.

(** ** Phase calculator ([ConsoleRunner.cpp]) *)

Module Beam.

(** Arithmetic on [float] (24 bits of mantissa) and [double] (53 bits). *)
Definition fmul : spec_float -> spec_float -> spec_float := SFmul 24 128.
Definition fdiv : spec_float -> spec_float -> spec_float := SFdiv 24 128.
Definition fadd : spec_float -> spec_float -> spec_float := SFadd 24 128.
Definition dadd : spec_float -> spec_float -> spec_float := SFadd 53 1024.

(** Conversion of a value to [float], as on assignment to a [float]
    variable, and to [double], as on promotion. *)
Definition to_float (x : spec_float) : spec_float :=
  match x with
  | S754_finite s m e => binary_round 24 128 s m e
  | _ => x
  end.

Definition to_double (x : spec_float) : spec_float :=
  match x with
  | S754_finite s m e => binary_round 53 1024 s m e
  | _ => x
  end.

(** An integer converted to [float] and to [double]. *)
Definition float_of_Z (z : Z) : spec_float := binary_normalize 24 128 z 0 false.
Definition double_of_Z (z : Z) : spec_float := binary_normalize 53 1024 z 0 false.

(** The [float] literal that reads [n / d] in decimal. *)
Definition float_literal (n d : positive) : spec_float :=
  SFdiv 24 128 (S754_finite false n 0) (S754_finite false d 0).

Definition isnan (x : spec_float) : bool :=
  match x with
  | S754_nan => true
  | _ => false
  end.

(** [std::fmod] on [double]: the exact remainder, with the sign of [x]. *)
Definition fmod (x y : spec_float) : spec_float :=
  match x, y with
  | S754_nan, _ | _, S754_nan => S754_nan
  | S754_infinity _, _ => S754_nan
  | _, S754_zero _ => S754_nan
  | S754_zero _, _ => x
  | S754_finite _ _ _, S754_infinity _ => x
  | S754_finite sx mx ex, S754_finite _ my ey =>
      let e := Z.min ex ey in
      match (Zpos mx * 2 ^ (ex - e)) mod (Zpos my * 2 ^ (ey - e)) with
      | Z0 => S754_zero sx
      | Zpos r => binary_round 53 1024 sx r e
      | Zneg _ => S754_nan
      end
  end.

(** [std::cos] and [std::sin] on [float], from the C library. *)
Record libm := {
  cosf : spec_float -> spec_float;
  sinf : spec_float -> spec_float
}.

(** The globals [az_value], [el_value] and [freq_Hz]. *)
Record pointing := {
  az_value : spec_float;
  el_value : spec_float;
  freq_Hz : Z
}.

(** [3.14159265359f]. *)
Definition INTELLIAN_PI : spec_float := float_literal 314159265359 100000000000.

Definition to_radian (deg : spec_float) : spec_float :=
  fdiv (fmul deg INTELLIAN_PI) (float_of_Z 180).

Definition to_degree (rad : spec_float) : spec_float :=
  fdiv (fmul rad (float_of_Z 180)) INTELLIAN_PI.

(** [normalize_degrees]: the comparisons with [0.0] and [360.0], [fmod] and
    the sum with [360.0] are in [double]; [norm] is a [float]. *)
Definition normalize_degrees (degrees : spec_float) : spec_float :=
  let d := to_double degrees in
  if SFleb (double_of_Z 0) d && SFltb d (double_of_Z 360) then degrees
  else
    let norm := to_float (fmod d (double_of_Z 360)) in
    if SFltb norm (float_of_Z 0)
    then to_float (dadd (to_double norm) (double_of_Z 360))
    else norm.

(** [phase]. *)
Definition phase (m : libm) (g : pointing) (xi yi : spec_float) : spec_float :=
  if isnan (az_value g) || isnan (el_value g) || (freq_Hz g =? 0) then float_of_Z 0
  else
    let impl_phi := SFopp (az_value g) in
    let phi_rad := to_radian impl_phi in
    let c_theta := cosf m (to_radian (el_value g)) in
    let c_phi := cosf m phi_rad in
    let s_phi := sinf m phi_rad in
    let SPEED_OF_LIGHT := float_of_Z 300000000 in
    let lambda := fdiv SPEED_OF_LIGHT (float_of_Z (freq_Hz g)) in
    let k0 := fdiv (fdiv (fmul (float_of_Z (-2)) INTELLIAN_PI) lambda)
                   (float_of_Z 1000) in
    let p := to_degree (fmul k0 (fadd (fmul (fmul xi c_theta) c_phi)
                                      (fmul (fmul yi c_theta) s_phi))) in
    normalize_degrees p.

(** Whether a [float] lies in the interval from 0 to 360, 360 left out. *)
Definition in_0_360 (x : spec_float) : bool :=
  SFleb (float_of_Z 0) x && SFltb x (float_of_Z 360).

Definition is_zero (x : spec_float) : bool :=
  match x with
  | S754_zero _ => true
  | _ => false
  end.

(** A C library known at zero only, where the C standard fixes the
    results: [cos(+-0) = 1], [sin(+-0) = +-0]. *)
Definition libm_at_zero : libm :=
  {| cosf := fun x => if is_zero x then float_of_Z 1 else S754_nan;
     sinf := fun x => if is_zero x then x else S754_nan |}.

(** The globals as they are initialised: azimuth 0, elevation 0, 1 GHz. *)
Definition startup : pointing :=
  {| az_value := float_of_Z 0; el_value := float_of_Z 0; freq_Hz := 1000000000 |}.

(** Transmit frequency, azimuth 270 degrees, elevation 0. *)
Definition azimuth_270 : pointing :=
  {| az_value := float_of_Z 270; el_value := float_of_Z 0; freq_Hz := 29500000000 |}.

(** The position [2^-20], of 24 bits of mantissa. *)
Definition tiny_x : spec_float := S754_finite false 8388608 (-43).

End Beam.

(** ** The sending side of the protocol ([SpiwriteProtocol.h], [SpiwriteFrameHandler.h]) *)

Module Wire.
Import Protocol.

(** A header whose four fields are [uint32_t] values. *)
Definition uint32_fields (h : Header) : Prop :=
  0 <= start h < 2 ^ 32 /\ 0 <= sequence h < 2 ^ 32
  /\ 0 <= message_type h < 2 ^ 32 /\ 0 <= message_length h < 2 ^ 32.

(** What a sender puts on the wire for the frame [f]: the header through
    [Header::ToNetwork], as [Ack] and [OnMessage] build their frames, and
    [Frame::DeepCopy] of the result, as [Send] does. *)
Definition on_wire (e : endianness) (f : Frame) : list byte :=
  DeepCopy e {| head := ToNetwork e (head f); message := message f |}.

(** A frame as a sender builds it: fields of 32 bits, and the length field
    the size of the payload. *)
Definition well_formed (f : Frame) : Prop :=
  uint32_fields (head f)
  /\ message_length (head f) = Z.of_nat (length (message f)).

(** How a call of [OnReceive] on [len] bytes, scanning from offset [from],
    may end when nothing goes wrong: at the end of the packet, or on an
    exception of [DecodeFrame] that tells the truth about the bytes left. *)
Definition clean_end (len : Z) (from : Z) (fin : receive_end) : Prop :=
  match fin with
  | Finished n => n = len
  | Raised FrameNotReady n => from <= n < len /\ len - n < sizeof_Header
  | Raised (FrameShort received needed) n =>
      from <= n < len /\ received = len - n /\ received < needed
  | Overrun _ => False
  | Unfinished _ => False
  end.

(** An example: the LINES frame with sequence 7 that carries ["ok"] and its
    terminator. *)
Definition lines_frame : Frame :=
  {| head := {| start := MSG_STRAT_CODE; sequence := 7;
                message_type := MSG_LINES; message_length := 3 |};
     message := [x6f; x6b; x00] |}.

End Wire.

(** ** [MessageLines] and the sequence counter ([SpiwriteProtocol.h], [SpiwriteFrameHandler.h]) *)

Module Lines.
Import Protocol.

(** [strnlen( str, maxlen )] on a C string; [str] are its characters in
    front of the terminator that ends it. *)
Fixpoint strnlen (str : list byte) (maxlen : nat) : nat :=
  match maxlen, str with
  | S maxlen', b :: str' => if Byte.eqb b x00 then O else S (strnlen str' maxlen')
  | _, _ => O
  end.

(** [MessageLines( const char *str_lines )]: the field [lines], or [None]
    for the [std::logic_error] "too long string !!!". *)
Definition MessageLines_of_c_str (str_lines : list byte) : option (list byte) :=
  let len := strnlen str_lines 1400 in
  if (1400 <=? len)%nat then None
  else Some (take len str_lines ++ [x00]).

(** [MessageLines::GetStringLines]: the view of [lines.size() - 1] bytes
    from [&lines[0]]; on an empty vector the first does not exist and the
    second wraps. *)
Definition GetStringLines (lines : list byte) : option (list byte) :=
  match lines with
  | [] => None
  | _ => Some (take (length lines - 1) lines)
  end.

(** [FrameHandler::GetSequenceAndIncrement] on the member [sequence_]: the
    value returned and the member afterwards. *)
Definition GetSequenceAndIncrement (sequence_ : Z) : Z * Z :=
  (sequence_, to_uint32 (sequence_ + 1)).

End Lines.

(** ** [SpitermRunner::Impl::OnMessage] ([SpitermRunner.cpp]) *)

Module Spiterm.
Import Protocol Lines.

(** The members of [SpitermRunner::Impl] that a message changes: the state
    behind [spi_command_] and the [sequence_] of the frame handler. *)
Record Impl := {
  spi_command_ : Engine.engine;
  sequence_ : Z
}.

(** How a call of [OnMessage] ends. *)
Inductive handled :=
| Handled (sent : list event) (h : Impl)
| Thrown (h : Impl)         (* "too long string !!!" leaves OnMessage *)
| UndefinedBehaviour
| Waiting.                  (* a wait loop of the engine still turning *)

Section OnMessage.
Variable z : Engine.zlib.
Variable mem : Engine.memory.
Variable past_end : byte.
Variable fuel : nat.
(** [Parser::LineParser::SplitLines]; [LineParser.h] is not among the
    sources. *)
Variable SplitLines : string -> list string.
Variable readback_line : Z -> string.
Variable e : endianness.

Definition prompt : string := "sch_VAIC> ".

(** The body of both branches: execute each line and append its reply
    lines to [rep]. *)
Fixpoint execute_lines (lines : list string) (rep : string) (st : Engine.engine)
    : Engine.run_result (string * Engine.engine) :=
  match lines with
  | [] => Engine.Returns (rep, st)
  | line :: lines' =>
      match Engine.Execute z mem past_end fuel line st with
      | Engine.Returns (r, st') =>
          execute_lines lines' (rep +:+ Engine.reply_lines readback_line r) st'
      | Engine.Undefined => Engine.Undefined
      | Engine.Spinning => Engine.Spinning
      end
  end.

(** The frame [OnMessage] sends for the reply [rmsg_lines]. *)
Definition reply_frame (seq : Z) (rmsg_lines : list byte) : Frame :=
  {| head := {| start := MSG_STRAT_CODE;
                sequence := seq;
                message_type := MSG_LINES;
                message_length := to_uint32 (Z.of_nat (length rmsg_lines)) |};
     message := rmsg_lines |}.

(** [SpitermRunner::Impl::OnMessage]. *)
Definition OnMessage (h : Impl) (head : Header) (lines : list byte) : handled :=
  match GetStringLines lines with
  | None => UndefinedBehaviour
  | Some text =>
      let full_message := string_of_list_byte text in
      let executed :=
        if (7 <=? String.length full_message)%nat && Engine.is_binary full_message
        then execute_lines [full_message] "" (spi_command_ h)
        else execute_lines (SplitLines full_message) "" (spi_command_ h) in
      match executed with
      | Engine.Returns (rep, st') =>
          let rep := (rep +:+ prompt)%string in
          match MessageLines_of_c_str (list_byte_of_string rep) with
          | None => Thrown {| spi_command_ := st'; sequence_ := sequence_ h |}
          | Some rmsg_lines =>
              let (seq, sequence_') := GetSequenceAndIncrement (sequence_ h) in
              Handled (Send e {| head := ToNetwork e (Protocol.head (reply_frame seq rmsg_lines));
                                 message := rmsg_lines |})
                      {| spi_command_ := st'; sequence_ := sequence_' |}
          end
      | Engine.Undefined => UndefinedBehaviour
      | Engine.Spinning => Waiting
      end
  end.
End OnMessage.

(** Example values: a splitter that takes the text for one line, a
    readback formatter, a handler about to send sequence 41 and after it,
    and the reply to the unknown command ["ok"]. *)
Definition whole_line (s : string) : list string := [s].
Definition no_readback (_ : Z) : string := "".
Definition impl_41 : Impl := {| spi_command_ := Engine.engine0; sequence_ := 41 |}.
Definition impl_42 : Impl := {| spi_command_ := Engine.engine0; sequence_ := 42 |}.
Definition what_reply : Frame :=
  {| head := {| start := MSG_STRAT_CODE; sequence := 41;
                message_type := MSG_LINES; message_length := 18 |};
     message := list_byte_of_string ("what?" +:+ Engine.CRLF +:+ prompt) ++ [x00] |}.

End Spiterm.

(** ** [readMemoryValue] and [busyWaitUsingValue] ([SpiwriteCommand.cpp]) *)

Module DirectMemory.
Import MemWriter.

(** [readMemoryValue]: the word at the target, [0xFFFFFFFF] when the page
    cannot be opened or mapped or the word crosses the end of the page. *)
Definition readMemoryValue (p : platform) (k : kernel) (device : Z -> Z)
    (target_address : Z) : Z * list access :=
  let page_base := page_base_of p target_address in
  let page_offset := to_size_t p (target_address - page_base) in
  if open_dev_mem k =? -1 then (0xFFFFFFFF, [])
  else if negb (mmap_succeeds k) then (0xFFFFFFFF, [])
  else if to_size_t p (page_offset + 4) >? page_size p then (0xFFFFFFFF, [])
  else (device (page_base + page_offset), [Load (page_base + page_offset)]).

(** [busyWaitUsingValue]: [device turn] is the word the hardware presents
    during the turn of that number; the accesses performed when the loop
    is left, [None] when it is still turning after [fuel] turns. *)
Fixpoint busyWaitUsingValue (fuel : nat) (p : platform) (k : kernel)
    (device : nat -> Z -> Z) (turn : nat) (BUSY_CHECK : Z) : option (list access) :=
  match fuel with
  | O => None
  | S fuel' =>
      let (memValue, acc) := readMemoryValue p k (device turn) BUSY_CHECK in
      if memValue =? 0xFFFFFFFF then Some acc
      else if negb (memValue =? 0) then
        match busyWaitUsingValue fuel' p k device (S turn) BUSY_CHECK with
        | Some acc' => Some (acc ++ acc')
        | None => None
        end
      else Some acc
  end.

(** A host whose pages are a power of two of at least four bytes, inside
    the address space. *)
Definition pages_ok (p : platform) : Prop :=
  exists n, 2 <= n < size_bits p /\ page_size p = 2 ^ n.

(** Example values: a kernel that refuses [/dev/mem], a device whose
    registers all read 0, and a status register that reads busy twice and
    then all ones. *)
Definition kernel_closed : kernel := {| open_dev_mem := -1; mmap_succeeds := true |}.
Definition device_zero (_ : Z) : Z := 0.
Definition busy_then_ones (turn : nat) (_ : Z) : Z :=
  if (turn <? 2)%nat then 1 else 0xFFFFFFFF.

End DirectMemory.

(** ** The bytes that reach the FIFOs *)

Module Fifo.
Import Engine.

(** The bytes that a list of calls puts into the FIFO of bus [b]: the four
    bytes, highest first, of each word written to its data register. *)
Definition fifo_bytes (b : Z) (cs : list call) : list byte :=
  flat_map (fun c =>
              match c with
              | WriteCall addr value =>
                  if addr =? base_address_of b + 0x0010
                  then Protocol.store32 BigEndian value else []
              | ReadCall _ => []
              end) cs.

(** The command bytes that the turns of a run push on the queue of bus
    [b]. *)
Definition pushed (b : Z) (ts : list (cursor * engine * byte * byte)) : list byte :=
  flat_map (fun '(c, _, hi, lo) =>
              if bus_id c =? b then command_bytes c hi lo else []) ts.

End Fifo.

(** ** The engine on its memory writer ([SpiwriteCommand.cpp], the constructor) *)

Module Hardware.
Import MemWriter Engine.

Definition BASE_ADDR : Z := 0x43C00000.

(** The member [wr] of a [SpiwriteCommand] when its constructor has run
    [wr.initialize(BASE_ADDR, 0xC0000)]. *)
Definition constructed (p : platform) (k : kernel) : MemoryWriter :=
  snd (initialize p k fresh BASE_ADDR 0xC0000).

(** A call of the engine carried out by the writer [wr]: the result of
    [writeMemory] or [readMemory] and the accesses to physical memory. *)
Definition perform (p : platform) (k : kernel) (wr : MemoryWriter)
    (device : Z -> Z) (c : call) : outcome bool * list access :=
  match c with
  | WriteCall addr value => writeMemory p k wr addr value
  | ReadCall addr =>
      match readMemory p wr device addr with
      | (Ret (Some _), acc) => (Ret true, acc)
      | (Ret None, acc) => (Ret false, acc)
      | (Fault, acc) => (Fault, acc)
      end
  end.

(** The access a call asks for. *)
Definition access_of (c : call) : access :=
  match c with
  | WriteCall addr value => Store addr value
  | ReadCall addr => Load addr
  end.

(** A register of the block the constructor maps: a multiple of four from
    [0x43C00000] up to, not including, [0x43CC0000]. *)
Definition in_block (c : call) : Prop :=
  addr_of c mod 4 = 0 /\ BASE_ADDR <= addr_of c /\ addr_of c + 4 <= BASE_ADDR + 0xC0000.

Ltac in_block_const :=
  unfold in_block, BASE_ADDR; cbn [addr_of]; split; [reflexivity | lia].

(** A writer whose window is mapped as its fields say. *)
Definition consistent (p : platform) (wr : MemoryWriter) : Prop :=
  mem_fd wr <> -1
  /\ mapped_base wr = mapping (mapped_address wr) (mapped_size wr)
  /\ 0 <= mapped_address wr
  /\ mapped_address wr + mapped_size wr < 2 ^ size_bits p.

(** What [Execute] returns in the examples, made total. *)
Definition returned (x : run_result (Result * engine)) : Result * engine :=
  match x with
  | Returns y => y
  | _ => ({| message := ""; responses := [] |}, engine0)
  end.

End Hardware.

(** ** The calls of [done] *)

Module Done.
Import Engine.
(** The first [n] polls of the wait loop of [done], begun in state [st],
    all read a word other than 0. *)
Definition polls_busy (mem : memory) (st : engine) (n : nat) : Prop :=
  forall i, (i < n)%nat ->
    exists v, mem (calls st ++ repeat (ReadCall 0x43c00014) i) 0x43c00014 = Some v
              /\ v <> 0.

(** The calls of [done] before and behind its wait loop. *)
Definition done_trigger : list call :=
  [ WriteCall 0x43c00018 0x5; WriteCall 0x43c0001c 0x1; WriteCall 0x43c00014 0xff ].

Definition done_report : list call :=
  [ ReadCall 0x43c4000c; ReadCall 0x43c5000c; ReadCall 0x43c6000c;
    ReadCall 0x43c7000c; ReadCall 0x43c8000c; ReadCall 0x43c9000c;
    ReadCall 0x43ca000c; ReadCall 0x43cb000c ].

(** A device whose eight status registers can be read at any time, so that
    the words [done] prints are the words read. *)
Definition status_reads_succeed (mem : memory) : Prop :=
  forall cs c, In c done_report -> mem cs (addr_of c) <> None.
End Done.

(** ** Delimiters and zlib headers *)

Module Tokens.
Import Engine.
(** Strings without a delimiter, and strings of delimiters only. *)
Fixpoint no_delimiter (s : string) : bool :=
  match s with
  | EmptyString => true
  | String ch rest => negb (is_delimiter ch) && no_delimiter rest
  end.

Fixpoint only_delimiters (s : string) : bool :=
  match s with
  | EmptyString => true
  | String ch rest => is_delimiter ch && only_delimiters rest
  end.

(** The values of [FLG] with which [0x78] begins a zlib stream without a
    preset dictionary. *)
Definition zlib_flags : list Z := [0x01; 0x5E; 0x9C; 0xDA].

(** Example commands: binary data that begin with the zlib header
    [78 9C], and two bytes of plain binary data. *)
Definition zlib_command : string := "BINARY:" +:+ string_of_list_byte [x78; x9c; x00].
Definition short_command : string := "BINARY:" +:+ string_of_list_byte [x01; x02].

End Tokens.

(** ** The steering pass of [ConsoleRunner::Impl::Run] ([ConsoleRunner.cpp]) *)

Module Console.
Import Beam.

(** [struct Entry] of [ConsoleRunner::Impl::Run]; the offsets and phases
    are [double]. *)
Record Entry := {
  spi_id : Z;
  chip_id : Z;
  channel_id : Z;
  x_offset : spec_float;
  y_offset : spec_float;
  poles : Z;
  calculated_phase : spec_float;
  final_phase : spec_float
}.

Definition ROWS : Z := 32.
Definition COLS : Z := 32.

Definition channel_pattern_even (is_tx : Z) : list Z :=
  if is_tx =? 1 then [0x27; 0x3F; 0x47; 0x5F] else [0x22; 0x3A; 0x42; 0x5A].

Definition channel_pattern_odd (is_tx : Z) : list Z :=
  if is_tx =? 1 then [0x5F; 0x47; 0x3F; 0x27] else [0x5A; 0x42; 0x3A; 0x22].

(** The entry pushed for [row] and [col]; the two phases are
    value-initialised.  The statement [unique_keys.insert(key)] in front of
    the push names a [key] that [Run] does not declare, and the set is not
    read afterwards: it is left out. *)
Definition grid_entry (is_tx : Z) (dx dy : spec_float) (row col : Z) : Entry :=
  let spi_id := 7 - col / 4 in
  let chip_id := if col mod 4 <? 2 then 16 + row / 2 else row / 2 in
  let channel_id :=
    if col mod 2 =? 0
    then nth (Z.to_nat (row mod 4)) (channel_pattern_even is_tx) 0
    else nth (Z.to_nat (row mod 4)) (channel_pattern_odd is_tx) 0 in
  let poles :=
    if row mod 2 =? 0
    then (if col mod 2 =? 0 then 120 else 30)
    else (if col mod 2 =? 0 then 210 else 300) in
  let x_offset_ := to_double (fmul (float_of_Z col) dx) in
  let y_offset_ := to_double (fmul (float_of_Z row) dy) in
  {| spi_id := spi_id; chip_id := chip_id; channel_id := channel_id;
     x_offset := x_offset_; y_offset := y_offset_; poles := poles;
     calculated_phase := double_of_Z 0; final_phase := double_of_Z 0 |}.

(** [0 .. n-1] as the loop counters run. *)
Definition upto (n : Z) : list Z := map Z.of_nat (seq 0 (Z.to_nat n)).

(** The entries of the two nested loops, row by row. *)
Definition grid (is_tx : Z) (dx dy : spec_float) : list Entry :=
  flat_map (fun row => map (grid_entry is_tx dx dy row) (upto COLS)) (upto ROWS).


(** The key the entries are sorted by, and its order:
    [std::tie(spi_id, chip_id, channel_id) < ...]. *)
Definition key (e : Entry) : Z * Z * Z := (spi_id e, chip_id e, channel_id e).








(** The register word for a phase code, transmit or receive. *)
Definition value_of (is_tx : Z) (int_phase : Z) : Z :=
  to_uint16
    (if is_tx =? 1
     then Z.lor (Z.lor (Z.lor (Z.shiftl (Z.land 0 0x01) 0)
                              (Z.shiftl (Z.land 127 0x7f) 1))
                       (Z.shiftl (Z.land 3 0x03) 8))
                (Z.shiftl (Z.land int_phase 0x3f) 10)
     else Z.lor (Z.lor (Z.lor (Z.shiftl (Z.land 0 0x01) 0)
                              (Z.shiftl (Z.land 1 0x1) 3))
                       (Z.shiftl (Z.land 63 0x3f) 4))
                (Z.shiftl (Z.land int_phase 0x3f) 10)).

(** The locals of [Run] the write loop works on: the byte queues, the
    captured [base_address], [prev_bus_id], and the calls made on [writer],
    oldest first. *)
Record run_state := {
  byte_queues : gmap Z (list byte);
  base_address : Z;
  prev_bus_id : Z;
  calls : list Engine.call
}.

Definition queue (s : run_state) (bus : Z) : list byte :=
  default [] (byte_queues s !! bus).

Definition issue (cs : list Engine.call) (s : run_state) : run_state :=
  {| byte_queues := byte_queues s; base_address := base_address s;
     prev_bus_id := prev_bus_id s; calls := calls s ++ cs |}.











End Console.

(** ** Call logs without their data words *)

Module Shapes.
Import Engine Console.

(** A call with the word of a FIFO data write left out. *)
Definition shape (c : call) : call :=
  match c with
  | WriteCall addr _ => if is_fifo_data c then WriteCall addr 0 else c
  | ReadCall _ => c
  end.



(** Checks to be run on the grid and on the 64 phase codes. *)
Definition key_in_range (is_tx : Z) (k : Z * Z * Z) : bool :=
  let '(s, c, ch) := k in
  (0 <=? s) && (s <=? 7) && (0 <=? c) && (c <=? 31)
  && existsb (Z.eqb ch) (channel_pattern_even is_tx).

Definition keys_ok (is_tx : Z) : bool :=
  let keys := map key (grid is_tx (S754_zero false) (S754_zero false)) in
  bool_decide (NoDup keys)
  && ((length keys =? 1024)%nat && forallb (key_in_range is_tx) keys).

Definition value_ok (is_tx : Z) (x : Z) : bool :=
  let v := value_of is_tx x in
  (Z.land x 0x3f =? x) && (0 <=? v) && (v <? 2 ^ 16)
  && (Z.shiftr v 10 =? x)
  && (Z.land v 0x3FF =? (if is_tx =? 1 then 0x3FE else 0x3F8))
  && (Z.land (Z.shiftr v 8) 0xFF * 2 ^ 8 + Z.land v 0xFF =? v).


End Shapes.

(** ** The calls of a full pass, without their data words *)

Module PassShapes.
Import Engine Shapes.

(** The shapes of the calls of [n] turns of the loop of
    [parse_binary_commands], from the cursor and the lengths of the
    queues. *)
Fixpoint loop_shapes (n : nat) (c : cursor) (lens : Z -> nat) : list call :=
  match n with
  | O => []
  | S n' =>
      let len := (lens (bus_id c) + 5)%nat in
      let '(c', cs, stop) := next_cursor c in
      repeat (WriteCall (base_address_of (bus_id c) + 0x0010) 0) (len / 4)
      ++ cs
      ++ (if stop then []
          else loop_shapes n' c'
                 (fun b => if b =? bus_id c then (len mod 4)%nat else lens b))
  end.

(** The calls of a full pass that finds the queues empty: for each bus its
    160 words, its close sequence and, but for bus 7, the opening of the
    next bus. *)
Definition full_pass_shapes : list call :=
  flat_map (fun b =>
              repeat (WriteCall (base_address_of b + 0x10) 0) 160
              ++ bus_close (base_address_of b)
              ++ (if b <? 7 then bus_open (base_address_of (b + 1)) else []))
           [0; 1; 2; 3; 4; 5; 6; 7].
End PassShapes.

(** * Properties *)

(** ** Bytes and words *)

Lemma byte_val_range (b : byte) : 0 <= byte_val b < 256.
Proof.
  unfold byte_val. pose proof (Byte.to_N_bounded b) as H. lia.
Qed.

Lemma byte_of_val (b : byte) : byte_of (byte_val b) = b.
Proof.
  unfold byte_of. pose proof (byte_val_range b) as H.
  rewrite Z.mod_small by lia. unfold byte_val.
  rewrite N2Z.id, Byte.of_to_N. reflexivity.
Qed.

Lemma byte_val_of (z : Z) : byte_val (byte_of z) = z mod 256.
Proof.
  unfold byte_of, byte_val.
  assert (Hr : 0 <= z mod 256 < 256) by (apply Z.mod_pos_bound; lia).
  destruct (Byte.of_N (Z.to_N (z mod 256))) as [b|] eqn:E.
  - apply Byte.to_of_N in E. rewrite E. lia.
  - apply Byte.of_N_None_iff in E. lia.
Qed.

Lemma to_int_small (z : Z) : - 2 ^ 31 <= z <= INT_MAX -> to_int z = z.
Proof.
  unfold to_int, INT_MAX. intros H.
  rewrite Z.mod_small by lia. lia.
Qed.

Lemma byte_of_eq (z : Z) (b : byte) : z mod 256 = byte_val b -> byte_of z = b.
Proof.
  intros H. rewrite <- (byte_of_val b), <- H.
  unfold byte_of. rewrite Z.mod_mod by lia. reflexivity.
Qed.

Lemma byte_of_congr (z z' : Z) : z mod 256 = z' mod 256 -> byte_of z = byte_of z'.
Proof. intros H. unfold byte_of. rewrite H. reflexivity. Qed.

Section WordLemmas.
Import Protocol.

Lemma load32_range e b0 b1 b2 b3 : 0 <= load32 e b0 b1 b2 b3 < 2 ^ 32.
Proof.
  pose proof (byte_val_range b0). pose proof (byte_val_range b1).
  pose proof (byte_val_range b2). pose proof (byte_val_range b3).
  destruct e; unfold load32; lia.
Qed.

(** The base-256 digits of a word given by its digits. *)
Lemma digits_of_sum a0 a1 a2 a3 :
  0 <= a0 < 256 -> 0 <= a1 < 256 -> 0 <= a2 < 256 -> 0 <= a3 < 256 ->
  let w := a0 + a1 * 2 ^ 8 + a2 * 2 ^ 16 + a3 * 2 ^ 24 in
  w mod 2 ^ 8 = a0 /\ w / 2 ^ 8 mod 2 ^ 8 = a1
  /\ w / 2 ^ 16 mod 2 ^ 8 = a2 /\ w / 2 ^ 24 mod 2 ^ 8 = a3.
Proof.
  intros H0 H1 H2 H3 w. subst w.
  change (2 ^ 8) with 256. change (2 ^ 16) with 65536.
  change (2 ^ 24) with 16777216.
  assert (E1 : (a0 + a1 * 256 + a2 * 65536 + a3 * 16777216) / 256
               = a1 + a2 * 256 + a3 * 65536)
    by (symmetry; apply Z.div_unique with (r := a0); lia).
  assert (E2 : (a0 + a1 * 256 + a2 * 65536 + a3 * 16777216) / 65536
               = a2 + a3 * 256)
    by (symmetry; apply Z.div_unique with (r := a0 + a1 * 256); lia).
  assert (E3 : (a0 + a1 * 256 + a2 * 65536 + a3 * 16777216) / 16777216 = a3)
    by (symmetry; apply Z.div_unique with (r := a0 + a1 * 256 + a2 * 65536); lia).
  rewrite E1, E2, E3. repeat split; symmetry.
  - apply Z.mod_unique with (q := a1 + a2 * 256 + a3 * 65536); lia.
  - apply Z.mod_unique with (q := a2 + a3 * 256); lia.
  - apply Z.mod_unique with (q := a3); lia.
  - apply Z.mod_unique with (q := 0); lia.
Qed.

(** A word is the sum of its base-256 digits. *)
Lemma sum_of_digits w :
  0 <= w < 2 ^ 32 ->
  w = w mod 2 ^ 8 + (w / 2 ^ 8 mod 2 ^ 8) * 2 ^ 8
      + (w / 2 ^ 16 mod 2 ^ 8) * 2 ^ 16 + (w / 2 ^ 24 mod 2 ^ 8) * 2 ^ 24.
Proof.
  intros H.
  change (2 ^ 16) with (2 ^ 8 * 2 ^ 8). change (2 ^ 24) with (2 ^ 8 * 2 ^ 8 * 2 ^ 8).
  rewrite <- !Z.div_div by lia.
  change (2 ^ 8) with 256 in *.
  pose proof (Z.div_mod w 256 ltac:(lia)) as D0.
  pose proof (Z.div_mod (w / 256) 256 ltac:(lia)) as D1.
  pose proof (Z.div_mod (w / 256 / 256) 256 ltac:(lia)) as D2.
  assert (0 <= w / 256 / 256 / 256 < 256) as D3.
  { split.
    - repeat apply Z.div_pos; lia.
    - repeat (apply Z.div_lt_upper_bound; [lia|]). lia. }
  rewrite (Z.mod_small (w / 256 / 256 / 256)) by lia.
  lia.
Qed.

Lemma bswap32_range w : 0 <= bswap32 w < 2 ^ 32.
Proof.
  unfold bswap32.
  pose proof (Z.mod_pos_bound w (2 ^ 8) ltac:(lia)).
  pose proof (Z.mod_pos_bound (w / 2 ^ 8) (2 ^ 8) ltac:(lia)).
  pose proof (Z.mod_pos_bound (w / 2 ^ 16) (2 ^ 8) ltac:(lia)).
  pose proof (Z.mod_pos_bound (w / 2 ^ 24) (2 ^ 8) ltac:(lia)).
  lia.
Qed.

Lemma bswap32_sum a0 a1 a2 a3 :
  0 <= a0 < 256 -> 0 <= a1 < 256 -> 0 <= a2 < 256 -> 0 <= a3 < 256 ->
  bswap32 (a0 + a1 * 2 ^ 8 + a2 * 2 ^ 16 + a3 * 2 ^ 24)
  = a3 + a2 * 2 ^ 8 + a1 * 2 ^ 16 + a0 * 2 ^ 24.
Proof.
  intros H0 H1 H2 H3.
  destruct (digits_of_sum _ _ _ _ H0 H1 H2 H3) as (E0 & E1 & E2 & E3).
  unfold bswap32. rewrite E0, E1, E2, E3. lia.
Qed.

Lemma bswap32_involutive w : 0 <= w < 2 ^ 32 -> bswap32 (bswap32 w) = w.
Proof.
  intros H.
  pose proof (Z.mod_pos_bound w (2 ^ 8) ltac:(lia)) as B0.
  pose proof (Z.mod_pos_bound (w / 2 ^ 8) (2 ^ 8) ltac:(lia)) as B1.
  pose proof (Z.mod_pos_bound (w / 2 ^ 16) (2 ^ 8) ltac:(lia)) as B2.
  pose proof (Z.mod_pos_bound (w / 2 ^ 24) (2 ^ 8) ltac:(lia)) as B3.
  rewrite (sum_of_digits w H) at 1.
  rewrite bswap32_sum by lia. rewrite bswap32_sum by lia.
  symmetry. apply sum_of_digits, H.
Qed.

Lemma store32_load32 e b0 b1 b2 b3 :
  store32 e (load32 e b0 b1 b2 b3) = [b0; b1; b2; b3].
Proof.
  pose proof (byte_val_range b0) as H0. pose proof (byte_val_range b1) as H1.
  pose proof (byte_val_range b2) as H2. pose proof (byte_val_range b3) as H3.
  destruct e; unfold store32, load32.
  - destruct (digits_of_sum _ _ _ _ H0 H1 H2 H3) as (E0 & E1 & E2 & E3).
    repeat f_equal; apply byte_of_eq; assumption.
  - destruct (digits_of_sum _ _ _ _ H3 H2 H1 H0) as (E0 & E1 & E2 & E3).
    repeat f_equal; apply byte_of_eq; assumption.
Qed.

(** The bytes of a word in the other order. *)
Lemma store32_bswap32 w :
  0 <= w < 2 ^ 32 -> store32 LittleEndian (bswap32 w) = store32 BigEndian w.
Proof.
  intros H.
  pose proof (Z.mod_pos_bound w (2 ^ 8) ltac:(lia)) as B0.
  pose proof (Z.mod_pos_bound (w / 2 ^ 8) (2 ^ 8) ltac:(lia)) as B1.
  pose proof (Z.mod_pos_bound (w / 2 ^ 16) (2 ^ 8) ltac:(lia)) as B2.
  pose proof (Z.mod_pos_bound (w / 2 ^ 24) (2 ^ 8) ltac:(lia)) as B3.
  rewrite (sum_of_digits w H) at 1.
  rewrite bswap32_sum by lia.
  destruct (digits_of_sum (w / 2 ^ 24 mod 2 ^ 8) (w / 2 ^ 16 mod 2 ^ 8)
              (w / 2 ^ 8 mod 2 ^ 8) (w mod 2 ^ 8)) as (E0 & E1 & E2 & E3); try lia.
  unfold store32.
  f_equal; [|f_equal; [|f_equal; [|f_equal]]];
    apply byte_of_congr; change 256 with (2 ^ 8);
    rewrite ?Z.div_1_r; assumption.
Qed.

End WordLemmas.

Section ProtocolLemmas.
Import Protocol.

Lemma ntohl_range e w : 0 <= ntohl e w < 2 ^ 32.
Proof.
  destruct e; unfold ntohl, to_uint32.
  - apply bswap32_range.
  - apply Z.mod_pos_bound. lia.
Qed.

Lemma htonl_ntohl e w : 0 <= w < 2 ^ 32 -> htonl e (ntohl e w) = w.
Proof.
  intros H. destruct e; unfold htonl, ntohl, to_uint32.
  - apply bswap32_involutive, H.
  - rewrite Z.mod_mod by lia. apply Z.mod_small, H.
Qed.

Lemma FromNetwork_length_range e raw :
  0 <= message_length (FromNetwork e raw) < 2 ^ 32.
Proof. apply ntohl_range. Qed.

(** A buffer of at least 16 bytes, split into its first 16 bytes and the
    rest. *)
Lemma header_split (raw : list byte) :
  sizeof_Header <= Z.of_nat (length raw) ->
  exists b0 b1 b2 b3 b4 b5 b6 b7 b8 b9 b10 b11 b12 b13 b14 b15 rest,
    raw = b0 :: b1 :: b2 :: b3 :: b4 :: b5 :: b6 :: b7 :: b8 :: b9 :: b10
             :: b11 :: b12 :: b13 :: b14 :: b15 :: rest.
Proof.
  unfold sizeof_Header. intros H.
  do 16 (destruct raw as [|? raw]; [simpl in H; lia|]).
  repeat eexists.
Qed.

(** Converting the decoded header back to network order and copying it
    gives the 16 bytes it was read from. *)
Lemma Header_bytes_ToNetwork_FromNetwork e (raw : list byte) :
  sizeof_Header <= Z.of_nat (length raw) ->
  Header_bytes e (ToNetwork e (FromNetwork e raw)) = take 16 raw.
Proof.
  intros H.
  destruct (header_split raw H) as
    (b0 & b1 & b2 & b3 & b4 & b5 & b6 & b7 & b8 & b9 & b10 & b11 & b12
     & b13 & b14 & b15 & rest & ->).
  unfold Header_bytes, ToNetwork, FromNetwork, reinterpret_Header, at_.
  cbn [start sequence message_type message_length nth take].
  rewrite !htonl_ntohl by apply load32_range.
  rewrite !store32_load32. reflexivity.
Qed.

(** On a big-endian host the decoded header already lies in memory as it
    came from the wire. *)
Lemma Header_bytes_FromNetwork_BigEndian (raw : list byte) :
  sizeof_Header <= Z.of_nat (length raw) ->
  Header_bytes BigEndian (FromNetwork BigEndian raw) = take 16 raw.
Proof.
  intros H.
  destruct (header_split raw H) as
    (b0 & b1 & b2 & b3 & b4 & b5 & b6 & b7 & b8 & b9 & b10 & b11 & b12
     & b13 & b14 & b15 & rest & ->).
  unfold Header_bytes, FromNetwork, reinterpret_Header, at_, ntohl, to_uint32.
  cbn [start sequence message_type message_length nth take].
  rewrite !Z.mod_small by apply load32_range.
  rewrite !store32_load32. reflexivity.
Qed.

(** What [DecodeFrame] returns when it returns a frame. *)
Lemma DecodeFrame_Decoded p frame f :
  DecodeFrame p frame = Decoded f ->
  sizeof_Header <= Z.of_nat (length frame)
  /\ head f = FromNetwork (byte_order p) frame
  /\ message f = take (Z.to_nat (message_length (head f))) (drop 16 frame)
  /\ Z.of_nat (length (message f)) = message_length (head f)
  /\ sizeof_Header + message_length (head f) <= Z.of_nat (length frame).
Proof.
  unfold DecodeFrame.
  pose proof (FromNetwork_length_range (byte_order p) frame) as Hr.
  remember (FromNetwork (byte_order p) frame) as h eqn:Eh.
  destruct (Z.ltb_spec (Z.of_nat (length frame)) sizeof_Header) as [|Hlen];
    [discriminate|].
  destruct (_ >? _); [discriminate|].
  destruct (Z.ltb_spec (Z.of_nat (length (drop (Z.to_nat sizeof_Header) frame)))
              (message_length h)) as [|Hfit];
    [discriminate|].
  intros [= <-]. cbn [head message].
  rewrite length_drop in Hfit. unfold sizeof_Header in *.
  change (Z.to_nat 16) with 16%nat in *.
  repeat split; try lia.
  rewrite length_take, length_drop. lia.
Qed.

End ProtocolLemmas.

(** ** Wire protocol *)

Section ProtocolClaims.
Import Protocol.

(** The sum [sizeof(head) + head.message_length] does not wrap when
    [size_t] is wider than 32 bits. *)
Lemma needed_no_wrap p ml :
  32 < size_bits p -> 0 <= ml < 2 ^ 32 ->
  to_size_t p (sizeof_Header + ml) = sizeof_Header + ml.
Proof.
  intros Hp Hml. unfold to_size_t, sizeof_Header.
  apply Z.mod_small.
  assert (2 ^ 33 <= 2 ^ size_bits p) by (apply Z.pow_le_mono_r; lia).
  lia.
Qed.

Lemma DecodeFrame_short p frame :
  Z.of_nat (length frame) < sizeof_Header -> DecodeFrame p frame = Threw FrameNotReady.
Proof.
  intros H. unfold DecodeFrame.
  destruct (Z.ltb_spec (Z.of_nat (length frame)) sizeof_Header); [reflexivity | lia].
Qed.

(** [OnReceive] on less than a header: nothing is dispatched and
    [processed] stays 0. *)
Lemma OnReceive_short p frame :
  Z.of_nat (length frame) < sizeof_Header ->
  OnReceive p frame
  = ([], match frame with [] => Finished 0 | _ => Raised FrameNotReady 0 end).
Proof.
  intros H. unfold OnReceive. destruct frame as [|b frame]; [reflexivity|].
  cbn [length OnReceive_from].
  destruct (Z.ltb_spec 0 (Z.of_nat (S (length frame)))) as [_|Hn]; [|lia].
  change (drop (Z.to_nat 0) (b :: frame)) with (b :: frame).
  rewrite DecodeFrame_short by exact H. reflexivity.
Qed.

(** Where [size_t] is wider than 32 bits, [DecodeFrame] on a buffer of
    [len] bytes has three cases: fewer than a header gives the not-ready
    error and [OnReceive] stops with nothing consumed; a declared
    [message_length] above the bytes behind the header gives the
    malformed-frame error; otherwise the frame returned carries exactly the
    [message_length] bytes that follow the header. *)
Theorem DecodeFrame_cases (p : platform) (frame : list byte) :
  32 < size_bits p ->
  let len := Z.of_nat (length frame) in
  let declared := message_length (FromNetwork (byte_order p) frame) in
  (len < sizeof_Header ->
     DecodeFrame p frame = Threw FrameNotReady
     /\ fst (OnReceive p frame) = []
     /\ consumed (snd (OnReceive p frame)) = 0)
  /\ (sizeof_Header <= len -> len - sizeof_Header < declared ->
     DecodeFrame p frame = Threw (FrameShort len (sizeof_Header + declared)))
  /\ (sizeof_Header <= len -> declared <= len - sizeof_Header ->
     exists f, DecodeFrame p frame = Decoded f
       /\ head f = FromNetwork (byte_order p) frame
       /\ message f = take (Z.to_nat declared) (drop 16 frame)
       /\ Z.of_nat (length (message f)) = declared).
Proof.
  intros Hp len declared.
  pose proof (FromNetwork_length_range (byte_order p) frame) as Hr.
  fold declared in Hr.
  assert (Hneed : to_size_t p (sizeof_Header + declared) = sizeof_Header + declared)
    by (apply needed_no_wrap; assumption).
  repeat split.
  - apply DecodeFrame_short. assumption.
  - rewrite OnReceive_short by assumption. reflexivity.
  - rewrite OnReceive_short by assumption. destruct frame; reflexivity.
  - intros Hlen Hshort. unfold DecodeFrame. fold len. fold declared.
    destruct (Z.ltb_spec len sizeof_Header); [lia|].
    rewrite Hneed.
    destruct (Z.gtb_spec (sizeof_Header + declared) len); [reflexivity | lia].
  - intros Hlen Hfit. unfold DecodeFrame. fold len. fold declared.
    destruct (Z.ltb_spec len sizeof_Header); [lia|].
    rewrite Hneed.
    destruct (Z.gtb_spec (sizeof_Header + declared) len); [lia|].
    rewrite length_drop.
    destruct (Z.ltb_spec (Z.of_nat (length frame - Z.to_nat sizeof_Header)) declared)
      as [Hbad|_].
    { unfold sizeof_Header in *. unfold len in *. lia. }
    eexists. split; [reflexivity|]. cbn [head message].
    repeat split.
    rewrite length_take, length_drop. unfold sizeof_Header, len in *. lia.
Qed.

(** Where [size_t] has 32 bits the sum [sizeof(head) + message_length]
    wraps, the length check passes and the copy of the payload leaves the
    buffer. *)
Lemma DecodeFrame_wraps_on_32_bits :
  DecodeFrame ilp32_le huge_header = OutOfBounds
  /\ DecodeFrame lp64_le huge_header = Threw (FrameShort 16 (16 + 0xFFFFFFF0)).
Proof. split; vm_compute; reflexivity. Qed.

Lemma DecodeFrame_cases_witness :
  32 < size_bits lp64_le
  /\ DecodeFrame lp64_le short_buffer = Threw FrameNotReady
  /\ DecodeFrame lp64_le huge_header = Threw (FrameShort 16 (16 + 0xFFFFFFF0))
  /\ exists f, DecodeFrame lp64_le lines_header = Decoded f /\ message f = [].
Proof.
  assert (Hp : 32 < size_bits lp64_le) by reflexivity.
  split; [exact Hp|]. split; [|split].
  - apply (DecodeFrame_cases lp64_le short_buffer Hp). reflexivity.
  - apply (DecodeFrame_cases lp64_le huge_header Hp).
    + vm_compute. discriminate.
    + vm_compute. reflexivity.
  - destruct (DecodeFrame_cases lp64_le lines_header Hp) as (_ & _ & Hfit).
    destruct Hfit as (f & Hf & _ & Hm & _).
    + vm_compute. discriminate.
    + vm_compute. discriminate.
    + exists f. split; [exact Hf | exact Hm].
Defined.

(** C6, as the code has it.  On a host whose [size_t] has 32 bits the
    length check of [DecodeFrame] adds [sizeof(head)] and
    [head.message_length] modulo [2^32].  For every buffer of at least a
    header whose length field is [2^32 - 16] or more, the declared length
    exceeds the bytes present behind the header, yet the check passes: no
    error is thrown, and the copy of the payload runs past the end of the
    buffer. *)
Theorem DecodeFrame_length_check_wraps (p : platform) (frame : list byte) :
  size_bits p = 32 ->
  sizeof_Header <= Z.of_nat (length frame) <= INT_MAX ->
  2 ^ 32 - sizeof_Header <= message_length (FromNetwork (byte_order p) frame) ->
  let len := Z.of_nat (length frame) in
  let declared := message_length (FromNetwork (byte_order p) frame) in
  len - sizeof_Header < declared
  /\ to_size_t p (sizeof_Header + declared) <= len
  /\ (forall err, DecodeFrame p frame <> Threw err)
  /\ DecodeFrame p frame = OutOfBounds.
Proof.
  intros H32 Hlen Hdecl len declared.
  pose proof (FromNetwork_length_range (byte_order p) frame) as Hr.
  fold declared in Hr, Hdecl. fold len in Hlen.
  assert (Hwrap : to_size_t p (sizeof_Header + declared)
                  = sizeof_Header + declared - 2 ^ 32).
  { unfold to_size_t. rewrite H32. symmetry.
    apply Z.mod_unique with (q := 1); unfold sizeof_Header in *; lia. }
  assert (Hout : DecodeFrame p frame = OutOfBounds).
  { unfold DecodeFrame. fold len. fold declared.
    destruct (Z.ltb_spec len sizeof_Header); [lia|].
    rewrite Hwrap.
    destruct (Z.gtb_spec (sizeof_Header + declared - 2 ^ 32) len);
      [unfold sizeof_Header in *; lia|].
    rewrite length_drop.
    destruct (Z.ltb_spec (Z.of_nat (length frame - Z.to_nat sizeof_Header)) declared);
      [reflexivity|].
    unfold sizeof_Header, INT_MAX, len in *. lia. }
  split; [unfold sizeof_Header, INT_MAX in *; lia|].
  split; [rewrite Hwrap; unfold sizeof_Header in *; lia|].
  split; [intros err; rewrite Hout; discriminate | exact Hout].
Qed.

Lemma DecodeFrame_length_check_wraps_witness :
  let len := Z.of_nat (length huge_header) in
  let declared := message_length (FromNetwork (byte_order ilp32_le) huge_header) in
  len - sizeof_Header < declared
  /\ to_size_t ilp32_le (sizeof_Header + declared) <= len
  /\ (forall err, DecodeFrame ilp32_le huge_header <> Threw err)
  /\ DecodeFrame ilp32_le huge_header = OutOfBounds.
Proof.
  apply (DecodeFrame_length_check_wraps ilp32_le huge_header).
  - reflexivity.
  - vm_compute. split; discriminate.
  - vm_compute. discriminate.
Defined.
End ProtocolClaims.

Section RoundTrip.
Import Protocol.

(** The bytes of the frame at the front of an accepted buffer. *)
Lemma frame_bytes_split p frame f :
  DecodeFrame p frame = Decoded f ->
  take (Z.to_nat (sizeof_Header + message_length (head f))) frame
  = take 16 frame ++ message f.
Proof.
  intros H. destruct (DecodeFrame_Decoded p frame f H) as (Hlen & Hh & Hm & Hl & Hfit).
  rewrite Hm, take_take_drop. f_equal.
  unfold sizeof_Header. lia.
Qed.

(** C2, as the code has it. A frame [DecodeFrame] returns, serialized by
    [Frame::DeepCopy] after its header is put back in network order by
    [Header::ToNetwork], gives the [sizeof(Header) + message_length] bytes
    of the buffer it was decoded from, and the whole buffer when the
    buffer holds nothing behind the frame.  On a big-endian host
    [DeepCopy] of the decoded frame as it is gives the same bytes. *)
Theorem DecodeFrame_DeepCopy_network (p : platform) (frame : list byte) (f : Frame) :
  DecodeFrame p frame = Decoded f ->
  let e := byte_order p in
  let wire := {| head := ToNetwork e (head f); message := message f |} in
  DeepCopy e wire = take (Z.to_nat (sizeof_Header + message_length (head f))) frame
  /\ (Z.of_nat (length frame) = sizeof_Header + message_length (head f) ->
      DeepCopy e wire = frame)
  /\ (e = BigEndian ->
      DeepCopy e f = take (Z.to_nat (sizeof_Header + message_length (head f))) frame).
Proof.
  intros H e wire.
  destruct (DecodeFrame_Decoded p frame f H) as (Hlen & Hh & Hm & Hl & Hfit).
  assert (E : DeepCopy e wire
              = take (Z.to_nat (sizeof_Header + message_length (head f))) frame).
  { rewrite (frame_bytes_split p frame f H). unfold DeepCopy, wire. cbn [head message].
    rewrite Hh. subst e. rewrite Header_bytes_ToNetwork_FromNetwork by exact Hlen.
    reflexivity. }
  split; [exact E|]. split.
  - intros Hall. rewrite E. apply take_ge. lia.
  - intros Hbe. rewrite (frame_bytes_split p frame f H). unfold DeepCopy.
    rewrite Hh. fold e. rewrite Hbe.
    rewrite Header_bytes_FromNetwork_BigEndian by exact Hlen. reflexivity.
Qed.

Lemma DecodeFrame_DeepCopy_network_witness :
  DecodeFrame lp64_le lines_header
  = Decoded {| head := {| start := MSG_STRAT_CODE; sequence := 1;
                          message_type := MSG_LINES; message_length := 0 |};
               message := [] |}
  /\ DeepCopy LittleEndian
       {| head := ToNetwork LittleEndian
                    {| start := MSG_STRAT_CODE; sequence := 1;
                       message_type := MSG_LINES; message_length := 0 |};
          message := [] |}
     = lines_header.
Proof.
  assert (H : DecodeFrame lp64_le lines_header
              = Decoded {| head := {| start := MSG_STRAT_CODE; sequence := 1;
                                      message_type := MSG_LINES; message_length := 0 |};
                           message := [] |}) by (vm_compute; reflexivity).
  split; [exact H|].
  apply (DecodeFrame_DeepCopy_network lp64_le lines_header _ H). reflexivity.
Defined.

(** C2, as stated, fails on a little-endian host: the decoded header is in
    host order, and [DeepCopy] copies it as it lies in memory. *)
Lemma DeepCopy_of_decoded_little_endian :
  exists f, DecodeFrame lp64_le lines_header = Decoded f
            /\ DeepCopy (byte_order lp64_le) f <> lines_header.
Proof.
  eexists. split; [vm_compute; reflexivity|].
  vm_compute. discriminate.
Qed.
End RoundTrip.

Section FrameHandlerClaims.
Import Protocol.

(** [Frame::Length] of a decoded frame, for a buffer an [int] can
    measure. *)
Lemma Length_Decoded p frame f :
  Z.of_nat (length frame) <= INT_MAX ->
  DecodeFrame p frame = Decoded f ->
  Length f = sizeof_Header + message_length (head f)
  /\ sizeof_Header <= Length f <= Z.of_nat (length frame).
Proof.
  intros Hmax H.
  destruct (DecodeFrame_Decoded p frame f H) as (Hlen & Hh & Hm & Hl & Hfit).
  unfold Length. rewrite Hl.
  rewrite to_int_small by (unfold sizeof_Header, INT_MAX in *; lia).
  unfold sizeof_Header in *. lia.
Qed.


Lemma store32_htonl e w :
  0 <= w < 2 ^ 32 -> store32 e (htonl e w) = store32 BigEndian w.
Proof.
  intros H. destruct e; unfold htonl, ntohl.
  - apply store32_bswap32, H.
  - unfold to_uint32. rewrite Z.mod_small by exact H. reflexivity.
Qed.




(** The fuel [OnReceive] gives its loop is enough. *)
Lemma OnReceive_from_finishes p packet fuel processed :
  Z.of_nat (length packet) <= INT_MAX ->
  0 <= processed ->
  Z.of_nat (length packet) - processed <= Z.of_nat fuel ->
  forall n, snd (OnReceive_from fuel p packet processed) <> Unfinished n.
Proof.
  intros Hmax. revert processed.
  induction fuel as [|fuel IH]; intros processed Hp Hfuel n.
  - cbn [OnReceive_from].
    destruct (Z.ltb_spec processed (Z.of_nat (length packet))); [lia|].
    discriminate.
  - cbn [OnReceive_from].
    destruct (Z.ltb_spec processed (Z.of_nat (length packet))) as [Hlt|];
      [|discriminate].
    destruct (DecodeFrame p (drop (Z.to_nat processed) packet)) as [f| |] eqn:Hdec;
      try discriminate.
    destruct (Length_Decoded p (drop (Z.to_nat processed) packet) f) as (_ & Hl);
      [rewrite length_drop; lia | exact Hdec |].
    rewrite length_drop in Hl. unfold sizeof_Header in Hl.
    specialize (IH (processed + Length f) ltac:(lia) ltac:(lia) n).
    destruct (OnReceive_from fuel p packet (processed + Length f)). exact IH.
Qed.

Lemma OnReceive_finishes p packet :
  Z.of_nat (length packet) <= INT_MAX ->
  forall n, snd (OnReceive p packet) <> Unfinished n.
Proof.
  intros Hmax. apply OnReceive_from_finishes; [exact Hmax | lia | lia].
Qed.

End FrameHandlerClaims.

(** ** Memory writer *)

Section MemoryWriterClaims.
Import MemWriter.

(** C3, as the code has it. On a writer that is initialized ([mem_fd]
    is not -1 and [mapped_base] is not null), with a window and a target
    whose ends do not wrap around the address space: a target that is not
    4-byte aligned, or whose four bytes do not lie inside the window, makes
    [writeMemory] return [false] without any access to memory. *)
Theorem writeMemory_rejects (p : platform) (k : kernel) (wr : MemoryWriter)
    (target_address value : Z) :
  mem_fd wr <> -1 ->
  mapped_base wr <> nullptr ->
  0 <= mapped_address wr + mapped_size wr < 2 ^ size_bits p ->
  0 <= target_address ->
  target_address + 4 < 2 ^ size_bits p ->
  (target_address mod 4 <> 0
   \/ ~ (mapped_address wr <= target_address
         /\ target_address + 4 <= mapped_address wr + mapped_size wr)) ->
  writeMemory p k wr target_address value = (Ret false, []).
Proof.
  intros Hfd Hbase Hwin Ht0 Ht4 Hbad. unfold writeMemory.
  destruct (Z.eqb_spec (mem_fd wr) (-1)) as [|_]; [contradiction|].
  destruct (mapped_base wr) eqn:Eb; [contradiction| |]; cbn [orb].
  all: unfold aligned, in_mapped_range, to_size_t.
  all: rewrite (Z.mod_small (target_address + 4)) by lia.
  all: rewrite (Z.mod_small (mapped_address wr + mapped_size wr)) by lia.
  all: destruct (Z.eqb_spec (target_address mod 4) 0) as [Hal|]; [|reflexivity].
  all: cbn [negb].
  all: destruct (Z.ltb_spec target_address (mapped_address wr)); [reflexivity|].
  all: destruct (Z.gtb_spec (target_address + 4) (mapped_address wr + mapped_size wr));
    [reflexivity|].
  all: exfalso; destruct Hbad as [Hbad|Hbad]; [contradiction | apply Hbad; lia].
Qed.

Lemma writeMemory_rejects_witness :
  writeMemory lp64_le kernel_ok wr_ok 0x43c4002d 0x2 = (Ret false, []).
Proof.
  apply writeMemory_rejects.
  - vm_compute. discriminate.
  - vm_compute. discriminate.
  - vm_compute. split; [discriminate | reflexivity].
  - lia.
  - vm_compute. reflexivity.
  - left. vm_compute. discriminate.
Defined.

(** C3, as stated, fails on a writer that was never initialized: the
    window is empty, the address below is outside it and not aligned, and
    [writeMemory] passes it to [writeMemoryDirect], which maps the page
    and writes. *)
Lemma writeMemory_uninitialized_writes :
  0x43c4002d mod 4 <> 0
  /\ ~ (mapped_address fresh <= 0x43c4002d
        /\ 0x43c4002d + 4 <= mapped_address fresh + mapped_size fresh)
  /\ writeMemory lp64_le kernel_ok fresh 0x43c4002d 0x2
     = (Ret true, [Store 0x43c4002d 0x2]).
Proof.
  split; [vm_compute; discriminate|].
  split; [cbn; lia|].
  vm_compute. reflexivity.
Qed.

(** When the four bytes of the target wrap around the address space the
    range check passes and the access leaves the mapping. *)
Lemma writeMemory_wraps :
  writeMemory lp64_le kernel_ok wr_ok (2 ^ 64 - 4) 0x2 = (Fault, []).
Proof. vm_compute. reflexivity. Qed.

(** Inside the window of an initialized writer the word is stored at the
    target. *)
Lemma writeMemory_in_window :
  writeMemory lp64_le kernel_ok wr_ok 0x43c4002c 0x2
  = (Ret true, [Store 0x43c4002c 0x2]).
Proof. vm_compute. reflexivity. Qed.
End MemoryWriterClaims.

(** ** Command engine *)

Section BitLemmas.

Lemma land_shiftl_8 a b : 0 <= b < 2 ^ 8 -> Z.land (Z.shiftl a 8) b = 0.
Proof.
  intros Hb. apply Z.bits_inj'. intros n Hn.
  rewrite Z.land_spec, Z.bits_0.
  destruct (Z.lt_ge_cases n 8) as [Hlow|Hhigh].
  - rewrite Z.shiftl_spec_low by lia. reflexivity.
  - destruct (Z.eq_dec b 0) as [->|Hnz].
    + rewrite Z.bits_0. apply andb_false_r.
    + rewrite (Z.bits_above_log2 b n); [apply andb_false_r | lia |].
      assert (Z.log2 b < 8) by (apply Z.log2_lt_pow2; lia). lia.
Qed.

(** [data << 8 | b] adds the byte below the shifted word. *)
Lemma lor_shiftl_8 a b :
  0 <= b < 2 ^ 8 -> Z.lor (Z.shiftl a 8) b = a * 2 ^ 8 + b.
Proof.
  intros Hb.
  rewrite <- Z.shiftl_mul_pow2 by lia.
  rewrite <- Z.lxor_lor by (apply land_shiftl_8, Hb).
  symmetry. apply Z.add_nocarry_lxor. apply land_shiftl_8, Hb.
Qed.


End BitLemmas.

Section EngineLemmas.
Import Engine.



Lemma pack_step data b :
  0 <= data < 2 ^ 24 -> 0 <= b < 2 ^ 8 ->
  Z.lor (to_uint32 (Z.shiftl data 8)) b = data * 2 ^ 8 + b.
Proof.
  intros Hd Hb. unfold to_uint32.
  rewrite Z.mod_small by (rewrite Z.shiftl_mul_pow2; lia).
  apply lor_shiftl_8, Hb.
Qed.

(** The word the four shifts and ors build is the big-endian one. *)
Lemma pack4_word_be b0 b1 b2 b3 : pack4 b0 b1 b2 b3 = word_be b0 b1 b2 b3.
Proof.
  pose proof (byte_val_range b0). pose proof (byte_val_range b1).
  pose proof (byte_val_range b2). pose proof (byte_val_range b3).
  unfold pack4, word_be. cbn [fold_left].
  rewrite (pack_step 0) by lia.
  rewrite (pack_step (0 * 2 ^ 8 + byte_val b0)) by lia.
  rewrite (pack_step (_ * 2 ^ 8 + byte_val b1)) by lia.
  rewrite (pack_step (_ * 2 ^ 8 + byte_val b2)) by lia.
  lia.
Qed.

Lemma word_be_range b0 b1 b2 b3 : 0 <= word_be b0 b1 b2 b3 < 2 ^ 32.
Proof.
  pose proof (byte_val_range b0). pose proof (byte_val_range b1).
  pose proof (byte_val_range b2). pose proof (byte_val_range b3).
  unfold word_be. lia.
Qed.

(** [drain] writes the full words of the queue, big-endian, and leaves
    the incomplete one. *)
Lemma drain_spec addr q :
  drain addr q
  = (map (WriteCall addr) (words_be q),
     drop (4 * (length q / 4)) q).
Proof.
  induction q as [q IH] using (induction_ltof1 _ (@length byte)).
  unfold ltof in IH.
  destruct q as [|b0 [|b1 [|b2 [|b3 q']]]]; try reflexivity.
  cbn [drain words_be map]. rewrite IH by (cbn [length]; lia).
  rewrite pack4_word_be. f_equal.
  replace (4 * (length (b0 :: b1 :: b2 :: b3 :: q') / 4))%nat
    with (4 + 4 * (length q' / 4))%nat; [reflexivity|].
  cbn [length].
  replace (S (S (S (S (length q'))))) with (length q' + 1 * 4)%nat by lia.
  rewrite Nat.div_add by lia. lia.
Qed.


Lemma drain_calls_fifo addr q c :
  In c (fst (drain addr q)) -> exists w, c = WriteCall addr w.
Proof.
  rewrite drain_spec. cbn [fst]. rewrite in_map_iff. intros (w & <- & _). eauto.
Qed.

End EngineLemmas.

(** Induction over a byte run two bytes at a time, as the loop reads it. *)
Lemma pairs_ind {A : Type} (P : list A -> Prop) :
  P [] -> (forall x, P [x]) -> (forall x y l, P l -> P (x :: y :: l)) ->
  forall l, P l.
Proof.
  intros H0 H1 H2.
  assert (H : forall l, P l /\ forall x, P (x :: l)).
  { induction l as [|y l [IHa IHb]]; split; auto. }
  intros l. apply H.
Qed.

Section QueueLemmas.
Import Engine.

Lemma queue_set_queue_eq b q st : queue (set_queue b q st) b = q.
Proof. unfold queue, set_queue. cbn. rewrite lookup_insert_eq. reflexivity. Qed.

Lemma queue_set_queue_ne b b' q st :
  b <> b' -> queue (set_queue b q st) b' = queue st b'.
Proof.
  intros H. unfold queue, set_queue. cbn. rewrite lookup_insert_ne by exact H.
  reflexivity.
Qed.

Lemma queue_issue cs st b : queue (issue cs st) b = queue st b.
Proof. reflexivity. Qed.

Lemma calls_issue cs st : calls (issue cs st) = calls st ++ cs.
Proof. reflexivity. Qed.

(** What [push_and_flush] does to the calls and to the queues. *)
Lemma push_and_flush_spec hi lo c st :
  let q := queue st (bus_id c) ++ command_bytes c hi lo in
  let st1 := push_and_flush hi lo c st in
  calls st1
  = calls st ++ map (WriteCall (base_address_of (bus_id c) + 0x10)) (words_be q)
  /\ queue st1 (bus_id c) = drop (4 * (length q / 4)) q
  /\ (forall b, b <> bus_id c -> queue st1 b = queue st b)
  /\ count st1 = count st.
Proof.
  intros q st1. subst st1. unfold push_and_flush. fold q.
  rewrite drain_spec.
  rewrite calls_issue, !queue_issue, queue_set_queue_eq.
  repeat split.
  intros b Hb. rewrite queue_issue. apply queue_set_queue_ne. congruence.
Qed.

Lemma push_and_flush_length hi lo c st :
  length (queue (push_and_flush hi lo c st) (bus_id c))
  = ((length (queue st (bus_id c)) + 5) mod 4)%nat.
Proof.
  destruct (push_and_flush_spec hi lo c st) as (_ & -> & _).
  rewrite length_drop, length_app.
  change (length (command_bytes c hi lo)) with 5%nat.
  pose proof (Nat.div_mod_eq (length (queue st (bus_id c)) + 5) 4). lia.
Qed.

Lemma turn_eq hi lo c st :
  turn hi lo c st
  = (fst (fst (next_cursor c)),
     issue (snd (fst (next_cursor c))) (push_and_flush hi lo c st),
     snd (next_cursor c)).
Proof. unfold turn. destruct (next_cursor c) as [[c' cs] stop]. reflexivity. Qed.

End QueueLemmas.

Section WalkLemmas.
Import Engine.

Lemma base_address_offset b off :
  0 <= off < 0x10000 -> (base_address_of b + off) mod 0x10000 = off.
Proof.
  intros H. unfold base_address_of.
  symmetry. apply Z.mod_unique with (q := 0x43c4 + b); lia.
Qed.

Lemma is_fifo_data_offset b off v :
  0 <= off < 0x10000 ->
  is_fifo_data (WriteCall (base_address_of b + off) v) = (off =? 0x10).
Proof. intros H. cbn [is_fifo_data]. rewrite base_address_offset by exact H. reflexivity. Qed.

Lemma is_fifo_data_base b v : is_fifo_data (WriteCall (base_address_of b) v) = false.
Proof.
  rewrite <- (Z.add_0_r (base_address_of b)).
  rewrite is_fifo_data_offset by lia. reflexivity.
Qed.

(** The calls of [next_cursor] are control calls. *)
Lemma control_next_cursor c :
  control (snd (fst (next_cursor c))) = snd (fst (next_cursor c)).
Proof.
  unfold next_cursor.
  destruct (_ >=? _); [|reflexivity].
  destruct (_ >? _); [|reflexivity].
  destruct (_ >? _); unfold control, bus_close, bus_open;
    cbn [fst snd app List.filter];
    rewrite ?is_fifo_data_base, ?is_fifo_data_offset by lia;
    reflexivity.
Qed.



End WalkLemmas.

Section RunLemmas.
Import Engine.
Variable past_end : byte.



(** From a bus between 0 and 7, [next_cursor] calls on buses 0 to 7 only,
    and stays on them unless the loop is left. *)
Lemma next_cursor_on_bus c :
  0 <= bus_id c <= 7 ->
  Forall on_bus_0_to_7 (snd (fst (next_cursor c)))
  /\ (snd (next_cursor c) = false -> 0 <= bus_id (fst (fst (next_cursor c))) <= 7).
Proof.
  intros Hb. unfold next_cursor.
  destruct (_ >=? _); [|cbn; split; [constructor | lia]].
  destruct (_ >? _); [|cbn; split; [constructor | lia]].
  unfold to_uint8. rewrite (Z.mod_small (bus_id c + 1)) by lia.
  destruct (Z.gtb_spec (bus_id c + 1) 7) as [Hlast|Hmore]; cbn [fst snd].
  - split; [|discriminate].
    unfold bus_close. repeat constructor;
      unfold on_bus_0_to_7, base_address_of; cbn [addr_of]; lia.
  - split; [|cbn; lia].
    unfold bus_close, bus_open. cbn [app]. repeat constructor;
      unfold on_bus_0_to_7, base_address_of; cbn [addr_of]; lia.
Qed.


Lemma turn_count_even n : forall rest,
  length rest = (2 * n)%nat -> turn_count rest = n.
Proof.
  induction n as [|n IH]; intros rest H.
  - destruct rest; [reflexivity | discriminate].
  - destruct rest as [|x [|y rest]]; try (cbn in H; lia).
    cbn [turn_count]. f_equal. apply IH. cbn in H. lia.
Qed.

End RunLemmas.

Section FullPass.
Import Engine.

Lemma walk_full_pass :
  walk 1024 cursor0 = (eight_buses, {| bus_id := 8; ucIcAddr := 0; reg_idx := 0 |}, true).
Proof. vm_compute. reflexivity. Qed.

End FullPass.

Section TurnLemmas.
Import Engine.
Variable past_end : byte.

(** The cursor at the [k]-th turn is where [walk] gets in [k] steps, and
    the two bytes are the next two of the run. *)
Lemma turns_nth rest :
  forall c st k ck stk hi lo,
  nth_error (turns past_end rest c st) k = Some (ck, stk, hi, lo) ->
  snd (fst (walk k c)) = ck /\ snd (walk k c) = false
  /\ nth_error rest (2 * k) = Some hi
  /\ nth (2 * k + 1) rest past_end = lo.
Proof.
  induction rest as [|x|x y rest IH] using pairs_ind; intros c st k ck stk hi lo H.
  - destruct k; discriminate.
  - destruct k as [|k]; [|destruct k; discriminate].
    injection H as <- <- <- <-. repeat split.
  - destruct k as [|k].
    + injection H as <- <- <- <-. repeat split.
    + cbn [turns nth_error] in H. rewrite turn_eq in H.
      cbn [walk].
      destruct (next_cursor c) as [[c' cs] stop]. cbn [fst snd] in H.
      destruct stop; [destruct k; discriminate|].
      apply IH in H as (Hc & Hs & Hhi & Hlo).
      destruct (walk k c') as [[cs' c''] stop']. cbn [fst snd] in *.
      replace (2 * S k)%nat with (S (S (2 * k))) by lia.
      replace (S (S (2 * k)) + 1)%nat with (S (S (2 * k + 1))) by lia.
      repeat split; assumption.
Qed.

Lemma walk_stopped n : forall c m,
  snd (walk n c) = true -> snd (walk (n + m) c) = true.
Proof.
  induction n as [|n IH]; intros c m H; [discriminate|].
  cbn [walk Nat.add] in *.
  destruct (next_cursor c) as [[c' cs] stop].
  destruct stop; [reflexivity|].
  specialize (IH c' m).
  destruct (walk n c') as [[cs' c''] stop'].
  destruct (walk (n + m) c') as [[cs2 c2] stop2].
  cbn [snd] in *. auto.
Qed.

Lemma walk_cursor0_all :
  forallb (fun k => cursor_eqb (snd (fst (walk k cursor0))) (cursor_at (Z.of_nat k))
                    && negb (snd (walk k cursor0)))
          (seq 0 1024) = true.
Proof. vm_compute. reflexivity. Qed.

Lemma cursor_eqb_eq c1 c2 : cursor_eqb c1 c2 = true -> c1 = c2.
Proof.
  unfold cursor_eqb. destruct c1, c2. cbn.
  rewrite !andb_true_iff, !Z.eqb_eq. intros [[-> ->] ->]. reflexivity.
Qed.

(** From the start, a turn that is taken has an index below 1024 and its
    cursor is [cursor_at] that index. *)
Lemma walk_cursor0 k :
  snd (walk k cursor0) = false ->
  (k < 1024)%nat /\ snd (fst (walk k cursor0)) = cursor_at (Z.of_nat k).
Proof.
  intros Hgo.
  assert (Hk : (k < 1024)%nat).
  { destruct (Nat.lt_ge_cases k 1024) as [|Hge]; [assumption|].
    replace k with (1024 + (k - 1024))%nat in Hgo by lia.
    rewrite walk_stopped in Hgo; [discriminate|].
    rewrite walk_full_pass. reflexivity. }
  split; [exact Hk|].
  pose proof walk_cursor0_all as Hall.
  rewrite forallb_forall in Hall.
  specialize (Hall k ltac:(apply in_seq; lia)).
  apply andb_true_iff in Hall as [Hc _]. apply cursor_eqb_eq, Hc.
Qed.

(** The cursor of the [k]-th turn of a run from the start. *)
Lemma turns_cursor_at rest st0 k c st hi lo :
  nth_error (turns past_end rest cursor0 st0) k = Some (c, st, hi, lo) ->
  c = cursor_at (Z.of_nat k).
Proof.
  intros H.
  destruct (turns_nth _ _ _ _ _ _ _ _ H) as (Hc & Hgo & _).
  destruct (walk_cursor0 k Hgo) as (_ & Hat). congruence.
Qed.

End TurnLemmas.

Section TurnsAndLoop.
Import Engine.
Variable past_end : byte.

(** [turns] lists what [values_loop] does: the first turn starts from the
    arguments of the loop, each further turn from what the turn before it
    left, and the loop returns what the last turn leaves. *)
Lemma turns_first rest c st c0 st0 hi lo :
  nth_error (turns past_end rest c st) 0 = Some (c0, st0, hi, lo) ->
  c0 = c /\ st0 = st.
Proof.
  destruct rest as [|x [|y rest]]; cbn [turns nth_error]; try discriminate;
    intros [= <- <- _ _]; split; reflexivity.
Qed.

Lemma turns_next rest :
  forall c st k c' st' hi' lo',
  nth_error (turns past_end rest c st) (S k) = Some (c', st', hi', lo') ->
  exists ck stk hi lo,
    nth_error (turns past_end rest c st) k = Some (ck, stk, hi, lo)
    /\ turn hi lo ck stk = (c', st', false).
Proof.
  induction rest as [|x|x y rest IH] using pairs_ind; intros c st k c' st' hi' lo' H.
  - discriminate.
  - destruct k; discriminate.
  - cbn [turns nth_error] in H.
    destruct (turn x y c st) as [[c1 st1] stop] eqn:Hturn.
    destruct stop; [destruct k; discriminate|].
    destruct k as [|k].
    + apply turns_first in H as [-> ->].
      exists c, st, x, y. split; [reflexivity | exact Hturn].
    + destruct (IH _ _ _ _ _ _ _ H) as (ck & stk & hi & lo & Hk & Hstep).
      exists ck, stk, hi, lo. split; [|exact Hstep].
      cbn [turns nth_error]. rewrite Hturn. exact Hk.
Qed.

Lemma values_loop_last rest :
  forall c st,
  values_loop past_end rest c st
  = match last (turns past_end rest c st) with
    | Some (ck, stk, hi, lo) => fst (turn hi lo ck stk)
    | None => (c, st)
    end.
Proof.
  induction rest as [|x|x y rest IH] using pairs_ind; intros c st.
  - reflexivity.
  - cbn [values_loop turns last]. destruct (turn x past_end c st) as [[c' st'] stop].
    reflexivity.
  - cbn [values_loop turns].
    destruct (turn x y c st) as [[c' st'] stop] eqn:Hturn.
    destruct stop.
    + cbn [last]. rewrite Hturn. reflexivity.
    + rewrite IH.
      destruct (turns past_end rest c' st') as [|e l] eqn:Hl.
      * cbn [last]. rewrite Hturn. reflexivity.
      * change (last ((c, st, x, y) :: e :: l)) with (last (e :: l)).
        destruct (last (e :: l)) eqn:Hlast; [reflexivity|].
        apply last_None in Hlast. discriminate.
Qed.
End TurnsAndLoop.

Section ClosingLemmas.
Import Engine.

(** The control calls of a turn. *)
Lemma closing_spec c :
  snd (fst (next_cursor c))
  = if closing c
    then bus_close (base_address_of (bus_id c))
         ++ (if to_uint8 (bus_id c + 1) >? 0x07 then []
             else bus_open (base_address_of (to_uint8 (bus_id c + 1))))
    else [].
Proof.
  unfold next_cursor, closing.
  destruct (_ >=? _); [|reflexivity].
  destruct (_ >? _); [|reflexivity].
  destruct (_ >? _); cbn [fst snd andb]; rewrite ?app_nil_r; reflexivity.
Qed.

End ClosingLemmas.

Section PrefixRuns.
Import Engine.
Variable past_end : byte.

(** The loop on the first [k + 1] values does what it does on the first
    [k] and then takes one more turn, as long as it is not left. *)
Lemma values_loop_take_S k : forall rest c st hi lo,
  nth_error rest (2 * k) = Some hi ->
  nth_error rest (2 * k + 1) = Some lo ->
  snd (walk k c) = false ->
  fst (values_loop past_end (take (2 * k) rest) c st) = snd (fst (walk k c))
  /\ values_loop past_end (take (2 * S k) rest) c st
     = fst (turn hi lo (snd (fst (walk k c)))
              (snd (values_loop past_end (take (2 * k) rest) c st))).
Proof.
  induction k as [|k IH]; intros rest c st hi lo Hhi Hlo Hgo.
  - destruct rest as [|x [|y rest]]; try discriminate.
    cbn in Hhi, Hlo. injection Hhi as <-. injection Hlo as <-.
    split; [reflexivity|].
    change (values_loop past_end [x; y] c st = fst (turn x y c st)).
    cbn [values_loop]. destruct (turn x y c st) as [[c' st'] stop].
    destruct stop; reflexivity.
  - destruct rest as [|x [|y rest]];
      [destruct k; discriminate | destruct k; discriminate |].
    replace (2 * S k)%nat with (S (S (2 * k))) in Hhi, Hlo |- * by lia.
    replace (S (S (2 * k)) + 1)%nat with (S (S (2 * k + 1))) in Hlo by lia.
    replace (2 * S (S k))%nat with (S (S (2 * S k))) by lia.
    cbn [nth_error] in Hhi, Hlo. cbn [take values_loop].
    cbn [walk] in Hgo |- *. rewrite turn_eq.
    destruct (next_cursor c) as [[c' cs] stop]. cbn [fst snd].
    destruct stop; [discriminate|].
    specialize (IH rest c' (issue cs (push_and_flush x y c st)) hi lo Hhi Hlo).
    destruct (walk k c') as [[cs' c''] stop']. cbn [fst snd] in *.
    apply IH, Hgo.
Qed.

Lemma walk_cursor0_below k :
  (k < 1024)%nat ->
  snd (walk k cursor0) = false
  /\ snd (fst (walk k cursor0)) = cursor_at (Z.of_nat k).
Proof.
  intros Hk. pose proof walk_cursor0_all as Hall.
  rewrite forallb_forall in Hall.
  specialize (Hall k ltac:(apply in_seq; lia)).
  apply andb_true_iff in Hall as [Hc Hgo].
  split; [destruct (snd (walk k cursor0)); [discriminate | reflexivity]|].
  apply cursor_eqb_eq, Hc.
Qed.

(** [parse_binary_commands] on the first [n] bytes behind the three
    leading ones. *)
Lemma parse_binary_commands_take n binary_data st0 :
  snd (parse_binary_commands past_end (take (3 + n) binary_data) st0)
  = snd (values_loop past_end (take n (drop 3 binary_data)) cursor0 st0).
Proof.
  unfold parse_binary_commands. rewrite take_drop_commute.
  destruct (values_loop _ _ _ _). reflexivity.
Qed.

(** One more value: the state after [k + 1] values is the state after [k]
    values, then the command pushed and drained, then the control calls. *)
Lemma parse_binary_commands_step binary_data st0 k hi lo :
  (k < 1024)%nat ->
  nth_error binary_data (3 + 2 * k) = Some hi ->
  nth_error binary_data (3 + 2 * k + 1) = Some lo ->
  let c := cursor_at (Z.of_nat k) in
  let st := snd (parse_binary_commands past_end (take (3 + 2 * k) binary_data) st0) in
  snd (parse_binary_commands past_end (take (3 + 2 * (k + 1)) binary_data) st0)
  = issue (snd (fst (next_cursor c))) (push_and_flush hi lo c st).
Proof.
  intros Hk Hhi Hlo c st. subst c st.
  rewrite !parse_binary_commands_take.
  destruct (walk_cursor0_below k Hk) as (Hgo & Hat).
  replace (k + 1)%nat with (S k) by lia.
  assert (Hhi' : nth_error (drop 3 binary_data) (2 * k) = Some hi)
    by (rewrite nth_error_skipn; exact Hhi).
  assert (Hlo' : nth_error (drop 3 binary_data) (2 * k + 1) = Some lo)
    by (rewrite nth_error_skipn, <- Hlo; f_equal; lia).
  destruct (values_loop_take_S k (drop 3 binary_data) cursor0 st0 hi lo
              Hhi' Hlo' Hgo) as (_ & ->).
  rewrite Hat, turn_eq. reflexivity.
Qed.


End PrefixRuns.

Section PrefixInduction.
Import Engine.
Variable past_end : byte.

Lemma parse_binary_commands_prefix_ind binary_data st0
    (P : nat -> engine -> Prop) :
  P 0%nat st0 ->
  (forall k st hi lo,
     (k < 1024)%nat ->
     nth_error binary_data (3 + 2 * k) = Some hi ->
     nth_error binary_data (3 + 2 * k + 1) = Some lo ->
     P k st ->
     P (S k) (issue (snd (fst (next_cursor (cursor_at (Z.of_nat k)))))
                (push_and_flush hi lo (cursor_at (Z.of_nat k)) st))) ->
  forall k, (k <= 1024)%nat -> (3 + 2 * k <= length binary_data)%nat ->
  P k (snd (parse_binary_commands past_end (take (3 + 2 * k) binary_data) st0)).
Proof.
  intros H0 Hstep. induction k as [|k IH]; intros Hk Hlen.
  - rewrite parse_binary_commands_take. exact H0.
  - destruct (nth_error binary_data (3 + 2 * k)) as [hi|] eqn:Hhi;
      [|apply nth_error_None in Hhi; lia].
    destruct (nth_error binary_data (3 + 2 * k + 1)) as [lo|] eqn:Hlo;
      [|apply nth_error_None in Hlo; lia].
    replace (S k) with (k + 1)%nat at 2 by lia.
    rewrite (parse_binary_commands_step past_end binary_data st0 k hi lo)
      by (first [lia | assumption]).
    apply (Hstep k _ hi lo); [lia | exact Hhi | exact Hlo | apply IH; lia].
Qed.

(** The queue of a bus after any number of values: what it was when the
    run began, or at most three bytes. *)
Lemma queue_untouched_or_short binary_data st0 k :
  (k <= 1024)%nat -> (3 + 2 * k <= length binary_data)%nat ->
  forall b,
    queue (snd (parse_binary_commands past_end (take (3 + 2 * k) binary_data) st0)) b
    = queue st0 b
    \/ (length (queue (snd (parse_binary_commands past_end
                              (take (3 + 2 * k) binary_data) st0)) b) <= 3)%nat.
Proof.
  revert k.
  apply (parse_binary_commands_prefix_ind binary_data st0
           (fun _ st => forall b, queue st b = queue st0 b
                                  \/ (length (queue st b) <= 3)%nat)).
  - intros b. left. reflexivity.
  - intros k st hi lo _ _ _ IH b. rewrite queue_issue.
    destruct (Z.eq_dec b (bus_id (cursor_at (Z.of_nat k)))) as [->|Hb].
    + right. rewrite push_and_flush_length.
      pose proof (Nat.mod_upper_bound
                    (length (queue st (bus_id (cursor_at (Z.of_nat k)))) + 5) 4).
      lia.
    + destruct (push_and_flush_spec hi lo (cursor_at (Z.of_nat k)) st)
        as (_ & _ & Hother & _).
      rewrite Hother by exact Hb. apply IH.
Qed.

(** Before the value [k]: the buses not yet reached hold what they held
    when the run began, and the queue of the current bus has grown by [k]
    bytes modulo 4. *)
Lemma queue_length_mod_4 binary_data st0 k :
  (k <= 1024)%nat -> (3 + 2 * k <= length binary_data)%nat ->
  let st := snd (parse_binary_commands past_end (take (3 + 2 * k) binary_data) st0) in
  (forall b, Z.of_nat k <= 128 * b -> queue st b = queue st0 b)
  /\ Z.of_nat (length (queue st (Z.of_nat k / 128))) mod 4
     = (Z.of_nat (length (queue st0 (Z.of_nat k / 128))) + Z.of_nat k) mod 4.
Proof.
  revert k.
  apply (parse_binary_commands_prefix_ind binary_data st0
           (fun k st =>
              (forall b, Z.of_nat k <= 128 * b -> queue st b = queue st0 b)
              /\ Z.of_nat (length (queue st (Z.of_nat k / 128))) mod 4
                 = (Z.of_nat (length (queue st0 (Z.of_nat k / 128)))
                    + Z.of_nat k) mod 4)).
  - split; [reflexivity|]. change (Z.of_nat 0 / 128) with 0.
    rewrite Z.add_0_r. reflexivity.
  - intros k st hi lo Hk _ _ (Hfresh & Hlen).
    set (c := cursor_at (Z.of_nat k)).
    assert (Hbus : bus_id c = Z.of_nat k / 128) by reflexivity.
    destruct (push_and_flush_spec hi lo c st) as (_ & _ & Hother & _).
    pose proof (push_and_flush_length hi lo c st) as Hl.
    rewrite Hbus in Hl, Hother.
    split.
    + intros b Hb. rewrite queue_issue, Hother.
      * apply Hfresh. lia.
      * intros ->. revert Hb. Z.to_euclidean_division_equations. lia.
    + rewrite queue_issue.
      destruct (Z.eq_dec (Z.of_nat (S k) / 128) (Z.of_nat k / 128)) as [E|E].
      * rewrite E, Hl, Nat2Z.inj_mod, Nat2Z.inj_add.
        revert Hlen. generalize (Z.of_nat (length (queue st (Z.of_nat k / 128)))).
        generalize (Z.of_nat (length (queue st0 (Z.of_nat k / 128)))).
        intros a0 a Hlen. rewrite Nat2Z.inj_succ.
        change (Z.of_nat 5) with 5. change (Z.of_nat 4) with 4.
        revert Hlen. Z.to_euclidean_division_equations. lia.
      * rewrite Hother by exact E.
        rewrite Hfresh by (revert E; Z.to_euclidean_division_equations; lia).
        generalize (Z.of_nat (length (queue st0 (Z.of_nat (S k) / 128)))).
        intros a0. revert E. rewrite Nat2Z.inj_succ.
        Z.to_euclidean_division_equations. lia.
Qed.

(** The control calls of the turn of the value [k]: none, but after the
    last value of a bus, when the bus is closed and, unless it is bus 7,
    the next one opened. *)
Lemma next_cursor_at k :
  0 <= k < 1024 ->
  snd (fst (next_cursor (cursor_at k)))
  = if k mod 128 =? 127
    then bus_close (base_address_of (k / 128))
         ++ (if k / 128 <? 7 then bus_open (base_address_of (k / 128 + 1)) else [])
    else [].
Proof.
  intros Hk. rewrite closing_spec. unfold closing, cursor_at.
  cbn [bus_id ucIcAddr reg_idx]. unfold to_uint8.
  assert (Hchip : 0 <= (k / 4) mod 32 < 32) by (apply Z.mod_pos_bound; lia).
  assert (Hbus : 0 <= k / 128 <= 7) by (Z.to_euclidean_division_equations; lia).
  rewrite (Z.mod_small ((k / 4) mod 32 + 1)) by lia.
  rewrite (Z.mod_small (k / 128 + 1)) by lia.
  destruct (Z.eqb_spec (k mod 128) 127) as [E|E].
  - assert (E4 : k mod 4 = 3) by (revert E; Z.to_euclidean_division_equations; lia).
    assert (E32 : (k / 4) mod 32 = 31)
      by (revert E; Z.to_euclidean_division_equations; lia).
    rewrite E4, E32. cbn [Z.add Z.geb Z.gtb Z.compare Pos.compare Pos.compare_cont
                          Pos.add Pos.succ andb].
    destruct (Z.gtb_spec (k / 128 + 1) 7); destruct (Z.ltb_spec (k / 128) 7);
      try lia; reflexivity.
  - destruct (Z.geb_spec (k mod 4 + 1) 4) as [H4|]; [|reflexivity].
    destruct (Z.gtb_spec ((k / 4) mod 32 + 1) 31) as [H32|]; [|reflexivity].
    exfalso. apply E. revert H4 H32. Z.to_euclidean_division_equations. lia.
Qed.

End PrefixInduction.

Section TurnClaims.
Import Engine.



(** C5, as the code has it.  In any run of [parse_binary_commands], after
    the drain loop of a value the queue of the current bus holds at most
    three bytes, and every other queue holds what it held when the run
    began or at most three bytes.  When the calls made for a value hold a
    call of the close sequence of the bus, the value is the last of the
    bus, the calls end with the close sequence (and the opening of the
    next bus), and the queue of the bus holds as many bytes as its length
    at the beginning of the run leaves modulo 4: it is empty exactly when
    that length was a multiple of 4, whatever the other queues held. *)
Theorem byte_queue_levels (past_end : byte) (binary_data : list byte)
    (st0 : engine) (k : nat) (hi lo : byte) :
  (k < 4 * 32 * 8)%nat ->
  nth_error binary_data (3 + 2 * k) = Some hi ->
  nth_error binary_data (3 + 2 * k + 1) = Some lo ->
  let bus := Z.of_nat k / 128 in
  let st := snd (parse_binary_commands past_end (take (3 + 2 * k) binary_data) st0) in
  let st' :=
    snd (parse_binary_commands past_end (take (3 + 2 * (k + 1)) binary_data) st0) in
  (length (queue st' bus) <= 3)%nat
  /\ (forall b, queue st' b = queue st0 b \/ (length (queue st' b) <= 3)%nat)
  /\ (forall close,
        In close (bus_close (base_address_of bus)) ->
        In close (drop (length (calls st)) (calls st')) ->
        Z.of_nat k mod 128 = 127
        /\ (exists front,
              calls st'
              = front ++ bus_close (base_address_of bus)
                ++ (if bus <? 7 then bus_open (base_address_of (bus + 1)) else []))
        /\ length (queue st' bus) = (length (queue st0 bus) mod 4)%nat
        /\ (queue st' bus = [] <-> (length (queue st0 bus) mod 4 = 0)%nat)).
Proof.
  intros Hk Hhi Hlo bus st st'.
  assert (Hlen : (3 + 2 * (k + 1) <= length binary_data)%nat).
  { assert (Hn : nth_error binary_data (3 + 2 * k + 1) <> None)
      by (rewrite Hlo; discriminate).
    apply nth_error_Some in Hn. lia. }
  set (c := cursor_at (Z.of_nat k)).
  assert (Hstep : st' = issue (snd (fst (next_cursor c))) (push_and_flush hi lo c st)).
  { apply parse_binary_commands_step; [lia | exact Hhi | exact Hlo]. }
  pose proof (push_and_flush_length hi lo c st) as Hl.
  destruct (push_and_flush_spec hi lo c st) as (Hcalls & _).
  change (bus_id c) with bus in Hl, Hcalls.
  assert (Hcur : (length (queue st' bus) <= 3)%nat).
  { rewrite Hstep, queue_issue, Hl.
    pose proof (Nat.mod_upper_bound (length (queue st bus) + 5) 4). lia. }
  split; [exact Hcur|]. split.
  { apply queue_untouched_or_short; lia. }
  intros close Hclose Hin.
  assert (Hnew : drop (length (calls st)) (calls st')
                 = map (WriteCall (base_address_of bus + 0x10))
                     (words_be (queue st bus ++ command_bytes c hi lo))
                   ++ snd (fst (next_cursor c))).
  { rewrite Hstep, calls_issue, Hcalls, <- app_assoc. apply drop_app_length. }
  unfold c in Hnew. rewrite next_cursor_at in Hnew by lia. fold c in Hnew.
  assert (Hreg : Z.of_nat k mod 128 = 127).
  { destruct (Z.eqb_spec (Z.of_nat k mod 128) 127) as [E|_]; [exact E|].
    exfalso. rewrite Hnew, app_nil_r in Hin.
    apply in_map_iff in Hin as (w & <- & _).
    unfold bus_close in Hclose. cbn [In] in Hclose.
    destruct Hclose as [H|[H|[H|[H|[]]]]]; try discriminate;
      injection H as H _; lia. }
  split; [exact Hreg|]. split.
  { exists (calls st ++ map (WriteCall (base_address_of bus + 0x10))
                          (words_be (queue st bus ++ command_bytes c hi lo))).
    rewrite Hstep, calls_issue, Hcalls. unfold c.
    rewrite next_cursor_at by lia. fold bus.
    rewrite (proj2 (Z.eqb_eq _ _) Hreg). reflexivity. }
  destruct (queue_length_mod_4 past_end binary_data st0 k ltac:(lia) ltac:(lia))
    as (_ & Hmod). fold st in Hmod. fold bus in Hmod.
  assert (E : length (queue st' bus) = (length (queue st0 bus) mod 4)%nat).
  { rewrite Hstep, queue_issue, Hl. apply Nat2Z.inj.
    rewrite !Nat2Z.inj_mod, Nat2Z.inj_add.
    change (Z.of_nat 5) with 5. change (Z.of_nat 4) with 4.
    revert Hmod Hreg.
    generalize (Z.of_nat (length (queue st bus))).
    generalize (Z.of_nat (length (queue st0 bus))).
    generalize (Z.of_nat k). intros n a0 a.
    Z.to_euclidean_division_equations. lia. }
  split; [exact E|].
  rewrite <- E. split; [intros ->; reflexivity | apply length_zero_iff_nil].
Qed.
End TurnClaims.

Section ExecuteClaims.
Import Engine.
Variable z : zlib.
Variable mem : memory.
Variable past_end : byte.

(** [is_binary] is the test for the literal prefix. *)
Lemma is_binary_prefix raw :
  is_binary raw = true <-> exists tail, raw = ("BINARY:" +:+ tail)%string.
Proof.
  unfold is_binary. rewrite String.eqb_eq. split.
  - intros H.
    do 7 (destruct raw as [|? raw]; [discriminate|]).
    assert (H' : substring 0 7 (String a (String a0 (String a1 (String a2
                   (String a3 (String a4 (String a5 raw)))))))
                 = String a (String a0 (String a1 (String a2
                     (String a3 (String a4 (String a5 ""))))))).
    { destruct raw; reflexivity. }
    rewrite H' in H.
    injection H as -> -> -> -> -> -> ->. exists raw. reflexivity.
  - intros [tail ->]. destruct tail; reflexivity.
Qed.

(** C9. A command that does not begin with [BINARY:] and whose first token
    is neither [start] nor [done] is answered "what?"; the engine is left
    as it was, so the command makes no call on the memory writer. *)
Theorem Execute_unrecognized (fuel : nat) (raw_command : string) (st : engine)
    (cmd : string) (rest : list string) :
  is_binary raw_command = false ->
  tokenize raw_command = cmd :: rest ->
  cmd <> "start"%string ->
  cmd <> "done"%string ->
  Execute z mem past_end fuel raw_command st
  = Returns ({| message := "what?"; responses := [] |}, st).
Proof.
  intros Hb Htok Hs Hd. unfold Execute. rewrite Hb, Htok.
  unfold parse_text_commands.
  apply String.eqb_neq in Hs, Hd. rewrite Hs, Hd. reflexivity.
Qed.

Lemma parse_binary_commands_responses data st :
  responses (fst (parse_binary_commands past_end data st)) = [].
Proof.
  unfold parse_binary_commands.
  destruct (values_loop past_end (drop 3 data) cursor0 st). reflexivity.
Qed.

(** With no response word the reply holds the message line only. *)
Lemma reply_lines_no_responses readback_line r :
  responses r = [] ->
  reply_lines readback_line r
  = (if String.eqb (message r) "" then "" else message r +:+ CRLF)%string.
Proof. intros H. unfold reply_lines. rewrite H. reflexivity. Qed.

Lemma parse_text_commands_cases fuel tokens st :
  match parse_text_commands fuel mem tokens st with
  | Returns (r, _) => responses r = []
  | Undefined => tokens = []
  | Spinning => exists rest, tokens = "done"%string :: rest
  end.
Proof.
  unfold parse_text_commands. destruct tokens as [|cmd rest]; [reflexivity|].
  destruct (String.eqb_spec cmd "start"); [reflexivity|].
  destruct (String.eqb_spec cmd "done") as [->|]; [|reflexivity].
  assert (H : forall st1, send_wait fuel mem st1 <> Undefined).
  { induction fuel as [|fuel' IH]; intros st1; cbn [send_wait]; [discriminate|].
    destruct (mem _ _) as [v|]; [|discriminate].
    destruct (v =? 0); [discriminate | apply IH]. }
  destruct (send_wait fuel mem _) eqn:E; [reflexivity | | eauto].
  exfalso. eapply H, E.
Qed.

(** C10. Whatever the command, a [Result] that [Execute] returns has no
    response words, so the reply made of it has no readback line.
    [Execute] fails to return only on a text command without a token
    ([tokens[0]] of an empty vector) and, in the model, when the fuel ends
    inside the inflate loop of a binary command or the wait of [done]. *)
Theorem Execute_no_responses (fuel : nat) (raw_command : string) (st : engine) :
  match Execute z mem past_end fuel raw_command st with
  | Returns (r, _) =>
      responses r = []
      /\ forall readback_line,
           reply_lines readback_line r
           = (if String.eqb (message r) "" then "" else message r +:+ CRLF)%string
  | Undefined => is_binary raw_command = false /\ tokenize raw_command = []
  | Spinning =>
      is_binary raw_command = true
      \/ exists rest, tokenize raw_command = "done"%string :: rest
  end.
Proof.
  assert (Hret : forall r st',
            Execute z mem past_end fuel raw_command st = Returns (r, st') ->
            responses r = []).
  { unfold Execute, say. intros r st'.
    destruct (is_binary raw_command).
    - destruct (_ =? 0); [intros [= <- _]; reflexivity|].
      destruct (_ && _).
      + destruct (_ <? 2); [intros [= <- _]; reflexivity|].
        destruct (negb _); [intros [= <- _]; reflexivity|].
        destruct (negb _); [intros [= <- _]; reflexivity|].
        destruct (decompress_zlib_verbose z fuel _) as [[what|data]| |];
          try discriminate.
        * intros [= <- _]. reflexivity.
        * intros [= H]. rewrite <- (parse_binary_commands_responses data st).
          rewrite H. reflexivity.
      + intros [= H].
        rewrite <- (parse_binary_commands_responses
                      (drop 7 (list_byte_of_string raw_command)) st).
        rewrite H. reflexivity.
    - pose proof (parse_text_commands_cases fuel (tokenize raw_command) st) as Ht.
      intros E. rewrite E in Ht. exact Ht. }
  destruct (Execute z mem past_end fuel raw_command st) as [[r st']| |] eqn:E.
  - split; [eauto|]. intros rl. apply reply_lines_no_responses. eauto.
  - unfold Execute, say in E. destruct (is_binary raw_command).
    + exfalso. revert E.
      destruct (_ =? 0); [discriminate|].
      destruct (_ && _); [|discriminate].
      destruct (_ <? 2); [discriminate|].
      destruct (negb _); [discriminate|].
      destruct (negb _); [discriminate|].
      unfold decompress_zlib_verbose.
      assert (H : forall n k s d, inflate_chunks z n k s d <> Undefined).
      { induction n as [|n IH]; intros k s d; cbn [inflate_chunks]; [discriminate|].
        destruct (inflate z s) as [[ret written] s'].
        destruct (_ || _); [discriminate|].
        destruct (_ && _); [apply IH|].
        destruct (_ =? _); discriminate. }
      destruct (negb _); [discriminate|].
      destruct (negb _); [discriminate|].
      destruct (inflate_chunks _ _ _ _ _) as [[?|?]| |] eqn:Ei; try discriminate.
      exfalso. eapply H, Ei.
    + pose proof (parse_text_commands_cases fuel (tokenize raw_command) st) as Ht.
      rewrite E in Ht. auto.
  - unfold Execute in E. destruct (is_binary raw_command); [auto|].
    pose proof (parse_text_commands_cases fuel (tokenize raw_command) st) as Ht.
    rewrite E in Ht. auto.
Qed.

(** The tokenizer drops empty tokens and runs of delimiters. *)
Example tokenize_example :
  tokenize "  done &&now fast& " = ["done"; "now"; "fast"]%string
  /\ tokenize " & " = [] /\ tokenize "" = [].
Proof. repeat split. Qed.

(** The wait of [done] ends at the first poll that fails or reads 0. *)
Lemma send_wait_first_poll fuel st :
  match mem (calls st) 0x43c00014 with
  | None | Some 0 => True
  | _ => False
  end ->
  send_wait (S fuel) mem st = Returns (issue [ReadCall 0x43c00014] st).
Proof.
  cbn [send_wait]. destruct (mem (calls st) 0x43c00014) as [v|]; [|reflexivity].
  destruct v; [reflexivity | contradiction | contradiction].
Qed.
End ExecuteClaims.

Section Ex.
Import Engine Protocol.

Lemma queue_engine0 b : queue engine0 b = [].
Proof. unfold queue, engine0. cbn. rewrite lookup_empty. reflexivity. Qed.



Lemma byte_queue_levels_witness :
  let bus := Z.of_nat 127 / 128 in
  let st := snd (parse_binary_commands x00 (take (3 + 2 * 127) one_bus) engine0) in
  let st' :=
    snd (parse_binary_commands x00 (take (3 + 2 * (127 + 1)) one_bus) engine0) in
  (length (queue st' bus) <= 3)%nat
  /\ (forall b, queue st' b = queue engine0 b \/ (length (queue st' b) <= 3)%nat)
  /\ (forall close,
        In close (bus_close (base_address_of bus)) ->
        In close (drop (length (calls st)) (calls st')) ->
        Z.of_nat 127 mod 128 = 127
        /\ (exists front,
              calls st'
              = front ++ bus_close (base_address_of bus)
                ++ (if bus <? 7 then bus_open (base_address_of (bus + 1)) else []))
        /\ length (queue st' bus) = (length (queue engine0 bus) mod 4)%nat
        /\ (queue st' bus = [] <-> (length (queue engine0 bus) mod 4 = 0)%nat)).
Proof.
  apply (byte_queue_levels x00 one_bus engine0 127 x00 x00).
  - lia.
  - reflexivity.
  - reflexivity.
Defined.

(** C5, as stated, fails on the second command: [byte_queues] is a global,
    the byte a first command of one value leaves in the queue of bus 0 is
    still there when the next command closes bus 0. *)
Lemma byte_queue_not_empty_at_close :
  let st0 := snd (parse_binary_commands x00 one_value engine0) in
  match nth_error (turns x00 (drop 3 one_bus) cursor0 st0) 127 with
  | Some (c, st, hi, lo) =>
      snd (fst (next_cursor c))
      = bus_close (base_address_of (bus_id c)) ++ bus_open (base_address_of 1)
      /\ queue (push_and_flush hi lo c st) (bus_id c) = [x00]
  | None => False
  end.
Proof. vm_compute. split; reflexivity. Qed.


Lemma Execute_unrecognized_witness :
  Execute zlib_refusing memory_idle x00 0 "reset &now" engine0
  = Returns ({| Engine.message := "what?"; responses := [] |}, engine0).
Proof.
  apply (Execute_unrecognized zlib_refusing memory_idle x00 0 "reset &now" engine0
           "reset" ["now"%string]).
  - reflexivity.
  - reflexivity.
  - discriminate.
  - discriminate.
Defined.

(** The examples of the specification: [start], and [done] on an idle
    device. *)
Example Execute_start :
  Execute zlib_refusing memory_idle x00 0 "start" engine0
  = Returns ({| Engine.message := "stat init completed !!!"; responses := [] |},
             issue [WriteCall 0x43c4002c 0x2] engine0).
Proof. reflexivity. Qed.

Example Execute_done :
  exists st, Execute zlib_refusing memory_idle x00 1 "done" engine0
             = Returns ({| Engine.message := "done complete"; responses := [] |}, st)
             /\ length (calls st) = 12%nat.
Proof. eexists. split; reflexivity. Qed.
End Ex.

(** ** Phase calculator *)

Section BeamClaims.
Import Beam.

(** With azimuth or elevation not a number, or frequency zero, [phase]
    returns 0. *)
Lemma phase_guard (m : libm) (g : pointing) (xi yi : spec_float) :
  isnan (az_value g) || isnan (el_value g) || (freq_Hz g =? 0) = true ->
  phase m g xi yi = float_of_Z 0.
Proof. intros H. unfold phase. rewrite H. reflexivity. Qed.

(** C8 at a failing input. With a C library that returns [cos(+-0) = 1]
    and [sin(-0) = -0], as the C standard has it, the globals as initialised
    and the element at [x = 2^-20], [y = 0], the steering phase is about
    [-1.14e-6] degrees; [fmod] leaves it, [norm += 360.0] is [359.99999886]
    in [double] and becomes [360.0f] when stored in the [float]: [phase]
    returns 360, outside the interval from 0 to 360 with 360 left out. *)
Theorem phase_returns_360 (m : libm) :
  cosf m (S754_zero false) = float_of_Z 1 ->
  cosf m (S754_zero true) = float_of_Z 1 ->
  sinf m (S754_zero true) = S754_zero true ->
  phase m startup tiny_x (float_of_Z 0) = float_of_Z 360
  /\ in_0_360 (phase m startup tiny_x (float_of_Z 0)) = false.
Proof.
  intros Hcos Hcos' Hsin.
  assert (E : phase m startup tiny_x (float_of_Z 0) = float_of_Z 360).
  { unfold phase.
    change (isnan (az_value startup) || isnan (el_value startup)
            || (freq_Hz startup =? 0)) with false.
    cbv iota.
    replace (to_radian (el_value startup)) with (S754_zero false)
      by (vm_compute; reflexivity).
    replace (to_radian (SFopp (az_value startup))) with (S754_zero true)
      by (vm_compute; reflexivity).
    cbv zeta. rewrite Hcos, Hcos', Hsin.
    vm_compute. reflexivity. }
  split; [exact E|]. rewrite E. vm_compute. reflexivity.
Qed.

Lemma phase_returns_360_witness :
  phase libm_at_zero startup tiny_x (float_of_Z 0) = float_of_Z 360.
Proof.
  apply (phase_returns_360 libm_at_zero); reflexivity.
Defined.

(** The same from the grid: at azimuth 270 the angle [to_radian(-270)] is
    the [float] next to [-3 pi / 2], where the cosine is about [1.19e-8] and
    the sine rounds to 1.  With a C library that returns these, the element
    of column 1, row 0 ([x = 5], [y = 0]) gets the phase 360. *)
Lemma phase_at_azimuth_270 (m : libm) :
  cosf m (S754_zero false) = float_of_Z 1 ->
  cosf m (to_radian (float_of_Z (-270))) = S754_finite false 13426222 (-50) ->
  sinf m (to_radian (float_of_Z (-270))) = float_of_Z 1 ->
  phase m azimuth_270 (float_of_Z 5) (float_of_Z 0) = float_of_Z 360.
Proof.
  intros Hcos0 Hcos Hsin. unfold phase.
  change (isnan (az_value azimuth_270) || isnan (el_value azimuth_270)
          || (freq_Hz azimuth_270 =? 0)) with false.
  cbv iota.
  replace (to_radian (el_value azimuth_270)) with (S754_zero false)
    by (vm_compute; reflexivity).
  change (SFopp (az_value azimuth_270)) with (float_of_Z (-270)).
  cbv zeta. rewrite Hcos0, Hcos, Hsin.
  vm_compute. reflexivity.
Qed.

(** What is neither finite nor zero is normalized to not-a-number. *)
Lemma normalize_degrees_not_finite (x : spec_float) :
  match x with
  | S754_finite _ _ _ | S754_zero _ => False
  | _ => True
  end ->
  normalize_degrees x = S754_nan.
Proof.
  destruct x as [s|s| |s m e]; try contradiction; intros _;
    [destruct s|]; reflexivity.
Qed.

(** Whatever the C library returns, an element at [x = +infinity] gets
    not-a-number for its phase. *)
Lemma phase_infinite_position (m : libm) (g : pointing) :
  isnan (az_value g) || isnan (el_value g) || (freq_Hz g =? 0) = false ->
  phase m g (S754_infinity false) (float_of_Z 0) = S754_nan.
Proof.
  intros H. unfold phase. rewrite H.
  generalize (cosf m (to_radian (el_value g))) as c_theta.
  generalize (cosf m (to_radian (SFopp (az_value g)))) as c_phi.
  generalize (sinf m (to_radian (SFopp (az_value g)))) as s_phi.
  generalize (fdiv (fdiv (fmul (float_of_Z (-2)) INTELLIAN_PI)
                      (fdiv (float_of_Z 300000000) (float_of_Z (freq_Hz g))))
                (float_of_Z 1000)) as k0.
  intros k0 s_phi c_phi c_theta.
  apply normalize_degrees_not_finite.
  destruct c_theta as [[]|[]| |[] ? ?], c_phi as [[]|[]| |[] ? ?],
    s_phi as [[]|[]| |[] ? ?], k0 as [[]|[]| |[] ? ?]; exact I.
Qed.

(** The example of the specification: azimuth 0, elevation 0, 29.5 GHz,
    element at (0, 0): the phase is zero. *)
Example phase_origin :
  SFeqb (phase libm_at_zero
           {| az_value := float_of_Z 0; el_value := float_of_Z 0;
              freq_Hz := 29500000000 |}
           (float_of_Z 0) (float_of_Z 0))
        (float_of_Z 0) = true.
Proof. vm_compute. reflexivity. Qed.
End BeamClaims.

(** * Further properties of the sources *)

Section WireLemmas.
Import Protocol Wire.

Lemma load32_store32_BigEndian e w :
  0 <= w < 2 ^ 32 ->
  ntohl e (load32 e (byte_of (w / 2 ^ 24)) (byte_of (w / 2 ^ 16))
                    (byte_of (w / 2 ^ 8)) (byte_of w)) = w.
Proof.
  intros H.
  assert (E : load32 e (byte_of (w / 2 ^ 24)) (byte_of (w / 2 ^ 16))
                (byte_of (w / 2 ^ 8)) (byte_of w)
              = match e with LittleEndian => bswap32 w | BigEndian => w end).
  { unfold load32. rewrite !byte_val_of. change 256 with (2 ^ 8).
    destruct e.
    - unfold bswap32. lia.
    - rewrite (sum_of_digits w H) at 5. lia. }
  rewrite E. destruct e; unfold ntohl.
  - apply bswap32_involutive, H.
  - unfold to_uint32. apply Z.mod_small, H.
Qed.

(** Sixteen bytes in network order, read by [Header::FromNetwork] on any
    host. *)
Lemma FromNetwork_network_order e h rest :
  uint32_fields h ->
  FromNetwork e (store32 BigEndian (start h) ++ store32 BigEndian (sequence h)
                 ++ store32 BigEndian (message_type h)
                 ++ store32 BigEndian (message_length h) ++ rest) = h.
Proof.
  intros (H0 & H1 & H2 & H3).
  unfold FromNetwork, reinterpret_Header, at_, store32.
  cbn [app nth start sequence message_type message_length].
  rewrite !load32_store32_BigEndian by assumption.
  destruct h; reflexivity.
Qed.

(** The header a sender copies out is in network order whatever its host. *)
Lemma Header_bytes_ToNetwork e h :
  uint32_fields h ->
  Header_bytes e (ToNetwork e h)
  = store32 BigEndian (start h) ++ store32 BigEndian (sequence h)
    ++ store32 BigEndian (message_type h) ++ store32 BigEndian (message_length h).
Proof.
  intros (H0 & H1 & H2 & H3). unfold Header_bytes, ToNetwork.
  cbn [start sequence message_type message_length].
  rewrite !store32_htonl by assumption. reflexivity.
Qed.

Lemma on_wire_eq e f :
  uint32_fields (head f) ->
  on_wire e f
  = store32 BigEndian (start (head f)) ++ store32 BigEndian (sequence (head f))
    ++ store32 BigEndian (message_type (head f))
    ++ store32 BigEndian (message_length (head f)) ++ message f.
Proof.
  intros H. unfold on_wire, DeepCopy. cbn [head message].
  rewrite Header_bytes_ToNetwork by exact H. rewrite <- !app_assoc. reflexivity.
Qed.

Lemma length_on_wire e f :
  Z.of_nat (length (on_wire e f)) = sizeof_Header + Z.of_nat (length (message f)).
Proof.
  unfold on_wire, DeepCopy, Header_bytes. cbn [head message].
  rewrite !length_app. destruct e; cbn [store32 length]; unfold sizeof_Header; lia.
Qed.

(** X1. A header of four 32-bit fields that a sender passes through
    [Header::ToNetwork] and copies out gives the same sixteen bytes on a
    little-endian and on a big-endian host, and [Header::FromNetwork] on
    any receiving host reads the original header back from them, whatever
    bytes follow. *)
Theorem FromNetwork_ToNetwork (e e' : endianness) (h : Header) (rest : list byte) :
  uint32_fields h ->
  Header_bytes e (ToNetwork e h) = Header_bytes e' (ToNetwork e' h)
  /\ FromNetwork e' (Header_bytes e (ToNetwork e h) ++ rest) = h.
Proof.
  intros H. rewrite !Header_bytes_ToNetwork by exact H. split; [reflexivity|].
  rewrite <- !app_assoc. apply FromNetwork_network_order, H.
Qed.

(** A well-formed frame at the head of a buffer is decoded whole. *)
Lemma DecodeFrame_on_wire_any (e : endianness) (p : platform) (f : Frame)
    (rest : list byte) :
  32 < size_bits p ->
  well_formed f ->
  DecodeFrame p (on_wire e f ++ rest) = Decoded f.
Proof.
  intros Hp (Hf & Hlen).
  unfold DecodeFrame.
  rewrite length_app, Nat2Z.inj_add, length_on_wire.
  destruct (Z.ltb_spec (sizeof_Header + Z.of_nat (length (message f))
                        + Z.of_nat (length rest)) sizeof_Header); [lia|].
  rewrite on_wire_eq by exact Hf. rewrite <- !app_assoc.
  rewrite FromNetwork_network_order by exact Hf.
  rewrite needed_no_wrap by (first [exact Hp | apply Hf]).
  rewrite Hlen.
  destruct (Z.gtb_spec (sizeof_Header + Z.of_nat (length (message f)))
              (sizeof_Header + Z.of_nat (length (message f))
               + Z.of_nat (length rest))); [lia|].
  assert (Hd : forall a b c d l,
            drop (Z.to_nat sizeof_Header)
              (store32 BigEndian a ++ store32 BigEndian b ++ store32 BigEndian c
               ++ store32 BigEndian d ++ l) = l) by reflexivity.
  rewrite Hd, length_app.
  destruct (Z.ltb_spec (Z.of_nat (length (message f) + length rest))
              (Z.of_nat (length (message f)))); [lia|].
  rewrite Nat2Z.id, take_app_length.
  destruct f; reflexivity.
Qed.

End WireLemmas.

Section FrameRuns.
Import Protocol Wire.
Variable p : platform.
Variable e : endianness.
Hypothesis Hp : 32 < size_bits p.

Lemma DecodeFrame_on_wire_app f rest :
  well_formed f -> DecodeFrame p (on_wire e f ++ rest) = Decoded f.
Proof. intros H. apply DecodeFrame_on_wire_any; assumption. Qed.

Lemma Length_on_wire f :
  Z.of_nat (length (on_wire e f)) <= INT_MAX ->
  Length f = Z.of_nat (length (on_wire e f)).
Proof.
  intros H. rewrite length_on_wire in *. unfold Length.
  apply to_int_small. unfold sizeof_Header, INT_MAX in *. lia.
Qed.

(** X2. On a host whose [size_t] is wider than 32 bits, the bytes a sender
    on any host puts on the wire for a well-formed frame (fields of 32
    bits, length field equal to the payload size) decode to that very
    frame, whatever follows them in the buffer; and when they fit an [int],
    [Frame::Length] is their number, so that the scan of [OnReceive]
    resumes exactly behind the frame. *)
Theorem DecodeFrame_on_wire (f : Frame) (rest : list byte) :
  well_formed f ->
  DecodeFrame p (on_wire e f ++ rest) = Decoded f
  /\ (Z.of_nat (length (on_wire e f)) <= INT_MAX ->
      Length f = Z.of_nat (length (on_wire e f))
      /\ drop (Z.to_nat (Length f)) (on_wire e f ++ rest) = rest).
Proof.
  intros Hf. split; [apply DecodeFrame_on_wire_app, Hf|].
  intros Hmax. rewrite Length_on_wire by exact Hmax.
  split; [reflexivity|]. rewrite Nat2Z.id. apply drop_app_length.
Qed.

(** The bytes of a run of frames, one behind the other. *)
Lemma length_concat_on_wire fs :
  (length fs <= length (concat (map (on_wire e) fs)))%nat.
Proof.
  induction fs as [|f fs IH]; [reflexivity|].
  cbn [map concat length]. rewrite length_app.
  pose proof (length_on_wire e f) as H. unfold sizeof_Header in H. lia.
Qed.

Lemma OnReceive_from_frames fs : forall pre tail fuel,
  Forall well_formed fs ->
  (length tail < 16)%nat ->
  Z.of_nat (length (pre ++ concat (map (on_wire e) fs) ++ tail)) <= INT_MAX ->
  (length fs + length tail <= fuel)%nat ->
  OnReceive_from fuel p (pre ++ concat (map (on_wire e) fs) ++ tail)
    (Z.of_nat (length pre))
  = (concat (map (dispatch (byte_order p)) fs),
     let processed := Z.of_nat (length (pre ++ concat (map (on_wire e) fs))) in
     match tail with
     | [] => Finished processed
     | _ => Raised FrameNotReady processed
     end).
Proof.
  induction fs as [|f fs IH]; intros pre tail fuel Hwf Htail Hmax Hfuel.
  - cbn [map concat app length] in *. rewrite app_nil_r.
    destruct tail as [|b tail].
    + rewrite app_nil_r. destruct fuel; cbn [OnReceive_from];
        rewrite Z.ltb_irrefl; reflexivity.
    + destruct fuel as [|fuel]; [cbn in Hfuel; lia|].
      cbn [OnReceive_from].
      destruct (Z.ltb_spec (Z.of_nat (length pre))
                  (Z.of_nat (length (pre ++ b :: tail)))) as [_|Hn];
        [|rewrite length_app in Hn; cbn [length] in Hn; lia].
      rewrite Nat2Z.id, drop_app_length.
      rewrite DecodeFrame_short by (unfold sizeof_Header; lia).
      reflexivity.
  - apply Forall_cons in Hwf as [Hf Hfs].
    destruct fuel as [|fuel]; [cbn in Hfuel; lia|].
    cbn [map concat] in *.
    cbn [OnReceive_from].
    destruct (Z.ltb_spec (Z.of_nat (length pre))
                (Z.of_nat (length (pre ++ (on_wire e f ++ concat (map (on_wire e) fs))
                                     ++ tail)))) as [_|Hn].
    2:{ rewrite !length_app in Hn. pose proof (length_on_wire e f) as Hl.
        unfold sizeof_Header in Hl. lia. }
    rewrite Nat2Z.id, drop_app_length, <- app_assoc.
    rewrite DecodeFrame_on_wire_app by exact Hf.
    rewrite Length_on_wire by (rewrite !length_app in Hmax; lia).
    rewrite <- Nat2Z.inj_add, <- length_app.
    assert (E : pre ++ on_wire e f ++ concat (map (on_wire e) fs) ++ tail
                = (pre ++ on_wire e f) ++ concat (map (on_wire e) fs) ++ tail)
      by (rewrite <- !app_assoc; reflexivity).
    rewrite E, IH; [| exact Hfs | exact Htail | rewrite <- E;
      rewrite <- !app_assoc in Hmax; exact Hmax | cbn [length] in Hfuel; lia].
    rewrite <- !app_assoc. reflexivity.
Qed.

(** X3. A packet made of any number of well-formed frames, one behind the
    other, followed by fewer than sixteen stray bytes: [OnReceive]
    dispatches every frame, in order, and then either finishes with the
    whole packet consumed (no stray bytes) or stops on "frame not ready"
    with exactly the frames consumed. *)
Theorem OnReceive_frames (fs : list Frame) (tail : list byte) :
  Forall well_formed fs ->
  (length tail < 16)%nat ->
  let packet := concat (map (on_wire e) fs) ++ tail in
  Z.of_nat (length packet) <= INT_MAX ->
  OnReceive p packet
  = (concat (map (dispatch (byte_order p)) fs),
     match tail with
     | [] => Finished (Z.of_nat (length packet))
     | _ => Raised FrameNotReady (Z.of_nat (length packet) - Z.of_nat (length tail))
     end).
Proof.
  intros Hwf Htail packet Hmax. subst packet. unfold OnReceive.
  pose proof (OnReceive_from_frames fs [] tail
                (length (concat (map (on_wire e) fs) ++ tail)) Hwf Htail Hmax) as H.
  cbn [app length] in H. change (Z.of_nat 0) with 0 in H. rewrite H.
  - f_equal. destruct tail as [|b tail].
    + rewrite app_nil_r. reflexivity.
    + rewrite length_app. f_equal. lia.
  - rewrite length_app. pose proof (length_concat_on_wire fs). lia.
Qed.
End FrameRuns.

Section ReceiveEnds.
Import Protocol Wire.
Variable p : platform.

Lemma DecodeFrame_Threw frame err :
  32 < size_bits p ->
  DecodeFrame p frame = Threw err ->
  match err with
  | FrameNotReady => Z.of_nat (length frame) < sizeof_Header
  | FrameShort received needed =>
      received = Z.of_nat (length frame) /\ received < needed
  end.
Proof.
  intros Hp. unfold DecodeFrame.
  pose proof (FromNetwork_length_range (byte_order p) frame) as Hr.
  destruct (Z.ltb_spec (Z.of_nat (length frame)) sizeof_Header) as [Hs|Hs].
  { intros [= <-]. exact Hs. }
  rewrite needed_no_wrap by assumption.
  destruct (Z.gtb_spec (sizeof_Header + message_length (FromNetwork (byte_order p) frame))
              (Z.of_nat (length frame))) as [Hg|Hg].
  { intros [= <-]. split; [reflexivity | exact Hg]. }
  destruct (_ <? _); discriminate.
Qed.

Lemma DecodeFrame_in_bounds frame :
  32 < size_bits p -> DecodeFrame p frame <> OutOfBounds.
Proof.
  intros Hp. unfold DecodeFrame.
  pose proof (FromNetwork_length_range (byte_order p) frame) as Hr.
  destruct (Z.ltb_spec (Z.of_nat (length frame)) sizeof_Header) as [Hs|Hs];
    [discriminate|].
  rewrite needed_no_wrap by assumption.
  destruct (Z.gtb_spec (sizeof_Header + message_length (FromNetwork (byte_order p) frame))
              (Z.of_nat (length frame))) as [Hg|Hg]; [discriminate|].
  rewrite length_drop.
  destruct (Z.ltb_spec (Z.of_nat (length frame - Z.to_nat sizeof_Header))
              (message_length (FromNetwork (byte_order p) frame))) as [Hb|Hb];
    [|discriminate].
  unfold sizeof_Header in *. lia.
Qed.

Lemma OnReceive_from_clean_end packet fuel : forall processed,
  32 < size_bits p ->
  Z.of_nat (length packet) <= INT_MAX ->
  0 <= processed <= Z.of_nat (length packet) ->
  Z.of_nat (length packet) - processed <= Z.of_nat fuel ->
  clean_end (Z.of_nat (length packet)) processed
    (snd (OnReceive_from fuel p packet processed)).
Proof.
  induction fuel as [|fuel IH]; intros processed Hp Hmax Hproc Hfuel.
  - cbn [OnReceive_from].
    destruct (Z.ltb_spec processed (Z.of_nat (length packet))); [lia|].
    cbn. lia.
  - cbn [OnReceive_from].
    destruct (Z.ltb_spec processed (Z.of_nat (length packet))) as [Hlt|];
      [|cbn; lia].
    destruct (DecodeFrame p (drop (Z.to_nat processed) packet)) as [f|err|] eqn:Hdec.
    + destruct (Length_Decoded p (drop (Z.to_nat processed) packet) f) as (_ & Hl);
        [rewrite length_drop; lia | exact Hdec |].
      rewrite length_drop in Hl. unfold sizeof_Header in Hl.
      specialize (IH (processed + Length f) Hp Hmax ltac:(lia) ltac:(lia)).
      destruct (OnReceive_from fuel p packet (processed + Length f)) as [evs fin].
      cbn [snd] in *. destruct fin as [n|[|r nd] n|n|n]; cbn in *; try lia; exact IH.
    + apply DecodeFrame_Threw in Hdec; [|exact Hp].
      rewrite length_drop in Hdec. cbn [snd clean_end].
      destruct err as [|received needed]; lia.
    + exfalso. exact (DecodeFrame_in_bounds _ Hp Hdec).
Qed.

(** X4. On a host whose [size_t] is wider than 32 bits, [OnReceive] on any
    packet that fits an [int] never leaves the buffer and never loops: it
    ends with the whole packet consumed, or on "frame not ready" with fewer
    than sixteen bytes left, or on "frame short" reporting exactly the
    bytes left, fewer than the frame needs; the offset reached lies inside
    the packet. *)
Theorem OnReceive_clean_end (packet : list byte) :
  32 < size_bits p ->
  Z.of_nat (length packet) <= INT_MAX ->
  clean_end (Z.of_nat (length packet)) 0 (snd (OnReceive p packet)).
Proof.
  intros Hp Hmax. unfold OnReceive.
  apply OnReceive_from_clean_end; [exact Hp | exact Hmax | lia | lia].
Qed.

(** X5. The payload copy of [DecodeFrame] stays inside the buffer whenever
    [size_t] is wider than 32 bits; when it is exactly 32 bits wide, every
    buffer of at least a header whose length field is [2^32 - 16] or more
    passes both length checks (the sum wraps) and the copy runs past the
    end of the buffer. *)
Theorem DecodeFrame_copy_bounds (frame : list byte) :
  let len := Z.of_nat (length frame) in
  let declared := message_length (FromNetwork (byte_order p) frame) in
  (32 < size_bits p -> DecodeFrame p frame <> OutOfBounds)
  /\ (size_bits p = 32 -> sizeof_Header <= len <= INT_MAX ->
      2 ^ 32 - sizeof_Header <= declared ->
      DecodeFrame p frame = OutOfBounds).
Proof.
  intros len declared. split; [apply DecodeFrame_in_bounds|].
  intros H32 Hlen Hdecl. unfold DecodeFrame. fold len. fold declared.
  pose proof (FromNetwork_length_range (byte_order p) frame) as Hr. fold declared in Hr.
  destruct (Z.ltb_spec len sizeof_Header); [lia|].
  unfold to_size_t. rewrite H32.
  replace ((sizeof_Header + declared) mod 2 ^ 32)
    with (sizeof_Header + declared - 2 ^ 32)
    by (unfold sizeof_Header in *;
        apply Z.mod_unique with (q := 1); lia).
  destruct (Z.gtb_spec (sizeof_Header + declared - 2 ^ 32) len);
    [unfold sizeof_Header in *; lia|].
  rewrite length_drop.
  destruct (Z.ltb_spec (Z.of_nat (length frame - Z.to_nat sizeof_Header)) declared);
    [reflexivity|].
  unfold sizeof_Header, INT_MAX, len in *. lia.
Qed.
End ReceiveEnds.

Section AckExchange.
Import Protocol Wire.

(** X6. The acknowledgement [Ack] sends for a sequence number is one frame
    of sixteen bytes in network order, the same on every host; a peer whose
    [size_t] is wider than 32 bits decodes it as one ACK frame with that
    sequence and an empty payload, and answers nothing: an acknowledgement
    is not acknowledged and delivers no message. *)
Theorem Ack_not_acknowledged (e : endianness) (p : platform) (seq : Z) :
  32 < size_bits p ->
  0 <= seq < 2 ^ 32 ->
  let ack := {| head := {| start := MSG_STRAT_CODE; sequence := seq;
                           message_type := MSG_ACK; message_length := 0 |};
                message := [] |} in
  exists data,
    Ack e seq MSG_ACK = [Sent data]
    /\ data = store32 BigEndian MSG_STRAT_CODE ++ store32 BigEndian seq
              ++ store32 BigEndian MSG_ACK ++ store32 BigEndian 0
    /\ OnReceive p data = ([PreMessage ack], Finished 16).
Proof.
  intros Hp Hseq ack.
  assert (Hwf : well_formed ack).
  { unfold well_formed, uint32_fields, ack, MSG_STRAT_CODE, MSG_ACK. cbn. lia. }
  exists (on_wire e ack). split; [reflexivity|]. split.
  { rewrite on_wire_eq by apply Hwf. unfold ack. cbn [head message start sequence
      message_type message_length]. rewrite app_nil_r. reflexivity. }
  pose proof (OnReceive_from_frames p e Hp [ack] [] [] 16) as H.
  cbn [map concat app length] in H. rewrite !app_nil_r in H.
  unfold OnReceive.
  replace (length (on_wire e ack)) with 16%nat
    by (pose proof (length_on_wire e ack) as Hl; unfold sizeof_Header in Hl;
        cbn [message ack length] in Hl; lia).
  change (Z.of_nat 0) with 0 in H.
  rewrite H.
  - f_equal. pose proof (length_on_wire e ack) as Hl. unfold sizeof_Header in Hl.
    cbn [message ack length] in Hl. f_equal. lia.
  - repeat constructor; apply Hwf.
  - cbn. lia.
  - pose proof (length_on_wire e ack) as Hl. unfold sizeof_Header, INT_MAX in *.
    cbn [message ack length] in Hl. lia.
  - cbn. lia.
Qed.
End AckExchange.

Section WireExamples.
Import Protocol Wire.

Lemma lines_frame_well_formed : well_formed lines_frame.
Proof.
  unfold well_formed, uint32_fields, lines_frame, MSG_STRAT_CODE, MSG_LINES.
  cbn. lia.
Qed.

Lemma FromNetwork_ToNetwork_witness :
  Header_bytes LittleEndian (ToNetwork LittleEndian (head lines_frame))
  = Header_bytes BigEndian (ToNetwork BigEndian (head lines_frame))
  /\ FromNetwork BigEndian
       (Header_bytes LittleEndian (ToNetwork LittleEndian (head lines_frame))
        ++ message lines_frame) = head lines_frame.
Proof.
  apply (FromNetwork_ToNetwork LittleEndian BigEndian (head lines_frame)
           (message lines_frame)).
  unfold uint32_fields, lines_frame, MSG_STRAT_CODE, MSG_LINES. cbn. lia.
Defined.

Lemma DecodeFrame_on_wire_witness :
  DecodeFrame lp64_le (on_wire BigEndian lines_frame ++ short_buffer)
  = Decoded lines_frame
  /\ (Z.of_nat (length (on_wire BigEndian lines_frame)) <= INT_MAX ->
      Length lines_frame = Z.of_nat (length (on_wire BigEndian lines_frame))
      /\ drop (Z.to_nat (Length lines_frame))
           (on_wire BigEndian lines_frame ++ short_buffer) = short_buffer).
Proof.
  apply (DecodeFrame_on_wire lp64_le BigEndian).
  - reflexivity.
  - unfold well_formed, uint32_fields, lines_frame, MSG_STRAT_CODE, MSG_LINES.
    cbn. lia.
Defined.

Lemma OnReceive_frames_witness :
  OnReceive lp64_le
    (concat (map (on_wire BigEndian) [lines_frame; lines_frame]) ++ short_buffer)
  = (concat (map (dispatch LittleEndian) [lines_frame; lines_frame]),
     Raised FrameNotReady 38).
Proof.
  apply (OnReceive_frames lp64_le BigEndian eq_refl [lines_frame; lines_frame]
           short_buffer).
  - repeat constructor;
      unfold uint32_fields, lines_frame, MSG_STRAT_CODE, MSG_LINES; cbn; lia.
  - cbn. lia.
  - vm_compute. discriminate.
Defined.

Lemma OnReceive_clean_end_witness :
  clean_end (Z.of_nat (length short_buffer)) 0 (snd (OnReceive lp64_le short_buffer)).
Proof.
  apply (OnReceive_clean_end lp64_le short_buffer).
  - reflexivity.
  - vm_compute. discriminate.
Defined.

Lemma DecodeFrame_copy_bounds_witness :
  DecodeFrame ilp32_le huge_header = OutOfBounds.
Proof.
  apply (proj2 (DecodeFrame_copy_bounds ilp32_le huge_header)).
  - reflexivity.
  - vm_compute. split; discriminate.
  - vm_compute. discriminate.
Defined.

Lemma Ack_not_acknowledged_witness :
  exists data,
    Ack LittleEndian 7 MSG_ACK = [Sent data]
    /\ data = store32 BigEndian MSG_STRAT_CODE ++ store32 BigEndian 7
              ++ store32 BigEndian MSG_ACK ++ store32 BigEndian 0
    /\ OnReceive lp64_be data
       = ([PreMessage {| head := {| start := MSG_STRAT_CODE; sequence := 7;
                                    message_type := MSG_ACK; message_length := 0 |};
                         message := [] |}], Finished 16).
Proof.
  apply (Ack_not_acknowledged LittleEndian lp64_be 7).
  - reflexivity.
  - lia.
Defined.

End WireExamples.

Section LinesLemmas.
Import Protocol Wire Lines Spiterm.

Lemma strnlen_le str : forall maxlen,
  (strnlen str maxlen <= maxlen)%nat /\ (strnlen str maxlen <= length str)%nat.
Proof.
  induction str as [|b str IH]; intros [|maxlen]; cbn [strnlen length]; try lia.
  destruct (Byte.eqb b x00); [lia|]. specialize (IH maxlen). lia.
Qed.

(** In front of the place [strnlen] stops at there is no NUL. *)
Lemma strnlen_no_nul str : forall maxlen,
  Forall (fun b => b <> x00) (take (strnlen str maxlen) str).
Proof.
  induction str as [|b str IH]; intros [|maxlen]; cbn [strnlen take];
    try constructor.
  destruct (Byte.eqb b x00) eqn:E; [constructor|].
  cbn [take]. constructor; [apply Byte.eqb_false, E | apply IH].
Qed.

(** A string without NUL is measured to its end or to the bound. *)
Lemma strnlen_all str : forall maxlen,
  Forall (fun b => b <> x00) str ->
  strnlen str maxlen = Nat.min (length str) maxlen.
Proof.
  induction str as [|b str IH]; intros [|maxlen] H; cbn [strnlen length Nat.min];
    try reflexivity.
  apply Forall_cons in H as [Hb Hs].
  destruct (Byte.eqb b x00) eqn:E; [apply Byte.byte_dec_bl in E; contradiction|].
  rewrite IH by exact Hs. reflexivity.
Qed.

Lemma GetStringLines_snoc text b : GetStringLines (text ++ [b]) = Some text.
Proof.
  unfold GetStringLines. destruct (text ++ [b]) as [|x l] eqn:E.
  - destruct text; discriminate.
  - rewrite <- E. f_equal. rewrite length_app. cbn [length].
    replace (length text + 1 - 1)%nat with (length text) by lia.
    apply take_app_length.
Qed.

Lemma MessageLines_of_c_str_Some str lines :
  MessageLines_of_c_str str = Some lines ->
  let text := take (strnlen str 1400) str in
  lines = text ++ [x00] /\ (length text < 1400)%nat
  /\ Forall (fun b => b <> x00) text.
Proof.
  unfold MessageLines_of_c_str.
  destruct (Nat.leb_spec 1400 (strnlen str 1400)) as [|Hlt]; [discriminate|].
  intros [= <-]. cbv zeta. split; [reflexivity|]. split; [|apply strnlen_no_nul].
  rewrite length_take. lia.
Qed.

End LinesLemmas.

Section LinesTheorems.
Import Protocol Wire Lines Spiterm.

(** X7. [MessageLines( const char* )] followed by [GetStringLines] gives
    back the characters of the C string in front of its first NUL and never
    stores more than 1400 bytes; a string without NUL comes back whole.  The
    constructor throws only for a string whose first 1400 characters hold no
    NUL. *)
Theorem MessageLines_round_trip (str : list byte) :
  match MessageLines_of_c_str str with
  | Some lines =>
      GetStringLines lines = Some (take (strnlen str 1400) str)
      /\ (length lines <= 1400)%nat
      /\ (Forall (fun b => b <> x00) str -> GetStringLines lines = Some str)
  | None =>
      (1400 <= length str)%nat /\ Forall (fun b => b <> x00) (take 1400 str)
  end.
Proof.
  destruct (MessageLines_of_c_str str) as [lines|] eqn:E.
  - apply MessageLines_of_c_str_Some in E as (-> & Hlen & Hnul).
    rewrite GetStringLines_snoc. split; [reflexivity|]. split.
    + rewrite length_app. cbn [length]. lia.
    + intros Hall. f_equal. rewrite strnlen_all in * by exact Hall.
      rewrite length_take in Hlen. apply take_ge. lia.
  - unfold MessageLines_of_c_str in E.
    destruct (Nat.leb_spec 1400 (strnlen str 1400)) as [Hge|]; [|discriminate].
    destruct (strnlen_le str 1400) as (Hmax & Hstr).
    split; [lia|].
    replace 1400%nat with (strnlen str 1400) at 1 by lia.
    apply strnlen_no_nul.
Qed.

Variable z : Engine.zlib.
Variable mem : Engine.memory.
Variable past_end : byte.
Variable fuel : nat.
Variable SplitLines : string -> list string.
Variable readback_line : Z -> string.
Variable e : endianness.

(** X25. Whenever [SpitermRunner::Impl::OnMessage] returns, it has sent
    exactly one frame: a LINES frame carrying the handler's sequence
    number, whose length field counts the reply text and its terminator;
    a peer whose [size_t] is wider than 32 bits decodes these bytes to that
    frame and [GetStringLines] gives the text back; the text is shorter
    than 1400 bytes and holds no NUL, and the sequence number has advanced
    by one modulo [2^32]. *)
Theorem OnMessage_reply (p : platform) (h : Impl) (head : Header)
    (lines : list byte) (sent : list event) (h' : Impl) :
  32 < size_bits p ->
  0 <= sequence_ h < 2 ^ 32 ->
  OnMessage z mem past_end fuel SplitLines readback_line e h head lines
    = Handled sent h' ->
  exists text,
    let reply := {| Protocol.head := {| start := MSG_STRAT_CODE;
                                        sequence := sequence_ h;
                                        message_type := MSG_LINES;
                                        message_length := Z.of_nat (length text) + 1 |};
                    Protocol.message := text ++ [x00] |} in
    sent = [Sent (on_wire e reply)]
    /\ DecodeFrame p (on_wire e reply) = Decoded reply
    /\ GetStringLines (Protocol.message reply) = Some text
    /\ (length text < 1400)%nat
    /\ Forall (fun b => b <> x00) text
    /\ sequence_ h' = (sequence_ h + 1) mod 2 ^ 32.
Proof.
  intros Hp Hseq. unfold OnMessage.
  destruct (GetStringLines lines) as [text0|]; [|discriminate].
  match goal with
  | |- match ?x with Engine.Returns _ => _ | _ => _ end = _ -> _ =>
      destruct x as [[rep st']| |]; try discriminate
  end.
  destruct (MessageLines_of_c_str _) as [rmsg_lines|] eqn:El; [|discriminate].
  apply MessageLines_of_c_str_Some in El as (Hl & Hlen & Hnul).
  set (text := take _ _) in *. cbv zeta in Hl.
  unfold GetSequenceAndIncrement. intros [= <- <-].
  exists text. cbv zeta.
  assert (El : to_uint32 (Z.of_nat (length rmsg_lines)) = Z.of_nat (length text) + 1).
  { rewrite Hl, length_app. cbn [length]. unfold to_uint32.
    rewrite Z.mod_small by lia. lia. }
  split.
  { unfold Send. rewrite El, Hl. reflexivity. }
  split.
  { rewrite <- (app_nil_r (on_wire e _)). apply DecodeFrame_on_wire_app; [exact Hp|].
    unfold well_formed, uint32_fields, MSG_STRAT_CODE, MSG_LINES.
    cbn [Protocol.head Protocol.message start sequence message_type message_length].
    rewrite length_app. cbn [length]. lia. }
  split; [apply GetStringLines_snoc|].
  split; [exact Hlen|]. split; [exact Hnul|]. reflexivity.
Qed.

(** X26. A LINES frame with an empty payload is well formed: [OnReceive]
    decodes it, acknowledges it and hands it to [OnMessage] with an empty
    [lines] vector, on which [GetStringLines] reads [&lines[0]] of an empty
    vector and a length of [size_t(-1)]: the handler leaves defined
    behaviour, whatever the engine and the splitter are. *)
Theorem OnMessage_empty_payload (p : platform) (e' : endianness) (h : Impl)
    (seq : Z) :
  32 < size_bits p ->
  0 <= seq < 2 ^ 32 ->
  let head := {| start := MSG_STRAT_CODE; sequence := seq;
                 message_type := MSG_LINES; message_length := 0 |} in
  let f := {| Protocol.head := head; Protocol.message := [] |} in
  OnReceive p (on_wire e' f)
  = ([PreMessage f; Sent (on_wire (byte_order p)
                            {| Protocol.head :=
                                 {| start := MSG_STRAT_CODE; sequence := seq;
                                    message_type := MSG_ACK; message_length := 0 |};
                               Protocol.message := [] |});
      Message head []],
     Finished 16)
  /\ OnMessage z mem past_end fuel SplitLines readback_line e h head []
     = UndefinedBehaviour.
Proof.
  intros Hp Hseq head f. split; [|reflexivity].
  assert (Hwf : well_formed f).
  { unfold well_formed, uint32_fields, f, head, MSG_STRAT_CODE, MSG_LINES. cbn. lia. }
  assert (Hlen : length (on_wire e' f) = 16%nat).
  { pose proof (length_on_wire e' f) as Hl. unfold sizeof_Header in Hl.
    cbn [Protocol.message f length] in Hl. lia. }
  pose proof (OnReceive_from_frames p e' Hp [f] [] [] 16) as H.
  cbn [map concat app length] in H. rewrite !app_nil_r in H.
  unfold OnReceive. rewrite Hlen. change (Z.of_nat 0) with 0 in H.
  rewrite H.
  - rewrite Hlen. reflexivity.
  - repeat constructor; apply Hwf.
  - cbn. lia.
  - rewrite Hlen. unfold INT_MAX. lia.
  - cbn. lia.
Qed.
End LinesTheorems.

Section LinesExamples.
Import Protocol Wire Lines Spiterm.

Lemma OnMessage_reply_witness :
  exists text,
    let reply := {| Protocol.head := {| start := MSG_STRAT_CODE;
                                        sequence := sequence_ impl_41;
                                        message_type := MSG_LINES;
                                        message_length := Z.of_nat (length text) + 1 |};
                    Protocol.message := text ++ [x00] |} in
    [Sent (on_wire LittleEndian what_reply)] = [Sent (on_wire LittleEndian reply)]
    /\ DecodeFrame lp64_le (on_wire LittleEndian reply) = Decoded reply
    /\ GetStringLines (Protocol.message reply) = Some text
    /\ (length text < 1400)%nat
    /\ Forall (fun b => b <> x00) text
    /\ sequence_ impl_42 = (sequence_ impl_41 + 1) mod 2 ^ 32.
Proof.
  apply (OnMessage_reply Engine.zlib_refusing Engine.memory_idle x00 4 whole_line
           no_readback LittleEndian lp64_le impl_41 (head lines_frame)
           (message lines_frame) [Sent (on_wire LittleEndian what_reply)] impl_42).
  - reflexivity.
  - cbn. lia.
  - vm_compute. reflexivity.
Defined.

Lemma OnMessage_empty_payload_witness :
  OnReceive lp64_le
    (on_wire BigEndian
       {| Protocol.head := {| start := MSG_STRAT_CODE; sequence := 7;
                              message_type := MSG_LINES; message_length := 0 |};
          Protocol.message := [] |})
  = ([PreMessage {| Protocol.head := {| start := MSG_STRAT_CODE; sequence := 7;
                                        message_type := MSG_LINES;
                                        message_length := 0 |};
                    Protocol.message := [] |};
      Sent (on_wire LittleEndian
              {| Protocol.head := {| start := MSG_STRAT_CODE; sequence := 7;
                                     message_type := MSG_ACK; message_length := 0 |};
                 Protocol.message := [] |});
      Message {| start := MSG_STRAT_CODE; sequence := 7;
                 message_type := MSG_LINES; message_length := 0 |} []],
     Finished 16)
  /\ OnMessage Engine.zlib_refusing Engine.memory_idle x00 4 whole_line no_readback
       LittleEndian impl_41
       {| start := MSG_STRAT_CODE; sequence := 7;
          message_type := MSG_LINES; message_length := 0 |} []
     = UndefinedBehaviour.
Proof.
  apply (OnMessage_empty_payload Engine.zlib_refusing Engine.memory_idle x00 4
           whole_line no_readback LittleEndian lp64_le BigEndian impl_41 7).
  - reflexivity.
  - lia.
Defined.

End LinesExamples.

Section PageLemmas.
Import MemWriter DirectMemory.
Variable p : platform.
Hypothesis Hpages : pages_ok p.

Lemma page_size_pos : 4 <= page_size p < 2 ^ size_bits p.
Proof.
  destruct Hpages as (n & Hn & ->). split.
  - change 4 with (2 ^ 2). apply Z.pow_le_mono_r; lia.
  - apply Z.pow_lt_mono_r; lia.
Qed.

Lemma page_size_div_4 : page_size p mod 4 = 0.
Proof.
  destruct Hpages as (n & Hn & ->).
  replace n with (2 + (n - 2)) by lia. rewrite Z.pow_add_r by lia.
  change (2 ^ 2) with 4. rewrite Z.mul_comm. apply Z.mod_mul. lia.
Qed.

(** [a & ~(page_size - 1)] is [a] rounded down to a page. *)
Lemma page_base_of_eq a :
  0 <= a < 2 ^ size_bits p ->
  page_base_of p a = a - a mod page_size p.
Proof.
  intros Ha. destruct Hpages as (n & Hn & Hps).
  unfold page_base_of, to_size_t. rewrite Hps.
  replace (2 ^ n - 1) with (Z.ones n) by (rewrite Z.ones_equiv; lia).
  rewrite <- (Z.land_ones (Z.lnot (Z.ones n))) by lia.
  rewrite Z.land_assoc, (Z.land_comm a), <- Z.land_assoc.
  rewrite (Z.land_ones a) by lia. rewrite (Z.mod_small a) by lia.
  rewrite Z.land_comm, <- Z.ldiff_land, Z.ldiff_ones_r by lia.
  rewrite Z.shiftr_div_pow2, Z.shiftl_mul_pow2 by lia.
  pose proof (Z.div_mod a (2 ^ n) ltac:(lia)). lia.
Qed.

Lemma page_base_of_range a :
  0 <= a < 2 ^ size_bits p ->
  0 <= page_base_of p a <= a /\ a - page_base_of p a < page_size p
  /\ page_base_of p a mod page_size p = 0.
Proof.
  intros Ha. rewrite page_base_of_eq by exact Ha.
  pose proof page_size_pos as Hps.
  pose proof (Z.mod_pos_bound a (page_size p) ltac:(lia)) as Hm.
  pose proof (Z.mod_le a (page_size p) ltac:(lia) ltac:(lia)) as Hle.
  split; [lia|]. split; [lia|].
  pose proof (Z.div_mod a (page_size p) ltac:(lia)) as Hd.
  replace (a - a mod page_size p) with (a / page_size p * page_size p) by lia.
  apply Z.mod_mul. lia.
Qed.

(** An aligned word never crosses the end of its page. *)
Lemma aligned_in_page a :
  0 <= a < 2 ^ size_bits p -> a mod 4 = 0 -> a mod page_size p + 4 <= page_size p.
Proof.
  intros Ht Hal.
  pose proof page_size_pos as Hps.
  pose proof page_size_div_4 as Hps4.
  pose proof (Z.div_mod a (page_size p) ltac:(lia)) as Hd.
  pose proof (Z.mod_pos_bound a (page_size p) ltac:(lia)) as Hm.
  apply Z.mod_divide in Hal as [x Ha]; [|lia].
  apply Z.mod_divide in Hps4 as [b Hb]; [|lia].
  assert (Hr : (a mod page_size p) mod 4 = 0).
  { replace (a mod page_size p) with ((x - b * (a / page_size p)) * 4) by lia.
    apply Z.mod_mul. lia. }
  apply Z.mod_divide in Hr as [c Hc]; [|lia]. lia.
Qed.

Lemma page_plus_word : page_size p + 4 <= 2 ^ size_bits p.
Proof.
  destruct Hpages as (n & Hn & E). rewrite E.
  replace (size_bits p) with (1 + (size_bits p - 1)) by lia.
  rewrite Z.pow_add_r by lia. change (2 ^ 1) with 2.
  assert (2 ^ n <= 2 ^ (size_bits p - 1)) by (apply Z.pow_le_mono_r; lia).
  assert (4 <= 2 ^ n) by (change 4 with (2 ^ 2); apply Z.pow_le_mono_r; lia).
  lia.
Qed.

End PageLemmas.

Section PageExamples.
Import MemWriter DirectMemory.

Lemma pages_ok_lp64_le : pages_ok lp64_le.
Proof. exists 12. split; [cbn; lia | reflexivity]. Qed.

End PageExamples.

Section InitializeLemmas.
Import MemWriter DirectMemory.
Variable p : platform.
Hypothesis Hpages : pages_ok p.

Lemma to_size_t_small z : 0 <= z < 2 ^ size_bits p -> to_size_t p z = z.
Proof. intros H. unfold to_size_t. apply Z.mod_small, H. Qed.


(** [((size + page_size - 1) / page_size) * page_size] is [size] rounded up
    to a page. *)
Lemma round_up_spec size :
  0 <= size -> size + page_size p < 2 ^ size_bits p ->
  let size' :=
    to_size_t p (to_size_t p (to_size_t p (size + page_size p) - 1)
                 / page_size p * page_size p) in
  size <= size' < size + page_size p /\ size' mod page_size p = 0.
Proof.
  intros Hs Hfit size'. subst size'.
  pose proof (page_size_pos p Hpages) as Hps.
  rewrite (to_size_t_small (size + page_size p)) by lia.
  rewrite (to_size_t_small (size + page_size p - 1)) by lia.
  pose proof (Z.div_mod (size + page_size p - 1) (page_size p) ltac:(lia)) as Hd.
  pose proof (Z.mod_pos_bound (size + page_size p - 1) (page_size p) ltac:(lia)) as Hm.
  rewrite to_size_t_small by lia.
  split; [lia|]. apply Z.mod_mul. lia.
Qed.

(** The fields after [initialize] succeeded. *)
Lemma initialize_ok k wr base_addr size :
  open_dev_mem k <> -1 -> mmap_succeeds k = true ->
  initialize p k wr base_addr size
  = (true,
     let size' :=
       to_size_t p (to_size_t p (to_size_t p (size + page_size p) - 1)
                    / page_size p * page_size p) in
     {| mem_fd := open_dev_mem k;
        mapped_base := mapping (page_base_of p base_addr) size';
        mapped_address := page_base_of p base_addr;
        mapped_size := size' |}).
Proof.
  intros Hopen Hmap. unfold initialize.
  destruct (Z.eqb_spec (open_dev_mem k) (-1)); [contradiction|].
  rewrite Hmap. reflexivity.
Qed.

End InitializeLemmas.

Section InitializeTheorems.
Import MemWriter DirectMemory.
Variable p : platform.
Hypothesis Hpages : pages_ok p.

(** X8. When the kernel grants [open] and [mmap], [MemoryWriter::initialize]
    succeeds and leaves a live mapping that starts at the requested base
    rounded down to a page and whose size is the requested size rounded up
    to a whole number of pages, less than one page more.  The requested
    range is covered to its end exactly when the offset of the base inside
    its page, added to the size, still fits the rounded size: a base that
    is not page aligned can lose the tail of the range. *)
Theorem initialize_window (k : kernel) (wr : MemoryWriter) (base_addr size : Z) :
  open_dev_mem k <> -1 -> mmap_succeeds k = true ->
  0 <= base_addr < 2 ^ size_bits p ->
  0 <= size -> size + page_size p < 2 ^ size_bits p ->
  let wr' := snd (initialize p k wr base_addr size) in
  fst (initialize p k wr base_addr size) = true
  /\ mapped_base wr' = mapping (mapped_address wr') (mapped_size wr')
  /\ mapped_address wr' = base_addr - base_addr mod page_size p
  /\ mapped_size wr' mod page_size p = 0
  /\ size <= mapped_size wr' < size + page_size p
  /\ (base_addr + size <= mapped_address wr' + mapped_size wr'
      <-> base_addr mod page_size p + size <= mapped_size wr').
Proof.
  intros Hopen Hmap Hbase Hsize Hfit wr'. subst wr'.
  rewrite initialize_ok by assumption. cbn [fst snd mapped_base mapped_address mapped_size].
  destruct (round_up_spec p Hpages size Hsize Hfit) as (Hround & Hmod).
  rewrite page_base_of_eq by assumption.
  repeat split; try assumption; try lia.
Qed.

(** X9. After a successful [initialize], every 4-byte aligned address whose
    word lies inside the mapped window is served through the mapping:
    [writeMemory] stores the value at exactly that physical address and
    returns true, and [readMemory] loads from exactly that address and
    returns what the device presents there. *)
Theorem initialized_access (k k' : kernel) (wr : MemoryWriter)
    (base_addr size : Z) (device : Z -> Z) (target_address value : Z) :
  open_dev_mem k <> -1 -> mmap_succeeds k = true ->
  0 <= base_addr -> 0 <= size ->
  base_addr + size + page_size p < 2 ^ size_bits p ->
  let wr' := snd (initialize p k wr base_addr size) in
  target_address mod 4 = 0 ->
  mapped_address wr' <= target_address ->
  target_address + 4 <= mapped_address wr' + mapped_size wr' ->
  writeMemory p k' wr' target_address value
  = (Ret true, [Store target_address value])
  /\ readMemory p wr' device target_address
     = (Ret (Some (device target_address)), [Load target_address]).
Proof.
  intros Hopen Hmap Hbase Hsize Hfit wr'. subst wr'.
  pose proof (page_size_pos p Hpages) as Hps.
  rewrite initialize_ok by assumption.
  cbn [snd mapped_address mapped_size].
  destruct (round_up_spec p Hpages size Hsize ltac:(lia)) as (Hround & _).
  destruct (page_base_of_range p Hpages base_addr ltac:(lia)) as (Hpb & _).
  set (size' := to_size_t p _) in *. set (pb := page_base_of p base_addr) in *.
  intros Hal Hlow Hhigh.
  assert (Hin : in_mapped_range p
            {| mem_fd := open_dev_mem k; mapped_base := mapping pb size';
               mapped_address := pb; mapped_size := size' |} target_address = true).
  { unfold in_mapped_range. cbn [mapped_address mapped_size].
    rewrite !to_size_t_small by lia.
    destruct (Z.ltb_spec target_address pb); [lia|].
    destruct (Z.gtb_spec (target_address + 4) (pb + size')); [lia | reflexivity]. }
  assert (Hderef : deref p
            {| mem_fd := open_dev_mem k; mapped_base := mapping pb size';
               mapped_address := pb; mapped_size := size' |} target_address
            = Some target_address).
  { unfold deref. cbn [mapped_address mapped_base].
    rewrite to_size_t_small by lia.
    destruct (Z.leb_spec (target_address - pb + 4) size'); [|lia].
    f_equal. lia. }
  unfold writeMemory, readMemory, aligned.
  rewrite Hin, Hderef, Hal. cbn [mem_fd mapped_base].
  destruct (Z.eqb_spec (open_dev_mem k) (-1)); [contradiction|].
  split; reflexivity.
Qed.

(** X10. [readMemory] refuses, without touching memory, every address that
    is not 4-byte aligned or whose word is not inside the window recorded
    in the writer; on a writer that was never initialized it refuses every
    address (it has no fallback to a direct mapping, unlike
    [writeMemory]). *)
Theorem readMemory_rejects (wr : MemoryWriter) (device : Z -> Z)
    (target_address : Z) :
  0 <= mapped_address wr + mapped_size wr < 2 ^ size_bits p ->
  0 <= target_address ->
  target_address + 4 < 2 ^ size_bits p ->
  (target_address mod 4 <> 0
   \/ ~ (mapped_address wr <= target_address
         /\ target_address + 4 <= mapped_address wr + mapped_size wr)) ->
  readMemory p wr device target_address = (Ret None, [])
  /\ readMemory p fresh device target_address = (Ret None, []).
Proof.
  intros Hwin Ht0 Ht4 Hbad.
  assert (H : forall w, 0 <= mapped_address w + mapped_size w < 2 ^ size_bits p ->
            (target_address mod 4 <> 0
             \/ ~ (mapped_address w <= target_address
                   /\ target_address + 4 <= mapped_address w + mapped_size w)) ->
            readMemory p w device target_address = (Ret None, [])).
  { intros w Hw Hb. unfold readMemory, aligned, in_mapped_range.
    rewrite !to_size_t_small by lia.
    destruct (Z.eqb_spec (target_address mod 4) 0) as [Hal|]; [|reflexivity].
    cbn [negb].
    destruct (Z.ltb_spec target_address (mapped_address w)); [reflexivity|].
    destruct (Z.gtb_spec (target_address + 4) (mapped_address w + mapped_size w));
      [reflexivity|].
    exfalso. destruct Hb as [Hb|Hb]; [contradiction | apply Hb; lia]. }
  split; [apply H; assumption|].
  apply H; cbn [fresh mapped_address mapped_size]; [lia|].
  right. cbn [fresh mapped_address mapped_size]. lia.
Qed.


(** X12. [writeMemoryDirect] on a 4-byte aligned address is never stopped by
    its page test: it stores the value at exactly that address, and nothing
    else, when the kernel grants [open] and [mmap], and returns false without
    a store otherwise.  An address whose word would cross the end of its
    page is refused without a store, whatever the kernel answers. *)
Theorem writeMemoryDirect_page (k : kernel) (target_address value : Z) :
  0 <= target_address < 2 ^ size_bits p ->
  (target_address mod 4 = 0 ->
   target_address mod page_size p + 4 <= page_size p
   /\ writeMemoryDirect p k target_address value
      = if negb (open_dev_mem k =? -1) && mmap_succeeds k
        then (true, [Store target_address value])
        else (false, []))
  /\ (page_size p < target_address mod page_size p + 4 ->
      writeMemoryDirect p k target_address value = (false, [])).
Proof.
  intros Ht.
  pose proof (page_size_pos p Hpages) as Hps.
  pose proof (page_plus_word p Hpages) as Hw.
  destruct (page_base_of_range p Hpages target_address Ht) as (Hpb & Hoff & _).
  pose proof (page_base_of_eq p Hpages target_address Ht) as Epb.
  assert (Hoffset : to_size_t p
                      (to_size_t p (target_address - page_base_of p target_address) + 4)
                    = target_address mod page_size p + 4).
  { rewrite (to_size_t_small p (target_address - page_base_of p target_address))
      by lia.
    rewrite to_size_t_small by lia. lia. }
  split.
  - intros Hal.
    pose proof (aligned_in_page p Hpages target_address Ht Hal) as Hin.
    split; [exact Hin|].
    unfold writeMemoryDirect. rewrite Hoffset.
    destruct (Z.gtb_spec (target_address mod page_size p + 4) (page_size p));
      [lia|].
    destruct (open_dev_mem k =? -1); cbn [negb andb]; [reflexivity|].
    destruct (mmap_succeeds k); cbn [negb]; [|reflexivity].
    rewrite (to_size_t_small p (target_address - page_base_of p target_address))
      by lia.
    repeat f_equal. lia.
  - intros Hcross. unfold writeMemoryDirect. rewrite Hoffset.
    destruct (Z.gtb_spec (target_address mod page_size p + 4) (page_size p));
      [reflexivity | lia].
Qed.
End InitializeTheorems.

Section BusyWait.
Import MemWriter DirectMemory.
Variable p : platform.
Hypothesis Hpages : pages_ok p.

Lemma readMemoryValue_page k device a :
  0 <= a < 2 ^ size_bits p ->
  readMemoryValue p k device a
  = if negb (open_dev_mem k =? -1) && mmap_succeeds k
       && (a mod page_size p + 4 <=? page_size p)
    then (device a, [Load a]) else (0xFFFFFFFF, []).
Proof.
  intros Ht.
  pose proof (page_size_pos p Hpages) as Hps.
  pose proof (page_plus_word p Hpages) as Hw.
  destruct (page_base_of_range p Hpages a Ht) as (Hpb & Hoff & _).
  pose proof (page_base_of_eq p Hpages a Ht) as Epb.
  unfold readMemoryValue.
  rewrite (to_size_t_small p (a - page_base_of p a)) by lia.
  rewrite to_size_t_small by lia.
  replace (a - page_base_of p a) with (a mod page_size p) by lia.
  destruct (open_dev_mem k =? -1); cbn [negb andb]; [reflexivity|].
  destruct (mmap_succeeds k); cbn [negb andb]; [|reflexivity].
  rewrite Z.gtb_ltb, Z.ltb_antisym.
  destruct (Z.leb_spec (a mod page_size p + 4) (page_size p));
    cbn [negb]; [|reflexivity].
  replace (page_base_of p a + a mod page_size p) with a by lia. reflexivity.
Qed.

Lemma busyWaitUsingValue_from k device a fuel : forall turn acc,
  open_dev_mem k <> -1 -> mmap_succeeds k = true ->
  0 <= a < 2 ^ size_bits p -> a mod 4 = 0 ->
  (busyWaitUsingValue fuel p k device turn a = Some acc
   <-> exists n, (n < fuel)%nat /\ acc = repeat (Load a) (S n)
       /\ (forall i, (i < n)%nat ->
             device (turn + i)%nat a <> 0 /\ device (turn + i)%nat a <> 0xFFFFFFFF)
       /\ (device (turn + n)%nat a = 0 \/ device (turn + n)%nat a = 0xFFFFFFFF)).
Proof.
  intros turn acc Hopen Hmap Ha Hal.
  pose proof (aligned_in_page p Hpages a Ha Hal) as Hin.
  revert turn acc. induction fuel as [|fuel IH]; intros turn acc.
  - cbn [busyWaitUsingValue]. split; [discriminate|]. intros (n & Hn & _). lia.
  - cbn [busyWaitUsingValue]. rewrite readMemoryValue_page by exact Ha.
    destruct (Z.eqb_spec (open_dev_mem k) (-1)) as [|_]; [contradiction|].
    rewrite Hmap.
    destruct (Z.leb_spec (a mod page_size p + 4) (page_size p)) as [_|]; [|lia].
    cbn [negb andb].
    assert (Hstop : device turn a = 0 \/ device turn a = 0xFFFFFFFF ->
              (Some [Load a] = Some acc <->
               exists n, (n < S fuel)%nat /\ acc = repeat (Load a) (S n)
                 /\ (forall i, (i < n)%nat ->
                       device (turn + i)%nat a <> 0
                       /\ device (turn + i)%nat a <> 0xFFFFFFFF)
                 /\ (device (turn + n)%nat a = 0
                     \/ device (turn + n)%nat a = 0xFFFFFFFF))).
    { intros Hs. split.
      - intros [= <-]. exists 0%nat. rewrite Nat.add_0_r.
        split; [lia|]. split; [reflexivity|]. split; [intros; lia | exact Hs].
      - intros (n & Hn & -> & Hbusy & _). destruct n as [|n]; [reflexivity|].
        destruct (Hbusy 0%nat ltac:(lia)) as (H0 & H1).
        rewrite Nat.add_0_r in H0, H1. destruct Hs; contradiction. }
    destruct (Z.eqb_spec (device turn a) 0xFFFFFFFF) as [E1|E1];
      [apply Hstop; right; exact E1|].
    destruct (Z.eqb_spec (device turn a) 0) as [E0|E0];
      [apply Hstop; left; exact E0|].
    cbn [negb]. split.
    + destruct (busyWaitUsingValue fuel p k device (S turn) a) as [acc'|] eqn:E;
        [|discriminate].
      intros [= <-]. apply IH in E as (n & Hn & -> & Hbusy & Hlast).
      exists (S n). split; [lia|]. split; [reflexivity|]. split.
      * intros [|i] Hi.
        -- rewrite Nat.add_0_r. split; assumption.
        -- replace (turn + S i)%nat with (S turn + i)%nat by lia.
           apply Hbusy. lia.
      * replace (turn + S n)%nat with (S turn + n)%nat by lia. exact Hlast.
    + intros (n & Hn & -> & Hbusy & Hlast). destruct n as [|n].
      { rewrite Nat.add_0_r in Hlast. destruct Hlast; contradiction. }
      assert (E : busyWaitUsingValue fuel p k device (S turn) a
                  = Some (repeat (Load a) (S n))).
      { apply IH. exists n. split; [lia|]. split; [reflexivity|]. split.
        - intros i Hi. replace (S turn + i)%nat with (turn + S i)%nat by lia.
          apply Hbusy. lia.
        - replace (S turn + n)%nat with (turn + S n)%nat by lia. exact Hlast. }
      rewrite E. reflexivity.
Qed.

(** X13. [busyWaitUsingValue] on an aligned address: when [open] or [mmap]
    fails it returns after the first turn without reading the device; when
    they succeed it returns exactly after the first turn in which the
    register reads 0 or [0xFFFFFFFF], having loaded the register once per
    turn and nothing else, and it keeps turning as long as neither value
    is read.  A register that reads all ones ends the wait like one that
    reads 0. *)
Theorem busyWaitUsingValue_polls (k : kernel) (device : nat -> Z -> Z)
    (BUSY_CHECK : Z) (fuel : nat) (acc : list access) :
  0 <= BUSY_CHECK < 2 ^ size_bits p -> BUSY_CHECK mod 4 = 0 ->
  (open_dev_mem k = -1 \/ mmap_succeeds k = false ->
   busyWaitUsingValue (S fuel) p k device 0 BUSY_CHECK = Some [])
  /\ (open_dev_mem k <> -1 -> mmap_succeeds k = true ->
      (busyWaitUsingValue fuel p k device 0 BUSY_CHECK = Some acc
       <-> exists n, (n < fuel)%nat /\ acc = repeat (Load BUSY_CHECK) (S n)
           /\ (forall i, (i < n)%nat ->
                 device i BUSY_CHECK <> 0 /\ device i BUSY_CHECK <> 0xFFFFFFFF)
           /\ (device n BUSY_CHECK = 0 \/ device n BUSY_CHECK = 0xFFFFFFFF))).
Proof.
  intros Ha Hal. split.
  - intros Hfail. cbn [busyWaitUsingValue].
    rewrite readMemoryValue_page by exact Ha.
    destruct Hfail as [-> | ->].
    + reflexivity.
    + destruct (open_dev_mem k =? -1); reflexivity.
  - intros Hopen Hmap.
    exact (busyWaitUsingValue_from k device BUSY_CHECK fuel 0%nat acc Hopen Hmap Ha Hal).
Qed.

End BusyWait.

Section MemoryWriterExamples.
Import MemWriter DirectMemory.

Lemma initialize_window_witness :
  fst (initialize lp64_le kernel_ok fresh 0x43C00000 0xC0000) = true
  /\ mapped_base wr_ok = mapping (mapped_address wr_ok) (mapped_size wr_ok)
  /\ mapped_address wr_ok = 0x43C00000 - 0x43C00000 mod page_size lp64_le
  /\ mapped_size wr_ok mod page_size lp64_le = 0
  /\ 0xC0000 <= mapped_size wr_ok < 0xC0000 + page_size lp64_le
  /\ (0x43C00000 + 0xC0000 <= mapped_address wr_ok + mapped_size wr_ok
      <-> 0x43C00000 mod page_size lp64_le + 0xC0000 <= mapped_size wr_ok).
Proof.
  apply (initialize_window lp64_le pages_ok_lp64_le kernel_ok fresh 0x43C00000 0xC0000).
  - discriminate.
  - reflexivity.
  - cbn. lia.
  - lia.
  - cbn. lia.
Defined.

Lemma initialized_access_witness :
  writeMemory lp64_le kernel_closed wr_ok 0x43c00014 1
  = (Ret true, [Store 0x43c00014 1])
  /\ readMemory lp64_le wr_ok device_zero 0x43c00014
     = (Ret (Some (device_zero 0x43c00014)), [Load 0x43c00014]).
Proof.
  apply (initialized_access lp64_le pages_ok_lp64_le kernel_ok kernel_closed fresh
           0x43C00000 0xC0000 device_zero 0x43c00014 1).
  - discriminate.
  - reflexivity.
  - lia.
  - lia.
  - cbn. lia.
  - reflexivity.
  - vm_compute. discriminate.
  - vm_compute. discriminate.
Defined.

Lemma readMemory_rejects_witness :
  readMemory lp64_le wr_ok device_zero 0x43c00016 = (Ret None, [])
  /\ readMemory lp64_le fresh device_zero 0x43c00016 = (Ret None, []).
Proof.
  apply (readMemory_rejects lp64_le wr_ok device_zero 0x43c00016).
  - vm_compute. split; [discriminate | reflexivity].
  - lia.
  - cbn. lia.
  - left. vm_compute. discriminate.
Defined.


Lemma writeMemoryDirect_page_witness :
  (0x43c4002c mod 4 = 0 ->
   0x43c4002c mod page_size lp64_le + 4 <= page_size lp64_le
   /\ writeMemoryDirect lp64_le kernel_ok 0x43c4002c 2
      = if negb (open_dev_mem kernel_ok =? -1) && mmap_succeeds kernel_ok
        then (true, [Store 0x43c4002c 2])
        else (false, []))
  /\ (page_size lp64_le < 0x43c4002c mod page_size lp64_le + 4 ->
      writeMemoryDirect lp64_le kernel_ok 0x43c4002c 2 = (false, [])).
Proof.
  apply (writeMemoryDirect_page lp64_le pages_ok_lp64_le kernel_ok 0x43c4002c 2).
  cbn. lia.
Defined.

Lemma busyWaitUsingValue_polls_witness :
  busyWaitUsingValue 5 lp64_le kernel_ok busy_then_ones 0 0x43c00014
  = Some (repeat (Load 0x43c00014) 3).
Proof.
  apply (proj2 (busyWaitUsingValue_polls lp64_le pages_ok_lp64_le kernel_ok
                  busy_then_ones 0x43c00014 5 (repeat (Load 0x43c00014) 3)
                  ltac:(cbn; lia) eq_refl)).
  - discriminate.
  - reflexivity.
  - exists 2%nat. split; [lia|]. split; [reflexivity|]. split.
    + intros i Hi. unfold busy_then_ones.
      destruct (Nat.ltb_spec i 2); [split; discriminate | lia].
    + right. reflexivity.
Defined.

End MemoryWriterExamples.

Section FifoLemmas.
Import Engine Fifo.

Lemma fifo_bytes_app b cs1 cs2 :
  fifo_bytes b (cs1 ++ cs2) = fifo_bytes b cs1 ++ fifo_bytes b cs2.
Proof. apply flat_map_app. Qed.

Lemma store32_word_be b0 b1 b2 b3 :
  Protocol.store32 BigEndian (word_be b0 b1 b2 b3) = [b0; b1; b2; b3].
Proof.
  rewrite <- (store32_load32 BigEndian b0 b1 b2 b3). f_equal.
  unfold word_be, Protocol.load32. lia.
Qed.

(** The words of a queue, byte by byte, are its full groups of four. *)
Lemma fifo_bytes_words b q :
  fifo_bytes b (map (WriteCall (base_address_of b + 0x10)) (words_be q))
  ++ drop (4 * (length q / 4)) q = q.
Proof.
  induction q as [q IH] using (induction_ltof1 _ (@length byte)).
  unfold ltof in IH.
  destruct q as [|b0 [|b1 [|b2 [|b3 q']]]]; try reflexivity.
  cbn [words_be map fifo_bytes flat_map]. rewrite Z.eqb_refl, store32_word_be.
  replace (4 * (length (b0 :: b1 :: b2 :: b3 :: q') / 4))%nat
    with (4 + 4 * (length q' / 4))%nat.
  2:{ cbn [length].
      replace (S (S (S (S (length q'))))) with (length q' + 1 * 4)%nat by lia.
      rewrite Nat.div_add by lia. lia. }
  cbn [app drop Nat.add]. do 4 f_equal.
  apply IH. cbn [length]. lia.
Qed.

Lemma fifo_bytes_other b b' ws :
  b <> b' ->
  fifo_bytes b (map (WriteCall (base_address_of b' + 0x10)) ws) = [].
Proof.
  intros Hb. induction ws as [|w ws IH]; [reflexivity|].
  cbn [map fifo_bytes flat_map].
  destruct (Z.eqb_spec (base_address_of b' + 0x10) (base_address_of b + 0x10)) as [E|_].
  - unfold base_address_of in E. lia.
  - exact IH.
Qed.

(** Control calls put nothing into a FIFO. *)
Lemma fifo_bytes_control b cs : control cs = cs -> fifo_bytes b cs = [].
Proof.
  induction cs as [|c cs IH]; [reflexivity|].
  unfold control. cbn [List.filter].
  destruct (is_fifo_data c) eqn:E; cbn [negb].
  - intros H. exfalso.
    assert (Hl : (length (List.filter (fun c => negb (is_fifo_data c)) cs)
                  <= length cs)%nat) by apply List.filter_length_le.
    rewrite H in Hl. cbn [length] in Hl. lia.
  - intros [= H]. cbn [fifo_bytes flat_map]. fold (fifo_bytes b cs).
    rewrite (IH H), app_nil_r.
    destruct c as [addr value|addr]; [|reflexivity].
    destruct (Z.eqb_spec addr (base_address_of b + 0x10)) as [->|]; [|reflexivity].
    rewrite is_fifo_data_offset in E by lia. discriminate.
Qed.

(** One turn: what goes to the FIFO of a bus and what stays in its queue
    is what was in the queue and what the turn pushed. *)
Lemma turn_stream hi lo c st b :
  exists new,
    calls (snd (fst (turn hi lo c st))) = calls st ++ new
    /\ fifo_bytes b new ++ queue (snd (fst (turn hi lo c st))) b
       = queue st b ++ (if bus_id c =? b then command_bytes c hi lo else []).
Proof.
  rewrite turn_eq. cbn [fst snd].
  destruct (push_and_flush_spec hi lo c st) as (Hcalls & Hq & Hother & _).
  eexists. split.
  { rewrite calls_issue, Hcalls, <- app_assoc. reflexivity. }
  rewrite fifo_bytes_app, queue_issue.
  rewrite (fifo_bytes_control b _ (control_next_cursor c)), app_nil_r.
  destruct (Z.eqb_spec (bus_id c) b) as [<-|Hb].
  - rewrite Hq. apply fifo_bytes_words.
  - rewrite fifo_bytes_other by congruence.
    rewrite Hother by congruence. rewrite app_nil_r. reflexivity.
Qed.

Lemma values_loop_stream past_end rest b : forall c st,
  exists new,
    calls (snd (values_loop past_end rest c st)) = calls st ++ new
    /\ fifo_bytes b new ++ queue (snd (values_loop past_end rest c st)) b
       = queue st b ++ pushed b (turns past_end rest c st).
Proof.
  induction rest as [|hi|hi lo rest IH] using pairs_ind; intros c st.
  - exists []. cbn. rewrite !app_nil_r. split; reflexivity.
  - cbn [values_loop turns pushed flat_map]. rewrite app_nil_r.
    destruct (turn_stream hi past_end c st b) as (new & Hnew & Hs).
    destruct (turn hi past_end c st) as [[c' st'] stop]. cbn [fst snd] in *.
    exists new. split; assumption.
  - cbn [values_loop turns pushed flat_map].
    destruct (turn_stream hi lo c st b) as (new & Hnew & Hs).
    destruct (turn hi lo c st) as [[c' st'] stop]. cbn [fst snd] in *.
    destruct stop.
    + exists new. cbn [flat_map]. rewrite app_nil_r. split; assumption.
    + destruct (IH c' st') as (new' & Hnew' & Hs').
      exists (new ++ new'). split.
      { rewrite Hnew', Hnew, <- app_assoc. reflexivity. }
      fold (pushed b (turns past_end rest c' st')).
      rewrite fifo_bytes_app, <- app_assoc, Hs', !app_assoc, Hs. reflexivity.
Qed.

(** Behind the turn that leaves the loop nothing is read. *)
Lemma values_loop_stops past_end past_end' a : forall n b c st,
  length a = (2 * n)%nat ->
  snd (walk n c) = true ->
  values_loop past_end (a ++ b) c st = values_loop past_end' a c st.
Proof.
  induction a as [|x|x y a IH] using pairs_ind; intros n b c st Hlen Hstop.
  - destruct n; [discriminate | cbn in Hlen; lia].
  - cbn in Hlen. lia.
  - destruct n as [|n]; [discriminate|].
    cbn [app values_loop]. rewrite turn_eq.
    cbn [walk] in Hstop.
    destruct (next_cursor c) as [[c' cs] stop]. cbn [fst snd].
    destruct stop; [reflexivity|].
    apply (IH n); [cbn in Hlen; lia|].
    destruct (walk n c') as [[cs' c''] stop']. exact Hstop.
Qed.

End FifoLemmas.

Section FifoTheorems.
Import Engine Fifo.

(** X14. [parse_binary_commands] neither loses nor reorders command bytes:
    for every bus, the bytes of the words it writes to the FIFO data
    register of that bus (highest byte first), followed by the bytes it
    leaves in the queue of that bus, are the bytes queued before, followed
    by the command bytes of every turn made on that bus, in order.  The
    calls already made are kept in front of the new ones. *)
Theorem parse_binary_commands_stream (past_end : byte) (binary_data : list byte)
    (st : engine) (b : Z) :
  let st' := snd (parse_binary_commands past_end binary_data st) in
  let new := drop (length (calls st)) (calls st') in
  calls st' = calls st ++ new
  /\ fifo_bytes b new ++ queue st' b
     = queue st b ++ pushed b (turns past_end (drop 3 binary_data) cursor0 st).
Proof.
  intros st' new. subst new st'. unfold parse_binary_commands.
  destruct (values_loop_stream past_end (drop 3 binary_data) b cursor0 st)
    as (new & Hnew & Hs).
  destruct (values_loop past_end (drop 3 binary_data) cursor0 st) as [c' st'].
  cbn [snd] in *. rewrite Hnew, drop_app_length. split; [reflexivity | exact Hs].
Qed.

(** X15. Three leading bytes and the 4 x 32 x 8 values of a full pass are
    all that [parse_binary_commands] looks at: whatever bytes follow them
    are ignored, the calls and the result are those of the full pass
    alone (and the byte behind the end of the data plays no part). *)
Theorem parse_binary_commands_ignores_rest (past_end past_end' : byte)
    (binary_data rest : list byte) (st : engine) :
  length binary_data = (3 + 2 * (4 * 32 * 8))%nat ->
  parse_binary_commands past_end (binary_data ++ rest) st
  = parse_binary_commands past_end' binary_data st.
Proof.
  intros Hlen. unfold parse_binary_commands.
  rewrite drop_app_le by lia.
  rewrite (values_loop_stops past_end past_end' (drop 3 binary_data) 1024);
    [reflexivity | rewrite length_drop, Hlen; reflexivity |].
  rewrite walk_full_pass. reflexivity.
Qed.
End FifoTheorems.

Section FifoExamples.
Import Engine Fifo.

Lemma parse_binary_commands_ignores_rest_witness :
  parse_binary_commands x00 (full_pass ++ sample_values) engine0
  = parse_binary_commands xff full_pass engine0.
Proof.
  apply (parse_binary_commands_ignores_rest x00 xff full_pass sample_values engine0).
  reflexivity.
Defined.

End FifoExamples.

Section AccessLemmas.
Import MemWriter DirectMemory Engine Hardware.
Variable p : platform.
Hypothesis Hpages : pages_ok p.

Lemma consistent_access wr k device target_address value :
  consistent p wr ->
  target_address mod 4 = 0 ->
  mapped_address wr <= target_address ->
  target_address + 4 <= mapped_address wr + mapped_size wr ->
  writeMemory p k wr target_address value = (Ret true, [Store target_address value])
  /\ readMemory p wr device target_address
     = (Ret (Some (device target_address)), [Load target_address]).
Proof.
  intros (Hfd & Hbase & Hlow & Hhigh) Hal Hge Hle.
  assert (Hin : in_mapped_range p wr target_address = true).
  { unfold in_mapped_range. rewrite !to_size_t_small by lia.
    destruct (Z.ltb_spec target_address (mapped_address wr)); [lia|].
    destruct (Z.gtb_spec (target_address + 4) (mapped_address wr + mapped_size wr));
      [lia | reflexivity]. }
  assert (Hderef : deref p wr target_address = Some target_address).
  { unfold deref. rewrite Hbase, to_size_t_small by lia.
    destruct (Z.leb_spec (target_address - mapped_address wr + 4) (mapped_size wr));
      [|lia].
    f_equal. lia. }
  unfold writeMemory, readMemory, aligned. rewrite Hin, Hderef, Hal, Hbase.
  destruct (Z.eqb_spec (mem_fd wr) (-1)); [contradiction|].
  split; reflexivity.
Qed.

Lemma initialize_consistent k wr base_addr size :
  open_dev_mem k <> -1 -> mmap_succeeds k = true ->
  0 <= base_addr -> 0 <= size ->
  base_addr + size + page_size p < 2 ^ size_bits p ->
  consistent p (snd (initialize p k wr base_addr size)).
Proof.
  intros Hopen Hmap Hbase Hsize Hfit.
  pose proof (page_size_pos p Hpages) as Hps.
  rewrite initialize_ok by assumption.
  destruct (round_up_spec p Hpages size Hsize ltac:(lia)) as (Hround & _).
  destruct (page_base_of_range p Hpages base_addr ltac:(lia)) as (Hpb & _).
  unfold consistent. cbn [snd mem_fd mapped_base mapped_address mapped_size].
  repeat split; try assumption; lia.
Qed.

End AccessLemmas.

Section EngineCalls.
Import MemWriter DirectMemory Engine Hardware.
Variable past_end : byte.

Lemma in_block_fifo_words b ws :
  0 <= b <= 7 -> Forall in_block (map (WriteCall (base_address_of b + 0x10)) ws).
Proof.
  intros Hb. induction ws as [|w ws IH]; constructor; auto.
  unfold in_block, BASE_ADDR, base_address_of. cbn [addr_of].
  split; [|lia].
  replace (0x43c40000 + b * 0x10000 + 0x10) with ((0x10F10004 + b * 0x4000) * 4) by lia.
  apply Z.mod_mul. lia.
Qed.

Lemma in_block_offset b off w :
  0 <= b <= 7 -> off mod 4 = 0 -> 0 <= off <= 0xFFFC ->
  in_block (WriteCall (base_address_of b + off) w)
  /\ in_block (ReadCall (base_address_of b + off)).
Proof.
  intros Hb Hoff Hr. unfold in_block, BASE_ADDR, base_address_of. cbn [addr_of].
  assert ((0x43c40000 + b * 0x10000 + off) mod 4 = 0).
  { apply Z.mod_divide in Hoff as [q Hq]; [|lia].
    replace (0x43c40000 + b * 0x10000 + off) with ((0x10F10000 + b * 0x4000 + q) * 4)
      by lia.
    apply Z.mod_mul. lia. }
  repeat split; lia.
Qed.

Lemma in_block_bus_close b :
  0 <= b <= 7 -> Forall in_block (bus_close (base_address_of b)).
Proof.
  intros Hb. unfold bus_close.
  pose proof (in_block_offset b 0 0xffffffff Hb eq_refl ltac:(lia)) as H0.
  rewrite Z.add_0_r in H0.
  constructor; [exact (proj1 (in_block_offset b 0x14 0x280 Hb eq_refl ltac:(lia)))|].
  constructor; [apply H0|].
  constructor; [apply H0|].
  constructor; [exact (proj2 (in_block_offset b 0xC 0 Hb eq_refl ltac:(lia)))|].
  constructor.
Qed.

Lemma in_block_next_cursor c :
  0 <= bus_id c <= 7 -> Forall in_block (snd (fst (next_cursor c))).
Proof.
  intros Hb. rewrite closing_spec.
  destruct (closing c); [|constructor].
  apply Forall_app. split; [apply in_block_bus_close, Hb|].
  unfold to_uint8. rewrite Z.mod_small by lia.
  destruct (Z.gtb_spec (bus_id c + 1) 7); [constructor|].
  unfold bus_open.
  constructor; [|constructor].
  exact (proj1 (in_block_offset (bus_id c + 1) 0x2C 0x2 ltac:(lia) eq_refl ltac:(lia))).
Qed.

Lemma values_loop_in_block rest : forall c st,
  0 <= bus_id c <= 7 ->
  exists new,
    calls (snd (values_loop past_end rest c st)) = calls st ++ new
    /\ Forall in_block new.
Proof.
  assert (Hturn : forall hi lo c st, 0 <= bus_id c <= 7 ->
            exists new,
              calls (snd (fst (turn hi lo c st))) = calls st ++ new
              /\ Forall in_block new).
  { intros hi lo c st Hb. rewrite turn_eq. cbn [fst snd].
    destruct (push_and_flush_spec hi lo c st) as (Hcalls & _).
    eexists. split.
    { rewrite calls_issue, Hcalls, <- app_assoc. reflexivity. }
    apply Forall_app. split; [apply in_block_fifo_words, Hb|].
    apply in_block_next_cursor, Hb. }
  induction rest as [|hi|hi lo rest IH] using pairs_ind; intros c st Hb.
  - exists []. cbn. rewrite app_nil_r. split; [reflexivity | constructor].
  - cbn [values_loop].
    destruct (Hturn hi past_end c st Hb) as (new & Hnew & Hall).
    destruct (turn hi past_end c st) as [[c' st'] stop]. cbn [fst snd] in *.
    exists new. split; assumption.
  - cbn [values_loop].
    destruct (Hturn hi lo c st Hb) as (new & Hnew & Hall).
    pose proof (next_cursor_on_bus c Hb) as (_ & Hnext).
    pose proof (turn_eq hi lo c st) as Et.
    destruct (turn hi lo c st) as [[c' st'] stop]. cbn [fst snd] in *.
    injection Et as Ec _ Es.
    destruct stop.
    + exists new. split; assumption.
    + destruct (IH c' st') as (new' & Hnew' & Hall').
      { rewrite Ec. apply Hnext. symmetry. exact Es. }
      exists (new ++ new'). split.
      { rewrite Hnew', Hnew, <- app_assoc. reflexivity. }
      apply Forall_app. split; assumption.
Qed.

(** The polls of the wait loop of [done]. *)
Lemma send_wait_calls mem fuel : forall st st',
  send_wait fuel mem st = Returns st' ->
  exists n, (1 <= n <= fuel)%nat
    /\ st' = issue (repeat (ReadCall 0x43c00014) n) st.
Proof.
  induction fuel as [|fuel IH]; intros st st' H; [discriminate|].
  cbn [send_wait] in H.
  assert (Hone : Returns (issue [ReadCall 0x43c00014] st) = Returns st' ->
            exists n, (1 <= n <= S fuel)%nat
              /\ st' = issue (repeat (ReadCall 0x43c00014) n) st).
  { intros [= <-]. exists 1%nat. split; [lia | reflexivity]. }
  destruct (mem (calls st) 0x43c00014) as [v|]; [|exact (Hone H)].
  destruct (v =? 0); [exact (Hone H)|].
  apply IH in H as (n & Hn & ->).
  exists (S n). split; [lia|].
  unfold issue. cbn [byte_queues count calls repeat]. rewrite <- app_assoc. reflexivity.
Qed.

End EngineCalls.

Section DoneLemmas.
Import MemWriter DirectMemory Engine Hardware Done.
Variable mem : memory.

Lemma issue_issue cs1 cs2 st : issue cs2 (issue cs1 st) = issue (cs1 ++ cs2) st.
Proof. unfold issue. cbn [byte_queues count calls]. rewrite <- app_assoc. reflexivity. Qed.

Lemma polls_busy_S st n :
  polls_busy mem st (S n)
  <-> (exists v, mem (calls st) 0x43c00014 = Some v /\ v <> 0)
      /\ polls_busy mem (issue [ReadCall 0x43c00014] st) n.
Proof.
  unfold polls_busy. split.
  - intros H. split.
    + specialize (H 0%nat ltac:(lia)). cbn [repeat] in H. rewrite app_nil_r in H. exact H.
    + intros i Hi. specialize (H (S i) ltac:(lia)).
      cbn [issue calls]. rewrite <- app_assoc. exact H.
  - intros [H0 Hn] i Hi. destruct i as [|i].
    + cbn [repeat]. rewrite app_nil_r. exact H0.
    + specialize (Hn i ltac:(lia)). cbn [issue calls] in Hn.
      rewrite <- app_assoc in Hn. exact Hn.
Qed.

(** How the wait loop ends: after [n] polls of which the last failed or
    read 0 and the others read another word; or not within [fuel] polls,
    all of which read a word other than 0. *)
Lemma send_wait_spec fuel : forall st,
  match send_wait fuel mem st with
  | Returns st' =>
      exists n, (n < fuel)%nat
        /\ st' = issue (repeat (ReadCall 0x43c00014) (S n)) st
        /\ polls_busy mem st n
        /\ (mem (calls st ++ repeat (ReadCall 0x43c00014) n) 0x43c00014 = None
            \/ mem (calls st ++ repeat (ReadCall 0x43c00014) n) 0x43c00014 = Some 0)
  | Spinning => polls_busy mem st fuel
  | Undefined => False
  end.
Proof.
  induction fuel as [|fuel IH]; intros st.
  - cbn [send_wait]. intros i Hi. lia.
  - cbn [send_wait].
    destruct (mem (calls st) 0x43c00014) as [v|] eqn:Ev.
    2:{ exists 0%nat. cbn [repeat]. rewrite app_nil_r.
        repeat split; [lia | | auto]. intros i Hi. lia. }
    destruct (Z.eqb_spec v 0) as [->|Hv].
    { exists 0%nat. cbn [repeat]. rewrite app_nil_r.
      repeat split; [lia | | auto]. intros i Hi. lia. }
    specialize (IH (issue [ReadCall 0x43c00014] st)).
    destruct (send_wait fuel mem (issue [ReadCall 0x43c00014] st)) as [st'| |].
    + destruct IH as (n & Hn & -> & Hbusy & Hlast).
      exists (S n). split; [lia|]. split; [rewrite issue_issue; reflexivity|].
      split.
      * apply polls_busy_S. split; [eauto | exact Hbusy].
      * cbn [issue calls] in Hlast. rewrite <- app_assoc in Hlast. exact Hlast.
    + exact IH.
    + apply polls_busy_S. split; [eauto | exact IH].
Qed.
End DoneLemmas.

Section EngineTheorems.
Import MemWriter DirectMemory Engine Hardware Done.
Variable z : zlib.
Variable mem : memory.
Variable past_end : byte.

(** X18. On a device whose eight status registers can be read, the command
    [done] writes its three trigger words, then reads the busy register
    [0x43c00014] once per turn until a read fails or gives 0, then reads
    the eight status registers and answers "done complete"; every earlier
    poll has read a word other than 0.  While the register keeps reading
    non-zero words the command keeps polling; nothing else happens. *)
Theorem done_waits (fuel : nat) (rest : list string) (st : engine) :
  status_reads_succeed mem ->
  let st1 := issue done_trigger st in
  match parse_text_commands fuel mem ("done"%string :: rest) st with
  | Returns (r, st') =>
      message r = "done complete"%string
      /\ exists n, (n < fuel)%nat
           /\ st' = issue (done_trigger ++ repeat (ReadCall 0x43c00014) (S n)
                           ++ done_report) st
           /\ polls_busy mem st1 n
           /\ (mem (calls st1 ++ repeat (ReadCall 0x43c00014) n) 0x43c00014 = None
               \/ mem (calls st1 ++ repeat (ReadCall 0x43c00014) n) 0x43c00014
                  = Some 0)
  | Spinning => polls_busy mem st1 fuel
  | Undefined => False
  end.
Proof.
  intros _ st1. unfold parse_text_commands.
  change (String.eqb "done" "start") with false.
  change (String.eqb "done" "done") with true. cbv iota.
  fold done_trigger. fold st1.
  pose proof (send_wait_spec mem fuel st1) as H.
  destruct (send_wait fuel mem st1) as [st2| |]; [|exact H|exact H].
  destruct H as (n & Hn & -> & Hbusy & Hlast).
  split; [reflexivity|]. exists n. split; [exact Hn|]. split; [|split; assumption].
  fold done_report. unfold st1. rewrite !issue_issue. reflexivity.
Qed.

Lemma Forall_repeat {A : Type} (P : A -> Prop) (x : A) (n : nat) :
  P x -> Forall P (repeat x n).
Proof. intros H. induction n; cbn [repeat]; constructor; assumption. Qed.

Lemma Execute_in_block fuel raw_command st r st' :
  Execute z mem past_end fuel raw_command st = Returns (r, st') ->
  exists new, calls st' = calls st ++ new /\ Forall in_block new.
Proof.
  assert (Hsay : forall msg, say msg st = Returns (r, st') ->
            exists new, calls st' = calls st ++ new /\ Forall in_block new).
  { intros msg [= _ <-]. exists []. rewrite app_nil_r. split; [reflexivity | constructor]. }
  assert (Hbin : forall data,
            Returns (parse_binary_commands past_end data st) = Returns (r, st') ->
            exists new, calls st' = calls st ++ new /\ Forall in_block new).
  { intros data [= H]. unfold parse_binary_commands in H.
    destruct (values_loop_in_block past_end (drop 3 data) cursor0 st) as (new & Hnew & Hall);
      [cbn; lia|].
    destruct (values_loop past_end (drop 3 data) cursor0 st) as [c1 st1].
    injection H as _ <-. exists new. split; assumption. }
  unfold Execute.
  destruct (is_binary raw_command).
  - destruct (_ =? 0); [apply Hsay|].
    destruct (_ && _); [|apply Hbin].
    destruct (_ <? 2); [apply Hsay|].
    destruct (negb _); [apply Hsay|].
    destruct (negb _); [apply Hsay|].
    destruct (decompress_zlib_verbose z fuel _) as [[what|data]| |];
      [apply Hsay | apply Hbin | discriminate | discriminate].
  - unfold parse_text_commands.
    destruct (tokenize raw_command) as [|cmd rest]; [discriminate|].
    destruct (String.eqb cmd "start").
    { intros [= _ <-]. exists [WriteCall 0x43c4002c 0x2]. split; [reflexivity|].
      constructor; [in_block_const | constructor]. }
    destruct (String.eqb cmd "done"); [|apply (Hsay "what?"%string)].
    destruct (send_wait fuel mem _) as [st2| |] eqn:Ew; try discriminate.
    apply send_wait_calls in Ew as (n & _ & ->).
    intros [= _ <-]. rewrite !issue_issue. eexists. split; [reflexivity|].
    apply Forall_app. split; [|apply Forall_app; split].
    + repeat (constructor; [in_block_const|]). constructor.
    + apply Forall_repeat. in_block_const.
    + repeat (constructor; [in_block_const|]). constructor.
Qed.

(** X17. Every call [Execute] makes on the memory writer addresses a 4-byte
    aligned register inside the block of [0xC0000] bytes at [0x43C00000]
    that the constructor maps.  Hence, on a host whose pages are a power
    of two dividing [0x40000] and whose addresses have at least 32 bits,
    once the kernel has granted the mapping of the constructor, each of
    these calls succeeds through the mapping and performs exactly the one
    store or load it asks for, at the address it names. *)
Theorem Execute_calls_served (p : platform) (k k' : kernel) (device : Z -> Z)
    (fuel : nat) (raw_command : string) (st : engine) (r : Result) (st' : engine) :
  pages_ok p -> 0x40000 mod page_size p = 0 -> 32 <= size_bits p ->
  open_dev_mem k <> -1 -> mmap_succeeds k = true ->
  Execute z mem past_end fuel raw_command st = Returns (r, st') ->
  exists new,
    calls st' = calls st ++ new
    /\ Forall in_block new
    /\ Forall (fun c => perform p k' (constructed p k) device c
                        = (Ret true, [access_of c])) new.
Proof.
  intros Hpages Hdiv Hbits Hopen Hmap Hexec.
  destruct (Execute_in_block fuel raw_command st r st' Hexec) as (new & Hnew & Hall).
  exists new. split; [exact Hnew|]. split; [exact Hall|].
  pose proof (page_size_pos p Hpages) as Hps.
  assert (Hdvd : exists q, 0x40000 = q * page_size p).
  { apply Z.mod_divide in Hdiv as [q Hq]; [eauto | lia]. }
  destruct Hdvd as (q & Hq).
  assert (Hps' : page_size p <= 0x40000).
  { destruct (Z.le_gt_cases q 0); nia. }
  assert (Hw : 2 ^ 32 <= 2 ^ size_bits p) by (apply Z.pow_le_mono_r; lia).
  assert (Hcons : consistent p (constructed p k)).
  { apply initialize_consistent; try assumption; unfold BASE_ADDR; lia. }
  assert (Hwin : mapped_address (constructed p k) = BASE_ADDR
                 /\ 0xC0000 <= mapped_size (constructed p k)).
  { unfold constructed. rewrite initialize_ok by assumption.
    cbn [snd mapped_address mapped_size].
    destruct (round_up_spec p Hpages 0xC0000 ltac:(lia) ltac:(lia)) as (Hround & _).
    split; [|lia].
    rewrite page_base_of_eq by (try assumption; unfold BASE_ADDR; lia).
    replace BASE_ADDR with (0x10F0 * q * page_size p) by (unfold BASE_ADDR; lia).
    rewrite Z.mod_mul by lia. lia. }
  destruct Hwin as (Haddr & Hsize).
  eapply Forall_impl; [exact Hall|].
  intros c (Hal & Hlow & Hhigh).
  destruct (consistent_access p (constructed p k) k' device (addr_of c)
              (match c with WriteCall _ v => v | ReadCall _ => 0 end) Hcons Hal)
    as (Hwrite & Hread); [lia | lia |].
  destruct c as [addr value|addr]; cbn [perform access_of addr_of] in *.
  - exact Hwrite.
  - rewrite Hread. reflexivity.
Qed.

(** X19. Whenever [Execute] answers anything but "001", "stat init completed
    !!!" or "done complete" (every error reply, and "what?"), it has done
    nothing: no call on the memory writer and no byte queued, the engine is
    as it was. *)
Theorem Execute_error_untouched (fuel : nat) (raw_command : string)
    (st : engine) (r : Result) (st' : engine) :
  Execute z mem past_end fuel raw_command st = Returns (r, st') ->
  message r <> "001"%string ->
  message r <> "stat init completed !!!"%string ->
  message r <> "done complete"%string ->
  st' = st.
Proof.
  intros Hexec H1 H2 H3. revert Hexec.
  assert (Hsay : forall msg, say msg st = Returns (r, st') -> st' = st).
  { intros msg [= _ <-]. reflexivity. }
  assert (Hbin : forall data,
            Returns (parse_binary_commands past_end data st) = Returns (r, st') ->
            st' = st).
  { intros data [= H]. exfalso. apply H1. unfold parse_binary_commands in H.
    destruct (values_loop past_end (drop 3 data) cursor0 st) as [c1 st1].
    injection H as <- _. reflexivity. }
  unfold Execute.
  destruct (is_binary raw_command).
  - destruct (_ =? 0); [apply Hsay|].
    destruct (_ && _); [|apply Hbin].
    destruct (_ <? 2); [apply Hsay|].
    destruct (negb _); [apply Hsay|].
    destruct (negb _); [apply Hsay|].
    destruct (decompress_zlib_verbose z fuel _) as [[what|data]| |];
      [apply Hsay | apply Hbin | discriminate | discriminate].
  - unfold parse_text_commands.
    destruct (tokenize raw_command) as [|cmd rest]; [discriminate|].
    destruct (String.eqb cmd "start").
    { intros [= <- _]. exfalso. apply H2. reflexivity. }
    destruct (String.eqb cmd "done"); [|apply (Hsay "what?"%string)].
    destruct (send_wait fuel mem _) as [st2| |]; try discriminate.
    intros [= <- _]. exfalso. apply H3. reflexivity.
Qed.

(** The [do ... while] loop hands out what it inflated only when [inflate]
    has answered [Z_STREAM_END]. *)
Lemma inflate_chunks_end fuel : forall chunk_count strm decompressed out,
  (forall s, fst (fst (inflate z s)) <> Z_STREAM_END) ->
  inflate_chunks z fuel chunk_count strm decompressed <> Returns (inr out).
Proof.
  induction fuel as [|fuel IH]; intros chunk_count strm decompressed out Hnever;
    cbn [inflate_chunks]; [discriminate|].
  specialize (Hnever strm) as Hs.
  destruct (inflate z strm) as [[ret written] strm']. cbn [fst] in Hs.
  destruct (_ || _); [discriminate|].
  destruct (Z.eqb_spec ret Z_STREAM_END) as [|_]; [contradiction|].
  cbn [negb andb].
  destruct (_ >? _); [apply IH; exact Hnever | discriminate].
Qed.

(** X21. With a zlib whose [inflate] never answers [Z_STREAM_END],
    [decompress_zlib_verbose] never hands out data, and a binary command
    whose data start with a zlib header ([0x78], no preset dictionary)
    never reaches [parse_binary_commands]: whenever [Execute] returns, the
    engine is unchanged and the answer is not "001". *)
Theorem decompress_needs_stream_end (fuel : nat) (compressed_data out : list byte) :
  (forall s, fst (fst (inflate z s)) <> Z_STREAM_END) ->
  decompress_zlib_verbose z fuel compressed_data <> Returns (inr out)
  /\ forall raw_command st r st',
       is_binary raw_command = true ->
       char_at raw_command 7 = 0x78 ->
       Z.land (char_at raw_command 8) 0x20 = 0 ->
       Execute z mem past_end fuel raw_command st = Returns (r, st') ->
       st' = st /\ message r <> "001"%string.
Proof.
  intros Hnever.
  assert (Hd : forall data o, decompress_zlib_verbose z fuel data <> Returns (inr o)).
  { intros data o. unfold decompress_zlib_verbose.
    destruct (negb _); [discriminate|].
    destruct (negb _); [discriminate|].
    apply inflate_chunks_end, Hnever. }
  split; [apply Hd|].
  intros raw st r st' Hb H0 H1. unfold Execute, say. rewrite Hb, H0, H1.
  cbn [Z.eqb Pos.eqb andb].
  destruct (_ =? 0); [intros [= <- <-]; split; [reflexivity | discriminate]|].
  destruct (_ <? 2); [intros [= <- <-]; split; [reflexivity | discriminate]|].
  destruct (negb _); [intros [= <- <-]; split; [reflexivity | discriminate]|].
  destruct (negb _); [intros [= <- <-]; split; [reflexivity | discriminate]|].
  destruct (decompress_zlib_verbose z fuel _) as [[what|data]| |] eqn:E;
    try discriminate.
  - intros [= <- <-]. split; [reflexivity | discriminate].
  - exfalso. exact (Hd _ _ E).
Qed.
End EngineTheorems.

Section EngineExamples.
Import MemWriter DirectMemory Engine Hardware Done.

Lemma done_waits_witness :
  match parse_text_commands 4 memory_idle ["done"%string] engine0 with
  | Returns (r, st') =>
      message r = "done complete"%string
      /\ exists n, (n < 4)%nat
           /\ st' = issue (done_trigger ++ repeat (ReadCall 0x43c00014) (S n)
                           ++ done_report) engine0
           /\ polls_busy memory_idle (issue done_trigger engine0) n
           /\ (memory_idle (calls (issue done_trigger engine0)
                              ++ repeat (ReadCall 0x43c00014) n) 0x43c00014 = None
               \/ memory_idle (calls (issue done_trigger engine0)
                                 ++ repeat (ReadCall 0x43c00014) n) 0x43c00014
                  = Some 0)
  | Spinning => polls_busy memory_idle (issue done_trigger engine0) 4
  | Undefined => False
  end.
Proof.
  apply (done_waits memory_idle 4 [] engine0).
  intros cs c _. discriminate.
Defined.

Lemma Execute_calls_served_witness :
  exists new,
    calls (snd (returned (Execute zlib_refusing memory_idle x00 4 "done" engine0)))
    = calls engine0 ++ new
    /\ Forall in_block new
    /\ Forall (fun c => perform lp64_le kernel_closed (constructed lp64_le kernel_ok)
                          device_zero c
                        = (Ret true, [access_of c])) new.
Proof.
  apply (Execute_calls_served zlib_refusing memory_idle x00 lp64_le kernel_ok
           kernel_closed device_zero 4 "done" engine0
           (fst (returned (Execute zlib_refusing memory_idle x00 4 "done" engine0)))).
  - exact pages_ok_lp64_le.
  - reflexivity.
  - cbn. lia.
  - discriminate.
  - reflexivity.
  - vm_compute. reflexivity.
Defined.

Lemma Execute_error_untouched_witness :
  snd (returned (Execute zlib_refusing memory_idle x00 4 "ok" engine0)) = engine0.
Proof.
  apply (Execute_error_untouched zlib_refusing memory_idle x00 4 "ok" engine0
           (fst (returned (Execute zlib_refusing memory_idle x00 4 "ok" engine0)))).
  - vm_compute. reflexivity.
  - vm_compute. discriminate.
  - vm_compute. discriminate.
  - vm_compute. discriminate.
Defined.

Lemma decompress_needs_stream_end_witness :
  decompress_zlib_verbose zlib_refusing 4 sample_values <> Returns (inr sample_values)
  /\ forall raw_command st r st',
       is_binary raw_command = true ->
       char_at raw_command 7 = 0x78 ->
       Z.land (char_at raw_command 8) 0x20 = 0 ->
       Execute zlib_refusing memory_idle x00 4 raw_command st = Returns (r, st') ->
       st' = st /\ message r <> "001"%string.
Proof.
  apply (decompress_needs_stream_end zlib_refusing memory_idle x00 4 sample_values
           sample_values).
  intros s. vm_compute. discriminate.
Defined.

End EngineExamples.

Section TokenizeLemmas.
Import Engine Tokens.

Lemma append_cons c (s t : string) :
  (String c s +:+ t)%string = String c (s +:+ t).
Proof. reflexivity. Qed.

Lemma append_nil_r (s : string) : (s +:+ "")%string = s.
Proof.
  induction s as [|c s IH]; [reflexivity|].
  rewrite append_cons. f_equal. exact IH.
Qed.

Lemma append_snoc (acc : string) c s :
  ((acc +:+ String c "") +:+ s)%string = (acc +:+ String c s)%string.
Proof.
  induction acc as [|a acc IH]; [reflexivity|].
  rewrite !append_cons. f_equal. exact IH.
Qed.

Lemma append_snoc_nonempty (acc : string) c :
  String.eqb (acc +:+ String c "") "" = false.
Proof. destruct acc; reflexivity. Qed.

Lemma tokenize_from_split d s2 :
  is_delimiter d = true ->
  forall s1 acc,
  tokenize_from (s1 +:+ String d s2) acc = tokenize_from s1 acc ++ tokenize s2.
Proof.
  intros Hd. induction s1 as [|c s1 IH]; intros acc.
  - change ("" +:+ String d s2)%string with (String d s2).
    cbn [tokenize_from]. rewrite Hd.
    destruct (String.eqb acc ""); reflexivity.
  - rewrite append_cons. cbn [tokenize_from].
    destruct (is_delimiter c); [|apply IH].
    destruct (String.eqb acc ""); rewrite IH; reflexivity.
Qed.

Lemma tokenize_from_token s : forall acc,
  no_delimiter s = true ->
  tokenize_from s acc
  = if String.eqb (acc +:+ s) "" then [] else [(acc +:+ s)%string].
Proof.
  induction s as [|c s IH]; intros acc H.
  - cbn [tokenize_from]. rewrite append_nil_r. reflexivity.
  - cbn [no_delimiter] in H. apply andb_true_iff in H as [Hc Hs].
    apply negb_true_iff in Hc. cbn [tokenize_from]. rewrite Hc.
    rewrite IH by exact Hs. rewrite append_snoc. reflexivity.
Qed.

Lemma tokenize_from_nil s : forall acc,
  tokenize_from s acc = [] <-> acc = ""%string /\ only_delimiters s = true.
Proof.
  induction s as [|c s IH]; intros acc.
  - cbn [tokenize_from only_delimiters].
    destruct (String.eqb_spec acc ""); split; try tauto; discriminate.
  - cbn [tokenize_from only_delimiters].
    destruct (is_delimiter c); cbn [andb].
    + destruct (String.eqb_spec acc "") as [->|Hne].
      * rewrite IH. tauto.
      * split; [discriminate | intros [? _]; contradiction].
    + rewrite IH. split; [|intros [_ ?]; discriminate].
      intros [H _]. exfalso.
      pose proof (append_snoc_nonempty acc c) as Hn. rewrite H in Hn. discriminate.
Qed.

End TokenizeLemmas.

Section ExecuteEdges.
Import Engine Tokens.
Variable z : zlib.
Variable mem : memory.
Variable past_end : byte.

(** X22. The tokenizer of [Execute] splits at every delimiter and drops empty
    tokens: the tokens of a string cut at a delimiter are the tokens of the
    part in front followed by the tokens of the part behind; a string
    without delimiter is its own single token (none when it is empty); and
    a string has no token exactly when it consists of delimiters only. *)
Theorem tokenize_spec :
  (forall s1 d s2, is_delimiter d = true ->
     tokenize (s1 +:+ String d s2) = tokenize s1 ++ tokenize s2)
  /\ (forall s, no_delimiter s = true ->
        tokenize s = if String.eqb s "" then [] else [s])
  /\ (forall s, tokenize s = [] <-> only_delimiters s = true).
Proof.
  split; [|split].
  - intros s1 d s2 Hd. unfold tokenize. apply tokenize_from_split, Hd.
  - intros s Hs. unfold tokenize. rewrite tokenize_from_token by exact Hs. reflexivity.
  - intros s. unfold tokenize. rewrite tokenize_from_nil. tauto.
Qed.

(** X23. A command that consists of delimiters only, the empty line among
    them, is a text command without a token: [Execute] hands the empty
    vector to [parse_text_commands], which reads [tokens[0]], and leaves
    defined behaviour. *)
Theorem Execute_undefined (fuel : nat) (raw_command : string) (st : engine) :
  only_delimiters raw_command = true ->
  is_binary raw_command = false
  /\ tokenize raw_command = []
  /\ Execute z mem past_end fuel raw_command st = Undefined.
Proof.
  intros Hd.
  assert (Hb : is_binary raw_command = false).
  { destruct (is_binary raw_command) eqn:E; [|reflexivity].
    apply is_binary_prefix in E as [tail ->]. discriminate. }
  assert (Ht : tokenize raw_command = []).
  { unfold tokenize. apply tokenize_from_nil. split; [reflexivity | exact Hd]. }
  split; [exact Hb|]. split; [exact Ht|].
  unfold Execute. rewrite Hb, Ht. reflexivity.
Qed.
End ExecuteEdges.

Section BinaryLemmas.
Import Engine Tokens.

Lemma length_list_byte_of_string s :
  length (list_byte_of_string s) = String.length s.
Proof.
  unfold list_byte_of_string. rewrite length_map.
  induction s as [|c s IH]; cbn; [reflexivity | rewrite IH; reflexivity].
Qed.

(** The bytes of a command are its characters. *)
Lemma nth_list_byte_of_string s : forall i,
  (i < String.length s)%nat ->
  byte_val (nth i (list_byte_of_string s) x00) = char_at s i.
Proof.
  unfold list_byte_of_string, char_at.
  induction s as [|c s IH]; intros i Hi; [cbn in Hi; lia|].
  destruct i as [|i]; [reflexivity|].
  cbn [list_ascii_of_string map nth String.get].
  apply IH. cbn in Hi. lia.
Qed.

Lemma char_at_range s i : 0 <= char_at s i < 256.
Proof.
  unfold char_at. destruct (String.get i s); [apply byte_val_range | lia].
Qed.

(** With [CMF = 0x78] and no preset dictionary the header check sum holds
    for four values of [FLG]. *)
Lemma zlib_flags_all :
  forallb (fun n =>
             let flg := Z.of_nat n in
             implb (Z.land flg 0x20 =? 0)
                   (Bool.eqb ((Z.shiftl 0x78 8 + flg) mod 31 =? 0)
                             (existsb (Z.eqb flg) zlib_flags)))
          (seq 0 256) = true.
Proof. vm_compute. reflexivity. Qed.

Lemma zlib_flags_spec flg :
  0 <= flg < 256 -> Z.land flg 0x20 = 0 ->
  ((Z.shiftl 0x78 8 + flg) mod 31 =? 0) = existsb (Z.eqb flg) zlib_flags.
Proof.
  intros Hr Hd. pose proof zlib_flags_all as H.
  rewrite forallb_forall in H.
  specialize (H (Z.to_nat flg) ltac:(apply in_seq; lia)).
  cbv zeta in H. rewrite Z2Nat.id in H by lia.
  rewrite Hd in H. cbn [Z.eqb implb] in H.
  apply Bool.eqb_prop in H. exact H.
Qed.
End BinaryLemmas.

Section BinaryEdges.
Import Engine Tokens.
Variable z : zlib.
Variable mem : memory.
Variable past_end : byte.

(** X20. For a binary command whose data begin with [0x78] and whose second
    byte has bit 5 clear, [Execute] decides by that second byte alone: when
    it is one of [0x01], [0x5E], [0x9C], [0xDA] the header passes
    [validate_zlib_header] and the answer is what decompression gives (the
    initialization failure, the decompression error, or
    [parse_binary_commands] on the inflated data); with any other second
    byte the answer is "Invalid zlib header checksum" and nothing is
    done. *)
Theorem Execute_zlib_gate (fuel : nat) (raw_command : string) (st : engine) :
  is_binary raw_command = true ->
  (9 <= String.length raw_command)%nat ->
  char_at raw_command 7 = 0x78 ->
  Z.land (char_at raw_command 8) 0x20 = 0 ->
  let binary_data := drop 7 (list_byte_of_string raw_command) in
  if existsb (Z.eqb (char_at raw_command 8)) zlib_flags
  then validate_zlib_header binary_data = true
       /\ Execute z mem past_end fuel raw_command st
          = match inflateInit2 z =? Z_OK,
                  inflate_chunks z fuel 0 (stream_on z binary_data) [] with
            | false, _ =>
                say ("Decompression error: zlib initialization failed: "
                     +:+ to_string (inflateInit2 z)) st
            | true, Returns (inr decompressed_data) =>
                Returns (parse_binary_commands past_end decompressed_data st)
            | true, Returns (inl what) => say ("Decompression error: " +:+ what) st
            | true, Undefined => Undefined
            | true, Spinning => Spinning
            end
  else Execute z mem past_end fuel raw_command st
       = say "Invalid zlib header checksum" st.
Proof.
  intros Hb Hlen H0 H1 binary_data.
  assert (Hl : Z.of_nat (length binary_data) = Z.of_nat (String.length raw_command) - 7).
  { unfold binary_data. rewrite length_drop, length_list_byte_of_string. lia. }
  assert (Hcmf : byte_val (nth 0 binary_data x00) = 0x78).
  { unfold binary_data. rewrite nth_skipn, nth_list_byte_of_string by lia. exact H0. }
  assert (Hflg : byte_val (nth 1 binary_data x00) = char_at raw_command 8).
  { unfold binary_data. rewrite nth_skipn, nth_list_byte_of_string by lia. reflexivity. }
  pose proof (zlib_flags_spec (char_at raw_command 8) (char_at_range _ _) H1) as Hsum.
  unfold Execute. rewrite Hb, H0, H1. fold binary_data.
  cbn [Z.eqb Pos.eqb andb].
  destruct (Z.eqb_spec (Z.of_nat (length binary_data)) 0); [lia|].
  destruct (Z.ltb_spec (Z.of_nat (length binary_data)) 2); [lia|].
  rewrite Hcmf, Hflg. change (negb (Z.land 0x78 0x0F =? 8)) with false. cbv iota.
  rewrite Hsum.
  destruct (existsb (Z.eqb (char_at raw_command 8)) zlib_flags) eqn:Eflag;
    cbn [negb]; [|reflexivity].
  assert (Hv : validate_zlib_header binary_data = true).
  { unfold validate_zlib_header.
    destruct (Z.ltb_spec (Z.of_nat (length binary_data)) 2); [lia|].
    rewrite Hcmf, Hflg. change (negb (Z.land 0x78 0x0F =? 8)) with false. cbv iota.
    unfold to_uint16.
    rewrite (Z.mod_small (Z.shiftl 0x78 8 + char_at raw_command 8) (2 ^ 16)).
    - rewrite Hsum. reflexivity.
    - pose proof (char_at_range raw_command 8).
      change (Z.shiftl 0x78 8) with 30720. lia. }
  split; [exact Hv|].
  unfold decompress_zlib_verbose. rewrite Hv. cbn [negb].
  destruct (inflateInit2 z =? Z_OK); cbn [negb]; [|reflexivity].
  destruct (inflate_chunks z fuel 0 (stream_on z binary_data) []) as [[what|data]| |];
    reflexivity.
Qed.

(** X24. A binary command of at most ten characters whose data do not begin
    with [0x78]: without any data [Execute] answers "No binary data found";
    with one to three bytes of data it answers "001" and has done nothing,
    since no value follows the three leading bytes. *)
Theorem Execute_binary_short (fuel : nat) (raw_command : string) (st : engine) :
  is_binary raw_command = true ->
  (String.length raw_command <= 10)%nat ->
  char_at raw_command 7 <> 0x78 ->
  Execute z mem past_end fuel raw_command st
  = Returns ({| message := if (String.length raw_command =? 7)%nat
                           then "No binary data found" else "001";
                responses := [] |}, st).
Proof.
  intros Hb Hlen H0.
  assert (H7 : (7 <= String.length raw_command)%nat).
  { apply is_binary_prefix in Hb as [tail ->].
    unfold String.append. cbn [String.length]. lia. }
  unfold Execute, say. rewrite Hb.
  destruct (Z.eqb_spec (char_at raw_command 7) 0x78) as [|_]; [contradiction|].
  cbn [andb].
  assert (Hl : length (drop 7 (list_byte_of_string raw_command))
               = (String.length raw_command - 7)%nat).
  { rewrite length_drop, length_list_byte_of_string. reflexivity. }
  rewrite Hl.
  destruct (Nat.eqb_spec (String.length raw_command) 7) as [E|E].
  - rewrite E. reflexivity.
  - destruct (Z.eqb_spec (Z.of_nat (String.length raw_command - 7)) 0); [lia|].
    unfold parse_binary_commands.
    assert (Hd : drop 3 (drop 7 (list_byte_of_string raw_command)) = []).
    { apply length_zero_iff_nil. rewrite length_drop, Hl. lia. }
    rewrite Hd. reflexivity.
Qed.
End BinaryEdges.

Section BinaryExamples.
Import Engine Tokens.

Lemma Execute_undefined_witness :
  is_binary " & " = false
  /\ tokenize " & " = []
  /\ Execute zlib_refusing memory_idle x00 4 " & " engine0 = Undefined.
Proof.
  apply (Execute_undefined zlib_refusing memory_idle x00 4 " & " engine0).
  reflexivity.
Defined.

Lemma Execute_zlib_gate_witness :
  let binary_data := drop 7 (list_byte_of_string zlib_command) in
  if existsb (Z.eqb (char_at zlib_command 8)) zlib_flags
  then validate_zlib_header binary_data = true
       /\ Execute zlib_refusing memory_idle x00 4 zlib_command engine0
          = match inflateInit2 zlib_refusing =? Z_OK,
                  inflate_chunks zlib_refusing 4 0
                    (stream_on zlib_refusing binary_data) [] with
            | false, _ =>
                say ("Decompression error: zlib initialization failed: "
                     +:+ to_string (inflateInit2 zlib_refusing)) engine0
            | true, Returns (inr decompressed_data) =>
                Returns (parse_binary_commands x00 decompressed_data engine0)
            | true, Returns (inl what) =>
                say ("Decompression error: " +:+ what) engine0
            | true, Undefined => Undefined
            | true, Spinning => Spinning
            end
  else Execute zlib_refusing memory_idle x00 4 zlib_command engine0
       = say "Invalid zlib header checksum" engine0.
Proof.
  apply (Execute_zlib_gate zlib_refusing memory_idle x00 4 zlib_command engine0).
  - reflexivity.
  - vm_compute. lia.
  - reflexivity.
  - reflexivity.
Defined.

Lemma Execute_binary_short_witness :
  Execute zlib_refusing memory_idle x00 4 short_command engine0
  = Returns ({| message := if (String.length short_command =? 7)%nat
                           then "No binary data found" else "001";
                responses := [] |}, engine0).
Proof.
  apply (Execute_binary_short zlib_refusing memory_idle x00 4 short_command engine0).
  - reflexivity.
  - vm_compute. lia.
  - vm_compute. discriminate.
Defined.

End BinaryExamples.

Section GridLemmas.
Import Console.

Lemma map_key_grid is_tx dx dy dx' dy' :
  map key (grid is_tx dx dy) = map key (grid is_tx dx' dy').
Proof.
  unfold grid. generalize (upto ROWS) as rows. generalize (upto COLS) as cols.
  intros cols rows. induction rows as [|row rows IH]; [reflexivity|].
  cbn [flat_map]. rewrite !map_app, IH. f_equal.
  rewrite !map_map. reflexivity.
Qed.

Lemma grid_keys_tx :
  bool_decide (NoDup (map key (grid 1 (S754_zero false) (S754_zero false)))) = true.
Proof. vm_compute. reflexivity. Qed.

End GridLemmas.

Section GridTheorems.
Import Beam Console Engine Shapes.

Lemma channel_pattern_tx is_tx :
  channel_pattern_even is_tx = channel_pattern_even (if is_tx =? 1 then 1 else 0)
  /\ channel_pattern_odd is_tx = channel_pattern_odd (if is_tx =? 1 then 1 else 0).
Proof.
  unfold channel_pattern_even, channel_pattern_odd.
  destruct (is_tx =? 1); split; reflexivity.
Qed.

Lemma map_key_grid_tx is_tx dx dy :
  map key (grid is_tx dx dy)
  = map key (grid (if is_tx =? 1 then 1 else 0) (S754_zero false) (S754_zero false)).
Proof.
  rewrite (map_key_grid is_tx dx dy (S754_zero false) (S754_zero false)).
  unfold grid. generalize (upto ROWS) as rows. generalize (upto COLS) as cols.
  intros cols rows. induction rows as [|row rows IH]; [reflexivity|].
  cbn [flat_map]. rewrite !map_app, IH. f_equal.
  rewrite !map_map. apply map_ext. intros col.
  unfold grid_entry, key. cbn [spi_id chip_id channel_id].
  destruct (channel_pattern_tx is_tx) as [-> ->]. reflexivity.
Qed.

Lemma grid_keys_checked (tx : bool) : keys_ok (if tx then 1 else 0) = true.
Proof. destruct tx; vm_compute; reflexivity. Qed.

(** X27. The 32 x 32 grid that [Run] builds gives every element a
    [(spi_id, chip_id, channel_id)] of its own: the 1024 keys are pairwise
    different, whatever the direction flag and the spacings; [spi_id] is a
    bus from 0 to 7, [chip_id] a chip from 0 to 31 and [channel_id] one of
    the four register addresses of the direction. *)
Theorem grid_keys (is_tx : Z) (dx dy : spec_float) :
  let keys := map key (grid is_tx dx dy) in
  NoDup keys
  /\ length (grid is_tx dx dy) = 1024%nat
  /\ forall s c ch, In (s, c, ch) keys ->
       0 <= s <= 7 /\ 0 <= c <= 31 /\ In ch (channel_pattern_even is_tx).
Proof.
  intros keys. subst keys.
  assert (Hlen : length (grid is_tx dx dy) = length (map key (grid is_tx dx dy)))
    by (rewrite length_map; reflexivity).
  rewrite Hlen, map_key_grid_tx.
  destruct (channel_pattern_tx is_tx) as [-> _].
  pose proof (grid_keys_checked (is_tx =? 1)) as H.
  generalize dependent (if is_tx =? 1 then 1 else 0). intros tx H.
  unfold keys_ok in H.
  generalize dependent (map key (grid tx (S754_zero false) (S754_zero false))).
  intros keys H.
  apply andb_prop in H as [Hnd H]. apply andb_prop in H as [Hl Hrange].
  split; [apply bool_decide_eq_true in Hnd; exact Hnd|].
  split; [apply Nat.eqb_eq, Hl|].
  intros s c ch Hin. rewrite forallb_forall in Hrange.
  specialize (Hrange _ Hin). unfold key_in_range in Hrange.
  rewrite !andb_true_iff, !Z.leb_le in Hrange.
  destruct Hrange as ((((? & ?) & ?) & ?) & Hch).
  repeat split; try assumption.
  apply existsb_exists in Hch as (x & Hx & E). apply Z.eqb_eq in E. subst x. exact Hx.
Qed.

Lemma value_of_checked (tx : bool) :
  forallb (fun n => value_ok (if tx then 1 else 0) (Z.of_nat n)) (seq 0 64) = true.
Proof. destruct tx; vm_compute; reflexivity. Qed.

Lemma value_of_land is_tx int_phase :
  value_of is_tx int_phase
  = value_of (if is_tx =? 1 then 1 else 0) (Z.land int_phase 0x3f).
Proof.
  unfold value_of. rewrite <- (Z.land_assoc int_phase 0x3f 0x3f).
  change (Z.land 0x3f 0x3f) with 0x3f.
  destruct (is_tx =? 1); reflexivity.
Qed.

(** X28. The register word [Run] packs for a phase code fits 16 bits: its
    upper six bits are the phase code modulo 64, its lower ten bits are the
    constant [0x3FE] for transmit and [0x3F8] for receive, and the two
    bytes pushed on the queue, high then low, recombine to the word. *)
Theorem value_of_fields (is_tx int_phase : Z) :
  let v := value_of is_tx int_phase in
  0 <= v < 2 ^ 16
  /\ Z.shiftr v 10 = int_phase mod 64
  /\ Z.land v 0x3FF = (if is_tx =? 1 then 0x3FE else 0x3F8)
  /\ Z.land (Z.shiftr v 8) 0xFF * 2 ^ 8 + Z.land v 0xFF = v.
Proof.
  intros v. subst v. rewrite value_of_land.
  change 0x3f with (Z.ones 6). rewrite Z.land_ones by lia.
  pose proof (Z.mod_pos_bound int_phase (2 ^ 6) ltac:(lia)) as Hx.
  change (2 ^ 6) with 64 in *.
  set (x := int_phase mod 64) in *.
  pose proof (value_of_checked (is_tx =? 1)) as H.
  rewrite forallb_forall in H.
  specialize (H (Z.to_nat x) ltac:(apply in_seq; lia)).
  rewrite Z2Nat.id in H by lia. unfold value_ok in H. cbv zeta in H.
  assert (E : ((if is_tx =? 1 then 1 else 0) =? 1) = (is_tx =? 1))
    by (destruct (is_tx =? 1); reflexivity).
  rewrite E in H.
  rewrite !andb_true_iff, !Z.eqb_eq, Z.leb_le, Z.ltb_lt in H.
  destruct H as (((((? & ?) & ?) & ?) & ?) & ?).
  repeat split; assumption.
Qed.
End GridTheorems.

Section ShapeLemmas.
Import Beam Engine Console Shapes.

Lemma length_words_be q : length (words_be q) = (length q / 4)%nat.
Proof.
  induction q as [q IH] using (induction_ltof1 _ (@length byte)).
  unfold ltof in IH.
  destruct q as [|b0 [|b1 [|b2 [|b3 q']]]]; try reflexivity.
  cbn [words_be length]. rewrite IH by (cbn [length]; lia).
  replace (S (S (S (S (length q'))))) with (length q' + 1 * 4)%nat by lia.
  rewrite Nat.div_add by lia. lia.
Qed.

Lemma shape_fifo_words b ws :
  map shape (map (WriteCall (base_address_of b + 0x10)) ws)
  = repeat (WriteCall (base_address_of b + 0x10) 0) (length ws).
Proof.
  induction ws as [|w ws IH]; [reflexivity|].
  cbn [map length repeat]. rewrite IH. f_equal.
  unfold shape. rewrite is_fifo_data_offset by lia. reflexivity.
Qed.















End ShapeLemmas.

Section SteerTheorems.
Import Beam Engine Console Shapes.

End SteerTheorems.

Section SteerExamples.
Import Beam Engine Console Shapes.


End SteerExamples.

Section LoopShapes.
Import Engine Shapes PassShapes.
Variable past_end : byte.

Lemma shape_control cs : control cs = cs -> map shape cs = cs.
Proof.
  induction cs as [|c cs IH]; [reflexivity|].
  unfold control. cbn [List.filter].
  destruct (is_fifo_data c) eqn:E; cbn [negb].
  - intros H. exfalso.
    assert (Hl : (length (List.filter (fun c => negb (is_fifo_data c)) cs)
                  <= length cs)%nat) by apply List.filter_length_le.
    rewrite H in Hl. cbn [length] in Hl. lia.
  - intros [= H]. cbn [map]. rewrite (IH H). f_equal.
    unfold shape. rewrite E. destruct c; reflexivity.
Qed.

Lemma loop_shapes_ext n : forall c lens lens',
  (forall b, lens b = lens' b) ->
  loop_shapes n c lens = loop_shapes n c lens'.
Proof.
  induction n as [|n IH]; intros c lens lens' H; [reflexivity|].
  cbn [loop_shapes]. rewrite (H (bus_id c)).
  destruct (next_cursor c) as [[c' cs] stop]. do 2 f_equal.
  destruct stop; [reflexivity|].
  apply IH. intros b. destruct (b =? bus_id c); [reflexivity | apply H].
Qed.

(** One turn, in shape. *)
Lemma turn_shapes hi lo c st :
  exists new,
    calls (snd (fst (turn hi lo c st))) = calls st ++ new
    /\ map shape new
       = repeat (WriteCall (base_address_of (bus_id c) + 0x10) 0)
                ((length (queue st (bus_id c)) + 5) / 4)
         ++ snd (fst (next_cursor c))
    /\ forall b, length (queue (snd (fst (turn hi lo c st))) b)
                 = if b =? bus_id c
                   then ((length (queue st (bus_id c)) + 5) mod 4)%nat
                   else length (queue st b).
Proof.
  rewrite turn_eq. cbn [fst snd].
  destruct (push_and_flush_spec hi lo c st) as (Hcalls & Hq & Hother & _).
  eexists. split.
  { rewrite calls_issue, Hcalls, <- app_assoc. reflexivity. }
  split.
  - rewrite map_app, shape_fifo_words, length_words_be, length_app.
    rewrite (shape_control _ (control_next_cursor c)). reflexivity.
  - intros b. rewrite queue_issue.
    destruct (Z.eqb_spec b (bus_id c)) as [->|Hb].
    + apply push_and_flush_length.
    + rewrite Hother by exact Hb. reflexivity.
Qed.

Lemma values_loop_shapes rest : forall c st,
  exists new,
    calls (snd (values_loop past_end rest c st)) = calls st ++ new
    /\ map shape new
       = loop_shapes (turn_count rest) c (fun b => length (queue st b)).
Proof.
  induction rest as [|hi|hi lo rest IH] using pairs_ind; intros c st.
  - exists []. cbn. rewrite app_nil_r. split; reflexivity.
  - cbn [values_loop turn_count loop_shapes].
    destruct (turn_shapes hi past_end c st) as (new & Hnew & Hs & _).
    pose proof (turn_eq hi past_end c st) as Et.
    destruct (turn hi past_end c st) as [[c' st'] stop]. cbn [fst snd] in *.
    destruct (next_cursor c) as [[c1 cs] stop1]. cbn [fst snd] in *.
    exists new. split; [exact Hnew|]. rewrite Hs. do 2 f_equal.
    destruct stop1; [rewrite app_nil_r; reflexivity|].
    cbn [loop_shapes]. rewrite app_nil_r. reflexivity.
  - cbn [values_loop turn_count loop_shapes].
    destruct (turn_shapes hi lo c st) as (new & Hnew & Hs & Hq).
    pose proof (turn_eq hi lo c st) as Et.
    destruct (turn hi lo c st) as [[c' st'] stop]. cbn [fst snd] in *.
    destruct (next_cursor c) as [[c1 cs] stop1]. cbn [fst snd] in *.
    injection Et as -> _ ->.
    destruct stop1.
    + exists new. split; [exact Hnew|]. rewrite Hs, app_nil_r. reflexivity.
    + destruct (IH c1 st') as (new' & Hnew' & Hs').
      exists (new ++ new'). split.
      { rewrite Hnew', Hnew, <- app_assoc. reflexivity. }
      rewrite map_app, Hs, Hs', <- app_assoc. do 2 f_equal.
      apply loop_shapes_ext. intros b. apply Hq.
Qed.

(** The number of bytes written to a FIFO does not depend on the words. *)
Lemma length_fifo_bytes_shape b cs :
  length (Fifo.fifo_bytes b (map shape cs)) = length (Fifo.fifo_bytes b cs).
Proof.
  induction cs as [|c cs IH]; [reflexivity|].
  change (map shape (c :: cs)) with ([shape c] ++ map shape cs).
  change (c :: cs) with ([c] ++ cs).
  rewrite !fifo_bytes_app, !length_app, IH. f_equal.
  destruct c as [addr value|addr]; [|reflexivity].
  unfold shape. destruct (is_fifo_data (WriteCall addr value)); [|reflexivity].
  unfold Fifo.fifo_bytes. cbn [flat_map].
  destruct (addr =? base_address_of b + 16); reflexivity.
Qed.

Lemma full_pass_shapes_bytes b :
  0 <= b <= 7 -> Z.of_nat (length (Fifo.fifo_bytes b full_pass_shapes)) = 0x280.
Proof.
  intros Hb.
  assert (E : b = 0 \/ b = 1 \/ b = 2 \/ b = 3 \/ b = 4 \/ b = 5 \/ b = 6 \/ b = 7)
    by lia.
  destruct E as [-> | [-> | [-> | [-> | [-> | [-> | [-> | ->]]]]]]];
    vm_compute; reflexivity.
Qed.

Lemma full_pass_shapes_checked :
  loop_shapes 1024 cursor0 (fun _ => 0%nat) = full_pass_shapes.
Proof. vm_compute. reflexivity. Qed.

End LoopShapes.

Section FullPassShape.
Import Engine Shapes PassShapes.

(** X16. A full pass of [parse_binary_commands] (three leading bytes and
    4 x 32 x 8 values) that finds the byte queues empty makes the same
    calls whatever the values, up to the data words: for each bus from 0
    to 7 its 160 words, then its close sequence and, but for bus 7, the
    opening of the next bus; 1319 calls in all.  The words written to the
    FIFO of each bus carry [0x280] bytes, the very number its close
    sequence writes to the length register. *)
Theorem parse_binary_commands_full_pass_calls (past_end : byte)
    (binary_data : list byte) (st : engine) :
  length binary_data = (3 + 2 * (4 * 32 * 8))%nat ->
  (forall b, queue st b = []) ->
  exists new,
    calls (snd (parse_binary_commands past_end binary_data st)) = calls st ++ new
    /\ map shape new = full_pass_shapes
    /\ length new = (8 * 160 + 8 * 4 + 7)%nat
    /\ forall b, 0 <= b <= 7 ->
         Z.of_nat (length (Fifo.fifo_bytes b new)) = 0x280
         /\ In (WriteCall (base_address_of b + 0x14) 0x280) new.
Proof.
  intros Hlen Hempty. unfold parse_binary_commands.
  destruct (values_loop_shapes past_end (drop 3 binary_data) cursor0 st)
    as (new & Hnew & Hs).
  destruct (values_loop past_end (drop 3 binary_data) cursor0 st) as [c' st'].
  cbn [snd] in *.
  rewrite (turn_count_even 1024) in Hs by (rewrite length_drop, Hlen; reflexivity).
  rewrite (loop_shapes_ext _ _ _ (fun _ => 0%nat)) in Hs
    by (intros b; rewrite Hempty; reflexivity).
  rewrite full_pass_shapes_checked in Hs.
  exists new. split; [exact Hnew|]. split; [exact Hs|].
  split; [rewrite <- (length_map shape), Hs; reflexivity|].
  intros b Hb. split.
  - rewrite <- length_fifo_bytes_shape, Hs. apply full_pass_shapes_bytes, Hb.
  - assert (Hin : In (WriteCall (base_address_of b + 0x14) 0x280) full_pass_shapes).
    { unfold full_pass_shapes. apply in_flat_map. exists b. split.
      - cbn [In]. lia.
      - apply in_or_app. right. apply in_or_app. left. left. reflexivity. }
    rewrite <- Hs in Hin. apply in_map_iff in Hin as (c & Hc & Hin).
    replace (WriteCall (base_address_of b + 0x14) 0x280) with c; [exact Hin|].
    destruct c as [addr value|addr]; unfold shape in Hc; [|discriminate].
    destruct (is_fifo_data (WriteCall addr value)) eqn:Ef; [|exact Hc].
    injection Hc as Ha Hv. discriminate.
Qed.
End FullPassShape.

Section FullPassExamples.
Import Engine Shapes PassShapes.

Lemma parse_binary_commands_full_pass_calls_witness :
  exists new,
    calls (snd (parse_binary_commands x00 full_pass engine0)) = calls engine0 ++ new
    /\ map shape new = full_pass_shapes
    /\ length new = (8 * 160 + 8 * 4 + 7)%nat
    /\ forall b, 0 <= b <= 7 ->
         Z.of_nat (length (Fifo.fifo_bytes b new)) = 0x280
         /\ In (WriteCall (base_address_of b + 0x14) 0x280) new.
Proof.
  apply (parse_binary_commands_full_pass_calls x00 full_pass engine0).
  - reflexivity.
  - intros b. reflexivity.
Defined.

End FullPassExamples.
